(** * The task scheduler of [src/coordination/scheduler.ts]

    A shallow embedding of [TaskScheduler]: its four indices, the timers it
    arms, the events it emits, and every method of the class.  The
    collaborators of the class are embedded as follows.

    - [Map] and [Set] of JavaScript iterate in insertion order, and the
      scheduler relies on that order ([cleanup] evicts the oldest ids, the
      loops over dependents run in registration order), so a [Map] is an
      association list and a [Set] a list; see [JsMap] and [JsSet].
    - [new Date()] reads the field [clock] (milliseconds).
    - [setTimeout], [setInterval] and [clearTimeout] act on the list [timers]
      of pending timers; a callback is a value of [Callback] that
      [runCallback] interprets, and [fireTimer] is the timer service firing one
      pending timer that is due.  The handles are [NodeJS.Timeout]: the timers
      are those of Node, which take a delay from 1 to 2147483647
      milliseconds as given and any other delay as 1 millisecond
      ([timerDelay]).
    - [eventBus.emit] appends to [emitted].
    - [logger] is a write-only diagnostic sink and is left out.
    - A [ScheduledTask] object is referenced from the map [tasks] only, so the
      map holds the record itself and a method that mutates the object writes
      the new record back under its key.  An object that a method deletes
      from [tasks] is appended to [released], under the key it had, with the
      field values it has at that point (no method touches it afterwards).
    - The [async] methods are embedded as the run of one call from outside
      that no other call from outside interleaves with.  Where a method
      awaits one call at a time ([failTask], [cancelTask],
      [cancelDependentTasks], [performMaintenance]) nothing else runs while
      it waits, and an [await] is a direct call.  Where a method collects
      several calls in [Promise.all] ([shutdown], [cancelAgentTasks]), each
      call runs up to its first [await] when it is made, in array order, and
      the suspended calls then take turns, one job of the promise queue at a
      time, first suspended first resumed; see [cancelAll]. *)

From Stdlib Require Import String List ZArith Lia Bool Arith DecimalString.
Import ListNotations.
Local Open Scope string_scope.
Local Open Scope list_scope.

(** ** JavaScript containers *)

Module JsSet.

Definition t := list string.

Definition has (x : string) (s : t) : bool := existsb (String.eqb x) s.

Definition add (x : string) (s : t) : t := if has x s then s else s ++ [x].

Definition delete (x : string) (s : t) : t :=
  filter (fun y => negb (String.eqb x y)) s.

Definition size (s : t) : nat := List.length s.

End JsSet.

Module JsMap.

Definition t (V : Type) := list (string * V).

Fixpoint get {V} (k : string) (m : t V) : option V :=
  match m with
  | [] => None
  | (k', v) :: m' => if String.eqb k k' then Some v else get k m'
  end.

(** [Map.set] keeps the position of a key that is present and appends a
    new key at the end. *)
Fixpoint set {V} (k : string) (v : V) (m : t V) : t V :=
  match m with
  | [] => [(k, v)]
  | (k', v') :: m' =>
      if String.eqb k k' then (k, v) :: m' else (k', v') :: set k v m'
  end.

Definition delete {V} (k : string) (m : t V) : t V :=
  filter (fun p => negb (String.eqb k (fst p))) m.

Definition keys {V} (m : t V) : list string := map fst m.

Definition size {V} (m : t V) : nat := List.length m.

End JsMap.

(** ** Data model *)

Inductive TaskStatus :=
| pending | queued | assigned | running | completed | failed | cancelled.

Inductive Error :=
| TaskError (message : string)
| TaskTimeoutError (taskId : string) (duration : Z)
| TaskDependencyError (taskId : string) (unmet : list string)
| ExecutionError (message : string).

(** The fields of [Task] (declared in [utils/types.ts]) that the scheduler
    reads or writes; [output] is an opaque payload. *)
Record Task := mkTask {
  id : string;
  dependencies : list string;
  status : TaskStatus;
  assignedAgent : option string;
  output : option string;
  error : option Error;
  startedAt : option Z;
  completedAt : option Z
}.

Record ScheduledTask := mkScheduled {
  task : Task;
  agentId : string;
  attempts : nat;
  lastAttempt : option Z;
  timeout : option nat
}.

(** The three numbers of [CoordinationConfig] that the scheduler reads, as
    integers.  The delay [retryDelay * Math.pow(2, attempts - 1)] of
    [failTask] is then an integer times a power of two, which the
    floating-point arithmetic of JavaScript computes exactly for the values
    the configuration schema admits ([retryDelay] up to 60000, [maxRetries]
    up to 100). *)
Record CoordinationConfig := mkConfig {
  maxRetries : Z;
  retryDelay : Z;
  resourceTimeout : Z
}.

Inductive SystemEvent :=
| TASK_CREATED (t : Task)
| TASK_STARTED (taskId agent : string)
| TASK_CANCELLED (taskId reason : string).

(** The three closures the class hands to the timer service. *)
Inductive Callback :=
| onTimeout (taskId : string) (timeoutMs : Z)
| onRetry (taskId : string)
| onInterval.

Record Timer := mkTimer {
  handle : nat;
  due : Z;
  delay : Z;
  callback : Callback;
  repeats : bool
}.

Record Scheduler := mkScheduler {
  tasks : JsMap.t ScheduledTask;
  agentTasks : JsMap.t JsSet.t;
  taskDependencies : JsMap.t JsSet.t;
  completedTasks : JsSet.t;
  clock : Z;
  timers : list Timer;
  nextHandle : nat;
  emitted : list SystemEvent;
  released : list (string * ScheduledTask)
}.

Definition init : Scheduler := mkScheduler [] [] [] [] 0 [] 0 [] [].

(** How a call ends: it returns, or it throws. *)
Inductive Outcome := Returned | Threw (e : Error).

(** *** Field updates *)

Definition withStatus (st : TaskStatus) (t : Task) : Task :=
  mkTask (id t) (dependencies t) st (assignedAgent t) (output t) (error t)
    (startedAt t) (completedAt t).

Definition withAssignedAgent (a : string) (t : Task) : Task :=
  mkTask (id t) (dependencies t) (status t) (Some a) (output t) (error t)
    (startedAt t) (completedAt t).

Definition withOutput (r : string) (t : Task) : Task :=
  mkTask (id t) (dependencies t) (status t) (assignedAgent t) (Some r)
    (error t) (startedAt t) (completedAt t).

Definition withError (e : Error) (t : Task) : Task :=
  mkTask (id t) (dependencies t) (status t) (assignedAgent t) (output t)
    (Some e) (startedAt t) (completedAt t).

Definition withStartedAt (d : Z) (t : Task) : Task :=
  mkTask (id t) (dependencies t) (status t) (assignedAgent t) (output t)
    (error t) (Some d) (completedAt t).

Definition withCompletedAt (d : Z) (t : Task) : Task :=
  mkTask (id t) (dependencies t) (status t) (assignedAgent t) (output t)
    (error t) (startedAt t) (Some d).

Definition withTask (f : Task -> Task) (x : ScheduledTask) : ScheduledTask :=
  mkScheduled (f (task x)) (agentId x) (attempts x) (lastAttempt x) (timeout x).

Definition withAttempts (n : nat) (x : ScheduledTask) : ScheduledTask :=
  mkScheduled (task x) (agentId x) n (lastAttempt x) (timeout x).

Definition withLastAttempt (d : Z) (x : ScheduledTask) : ScheduledTask :=
  mkScheduled (task x) (agentId x) (attempts x) (Some d) (timeout x).

Definition withTimeout (h : nat) (x : ScheduledTask) : ScheduledTask :=
  mkScheduled (task x) (agentId x) (attempts x) (lastAttempt x) (Some h).

Definition setTasks (m : JsMap.t ScheduledTask) (s : Scheduler) : Scheduler :=
  mkScheduler m (agentTasks s) (taskDependencies s) (completedTasks s)
    (clock s) (timers s) (nextHandle s) (emitted s) (released s).

Definition setAgentTasks (m : JsMap.t JsSet.t) (s : Scheduler) : Scheduler :=
  mkScheduler (tasks s) m (taskDependencies s) (completedTasks s)
    (clock s) (timers s) (nextHandle s) (emitted s) (released s).

Definition setTaskDependencies (m : JsMap.t JsSet.t) (s : Scheduler)
  : Scheduler :=
  mkScheduler (tasks s) (agentTasks s) m (completedTasks s)
    (clock s) (timers s) (nextHandle s) (emitted s) (released s).

Definition setCompletedTasks (c : JsSet.t) (s : Scheduler) : Scheduler :=
  mkScheduler (tasks s) (agentTasks s) (taskDependencies s) c
    (clock s) (timers s) (nextHandle s) (emitted s) (released s).

Definition setClock (d : Z) (s : Scheduler) : Scheduler :=
  mkScheduler (tasks s) (agentTasks s) (taskDependencies s) (completedTasks s)
    d (timers s) (nextHandle s) (emitted s) (released s).

Definition setTimers (l : list Timer) (s : Scheduler) : Scheduler :=
  mkScheduler (tasks s) (agentTasks s) (taskDependencies s) (completedTasks s)
    (clock s) l (nextHandle s) (emitted s) (released s).

(** *** The collaborators *)

Definition emit (e : SystemEvent) (s : Scheduler) : Scheduler :=
  mkScheduler (tasks s) (agentTasks s) (taskDependencies s) (completedTasks s)
    (clock s) (timers s) (nextHandle s) (emitted s ++ [e]) (released s).

Definition release (k : string) (x : ScheduledTask) (s : Scheduler)
  : Scheduler :=
  mkScheduler (tasks s) (agentTasks s) (taskDependencies s) (completedTasks s)
    (clock s) (timers s) (nextHandle s) (emitted s) (released s ++ [(k, x)]).

(** The delay a timer of Node runs with: [after] itself from 1 to
    [TIMEOUT_MAX], and 1 for any other value. *)
Definition TIMEOUT_MAX : Z := 2147483647.

Definition timerDelay (ms : Z) : Z :=
  if ((1 <=? ms) && (ms <=? TIMEOUT_MAX))%Z then ms else 1%Z.

(** [setTimeout cb ms] and [setInterval cb ms]: the new timer gets the next
    handle, which the caller may read as [nextHandle] of the state before. *)
Definition arm (rep : bool) (cb : Callback) (ms : Z) (s : Scheduler)
  : Scheduler :=
  mkScheduler (tasks s) (agentTasks s) (taskDependencies s) (completedTasks s)
    (clock s)
    (timers s
     ++ [mkTimer (nextHandle s) (clock s + timerDelay ms) (timerDelay ms) cb
           rep])
    (S (nextHandle s)) (emitted s) (released s).

Definition setTimeout := arm false.
Definition setInterval := arm true.

Definition dropTimer (h : nat) (l : list Timer) : list Timer :=
  filter (fun tm => negb (Nat.eqb (handle tm) h)) l.

Definition clearTimeout (h : nat) (s : Scheduler) : Scheduler :=
  setTimers (dropTimer h (timers s)) s.

(** [if (scheduled.timeout) clearTimeout(scheduled.timeout)] *)
Definition clearTimeoutOf (x : ScheduledTask) (s : Scheduler) : Scheduler :=
  match timeout x with
  | Some h => clearTimeout h s
  | None => s
  end.

(** [m.get(k)?.delete(x)] on a map of sets. *)
Definition deleteFrom (k x : string) (m : JsMap.t JsSet.t) : JsMap.t JsSet.t :=
  match JsMap.get k m with
  | Some st => JsMap.set k (JsSet.delete x st) m
  | None => m
  end.

(** The get-or-create-then-add idiom of [assignTask]. *)
Definition addTo (k x : string) (m : JsMap.t JsSet.t) : JsMap.t JsSet.t :=
  match JsMap.get k m with
  | Some st => JsMap.set k (JsSet.add x st) m
  | None => JsMap.set k (JsSet.add x []) m
  end.

(** A loop whose body may run out of fuel. *)
Fixpoint forEach {A} (body : A -> Scheduler -> option Scheduler)
  (l : list A) (s : Scheduler) : option Scheduler :=
  match l with
  | [] => Some s
  | x :: l' =>
      match body x s with
      | Some s' => forEach body l' s'
      | None => None
      end
  end.

(** ** The methods of [TaskScheduler] *)

Section TaskScheduler.

Variable config : CoordinationConfig.

Definition initialize (s : Scheduler) : Scheduler :=
  setInterval onInterval 60000 s.

Definition startTask (taskId : string) (s : Scheduler) : Scheduler :=
  match JsMap.get taskId (tasks s) with
  | None => s
  | Some scheduled =>
      let running' :=
        withTask (fun t => withStartedAt (clock s) (withStatus running t))
          scheduled in
      let s1 := emit (TASK_STARTED taskId (agentId scheduled)) s in
      let timeoutMs := resourceTimeout config in
      let s2 := setTimeout (onTimeout taskId timeoutMs) timeoutMs s1 in
      setTasks
        (JsMap.set taskId (withTimeout (nextHandle s1) running') (tasks s2))
        s2
  end.

Definition canStartTask (t : Task) (s : Scheduler) : bool :=
  forallb (fun depId => JsSet.has depId (completedTasks s)) (dependencies t).

Definition unmetDependencies (t : Task) (s : Scheduler) : list string :=
  filter (fun depId => negb (JsSet.has depId (completedTasks s)))
    (dependencies t).

Definition assignTask (t : Task) (agent : string) (s : Scheduler)
  : Scheduler * Outcome :=
  if Nat.ltb 0 (List.length (dependencies t))
     && Nat.ltb 0 (List.length (unmetDependencies t s))
  then (s, Threw (TaskDependencyError (id t) (unmetDependencies t s)))
  else
    let scheduledTask :=
      mkScheduled (withAssignedAgent agent (withStatus assigned t))
        agent 0 None None in
    let s1 := setTasks (JsMap.set (id t) scheduledTask (tasks s)) s in
    let s2 := setAgentTasks (addTo agent (id t) (agentTasks s1)) s1 in
    let s3 :=
      fold_left
        (fun acc depId =>
           setTaskDependencies (addTo depId (id t) (taskDependencies acc))
             acc)
        (dependencies t) s2 in
    (startTask (id t) s3, Returned).

(** The loop at the end of [completeTask]. *)
Definition startDependents (dependents : list string) (s : Scheduler)
  : Scheduler :=
  fold_left
    (fun acc dependentId =>
       match JsMap.get dependentId (tasks acc) with
       | Some dependent =>
           if canStartTask (task dependent) acc
           then startTask dependentId acc
           else acc
       | None => acc
       end)
    dependents s.

Definition completeTask (taskId : string) (result : string) (s : Scheduler)
  : Scheduler * Outcome :=
  match JsMap.get taskId (tasks s) with
  | None => (s, Threw (TaskError (String.append "Task not found: " taskId)))
  | Some scheduled =>
      let done :=
        withTask
          (fun t =>
             withCompletedAt (clock s)
               (withOutput result (withStatus completed t)))
          scheduled in
      let s1 := clearTimeoutOf done s in
      let s2 :=
        release taskId done (setTasks (JsMap.delete taskId (tasks s1)) s1) in
      let s3 :=
        setAgentTasks (deleteFrom (agentId done) taskId (agentTasks s2)) s2 in
      let s4 := setCompletedTasks (JsSet.add taskId (completedTasks s3)) s3 in
      match JsMap.get taskId (taskDependencies s4) with
      | Some dependents => (startDependents dependents s4, Returned)
      | None => (s4, Returned)
      end
  end.

(** [cancelDependentTasks], over the [cancelTask] it calls. *)
Definition cancelDependentTasksWith
  (cancel : string -> string -> Scheduler -> option Scheduler)
  (taskId reason : string) (s : Scheduler) : option Scheduler :=
  match JsMap.get taskId (taskDependencies s) with
  | None => Some s
  | Some dependents =>
      forEach (fun dependentId => cancel dependentId reason) dependents s
  end.

(** What [cancelTask] does to an active task before it turns to the
    dependents. *)
Definition cancelOne (taskId reason : string) (scheduled : ScheduledTask)
  (s : Scheduler) : Scheduler :=
  let s1 := clearTimeoutOf scheduled s in
  let gone :=
    withTask (fun t => withCompletedAt (clock s) (withStatus cancelled t))
      scheduled in
  let s2 := emit (TASK_CANCELLED taskId reason) s1 in
  let s3 :=
    release taskId gone (setTasks (JsMap.delete taskId (tasks s2)) s2) in
  setAgentTasks (deleteFrom (agentId gone) taskId (agentTasks s3)) s3.

(** [cancelTask] and [cancelDependentTasks] call each other.  A call on an
    id that is not active returns at once; a call on an active id deletes
    it from [tasks] before it recurses, which is what [fuel] counts. *)
Fixpoint cancelTaskFuel (fuel : nat) (taskId reason : string)
  (s : Scheduler) : option Scheduler :=
  match JsMap.get taskId (tasks s) with
  | None => Some s
  | Some scheduled =>
      match fuel with
      | O => None
      | S fuel' =>
          cancelDependentTasksWith (cancelTaskFuel fuel') taskId
            "Parent task cancelled"
            (cancelOne taskId reason scheduled s)
      end
  end.

Definition cancelTask (taskId reason : string) (s : Scheduler)
  : option Scheduler :=
  cancelTaskFuel (JsMap.size (tasks s)) taskId reason s.

Definition cancelDependentTasks (taskId reason : string) (s : Scheduler)
  : option Scheduler :=
  cancelDependentTasksWith cancelTask taskId reason s.

Definition failTask (taskId : string) (err : Error) (s : Scheduler)
  : option (Scheduler * Outcome) :=
  match JsMap.get taskId (tasks s) with
  | None =>
      Some (s, Threw (TaskError (String.append "Task not found: " taskId)))
  | Some scheduled =>
      let s1 := clearTimeoutOf scheduled s in
      let tried :=
        withLastAttempt (clock s)
          (withAttempts (S (attempts scheduled)) scheduled) in
      if (Z.of_nat (attempts tried) <? maxRetries config)%Z
      then
        let s2 := setTasks (JsMap.set taskId tried (tasks s1)) s1 in
        let retryDelay' :=
          (retryDelay config * 2 ^ (Z.of_nat (attempts tried) - 1))%Z in
        Some (setTimeout (onRetry taskId) retryDelay' s2, Returned)
      else
        let dead :=
          withTask
            (fun t =>
               withCompletedAt (clock s)
                 (withError err (withStatus failed t)))
            tried in
        let s2 :=
          release taskId dead
            (setTasks (JsMap.delete taskId (tasks s1)) s1) in
        let s3 :=
          setAgentTasks (deleteFrom (agentId dead) taskId (agentTasks s2))
            s2 in
        match cancelDependentTasks taskId "Parent task failed" s3 with
        | Some s4 => Some (s4, Returned)
        | None => None
        end
  end.

(** *** Calls collected in [Promise.all]

    [ids.map(id => this.cancelTask(id, reason))] makes every call before any
    of them resumes.  A call of an [async] method runs until its first
    [await] and is then suspended: [cancelTask] on an active id runs through
    its deletions into [cancelDependentTasks], which calls [cancelTask] on
    the first dependent, and so on down the first dependents, and every call
    on that path is left waiting for the one it made.  A suspended call is
    resumed by a job of the promise queue, and runs to its next [await] or
    to its end, which queues the job that resumes its caller.  Each of the
    collected calls therefore has one job in the queue until it has ended,
    and the queue serves them in turn. *)

(** Where a suspended call waits. *)
Inductive Frame :=
| atCancelDependents
    (* [cancelTask] at [await this.cancelDependentTasks(...)] *)
| atCancelTask (rest : list string) (reason : string).
    (* [cancelDependentTasks] at [await this.cancelTask(dependentId, reason)],
       with the dependents its loop has not reached *)

(** [this.cancelTask(taskId, reason)] up to the first [await]: the scheduler
    it leaves and the calls it leaves suspended, innermost first (none when
    the id is not active: the call has ended). *)
Fixpoint callCancelTask (fuel : nat) (taskId reason : string)
  (s : Scheduler) : option (Scheduler * list Frame) :=
  match JsMap.get taskId (tasks s) with
  | None => Some (s, [])
  | Some scheduled =>
      match fuel with
      | O => None
      | S fuel' =>
          let s1 := cancelOne taskId reason scheduled s in
          match JsMap.get taskId (taskDependencies s1) with
          | Some (dependentId :: rest) =>
              match
                callCancelTask fuel' dependentId "Parent task cancelled" s1
              with
              | Some (s2, inner) =>
                  Some
                    (s2,
                     inner
                     ++ [atCancelTask rest "Parent task cancelled";
                         atCancelDependents])
              | None => None
              end
          | _ => Some (s1, [atCancelDependents])
          end
      end
  end.

(** One job: the innermost suspended call goes on to its next [await] or to
    its end. *)
Definition resumeCall (frames : list Frame) (s : Scheduler)
  : option (Scheduler * list Frame) :=
  match frames with
  | [] => Some (s, [])
  | atCancelDependents :: outer => Some (s, outer)
  | atCancelTask [] _ :: outer => Some (s, outer)
  | atCancelTask (dependentId :: rest) reason :: outer =>
      match
        callCancelTask (JsMap.size (tasks s)) dependentId reason s
      with
      | Some (s', inner) =>
          Some (s', inner ++ atCancelTask rest reason :: outer)
      | None => None
      end
  end.

(** The promise queue, first in first out, until it is empty. *)
Fixpoint runJobs (fuel : nat) (queue : list (list Frame)) (s : Scheduler)
  : option Scheduler :=
  match queue with
  | [] => Some s
  | frames :: queue' =>
      match fuel with
      | O => None
      | S fuel' =>
          match resumeCall frames s with
          | Some (s', []) => runJobs fuel' queue' s'
          | Some (s', frames') => runJobs fuel' (queue' ++ [frames']) s'
          | None => None
          end
      end
  end.

(** The calls of [ids.map(...)], in array order. *)
Fixpoint callAll (reason : string) (ids : list string)
  (queue : list (list Frame)) (s : Scheduler)
  : option (list (list Frame) * Scheduler) :=
  match ids with
  | [] => Some (queue, s)
  | taskId :: ids' =>
      match callCancelTask (JsMap.size (tasks s)) taskId reason s with
      | Some (s', []) => callAll reason ids' queue s'
      | Some (s', frames) => callAll reason ids' (queue ++ [frames]) s'
      | None => None
      end
  end.

(** A bound on the jobs a queue can take: a suspended loop takes a job for
    each dependent left and one to end, a suspended [cancelTask] one, and a
    task that is cancelled on the way suspends one call of each. *)
Definition frameJobs (f : Frame) : nat :=
  match f with
  | atCancelDependents => 1
  | atCancelTask rest _ => S (List.length rest)
  end.

Definition queueJobs (queue : list (list Frame)) : nat :=
  list_sum (map (fun frames => list_sum (map frameJobs frames)) queue).

Definition maxDependents (s : Scheduler) : nat :=
  list_max (map (fun p => List.length (snd p)) (taskDependencies s)).

Definition jobsBound (queue : list (list Frame)) (s : Scheduler) : nat :=
  queueJobs queue + JsMap.size (tasks s) * (2 + maxDependents s).

(** [await Promise.all(ids.map(id => this.cancelTask(id, reason)))] *)
Definition cancelAll (reason : string) (ids : list string) (s : Scheduler)
  : option Scheduler :=
  match callAll reason ids [] s with
  | Some (queue, s1) => runJobs (jobsBound queue s1) queue s1
  | None => None
  end.

Definition cancelAgentTasks (agent : string) (s : Scheduler)
  : option Scheduler :=
  match JsMap.get agent (agentTasks s) with
  | None => Some s
  | Some taskIds =>
      match cancelAll "Agent terminated" taskIds s with
      | Some s' =>
          Some (setAgentTasks (JsMap.delete agent (agentTasks s')) s')
      | None => None
      end
  end.

Definition rescheduleAgentTasks (agent : string) (s : Scheduler)
  : Scheduler :=
  match JsMap.get agent (agentTasks s) with
  | None => s
  | Some taskIds =>
      fold_left
        (fun acc taskId =>
           match JsMap.get taskId (tasks acc) with
           | Some scheduled =>
               match status (task scheduled) with
               | running =>
                   let again :=
                     withAttempts 0 (withTask (withStatus queued) scheduled)
                   in
                   emit (TASK_CREATED (task again))
                     (setTasks (JsMap.set taskId again (tasks acc)) acc)
               | _ => acc
               end
           | None => acc
           end)
        taskIds s
  end.

Definition getAgentTaskCount (agent : string) (s : Scheduler) : nat :=
  match JsMap.get agent (agentTasks s) with
  | Some taskIds => JsSet.size taskIds
  | None => 0
  end.

Definition getAgentTasks (agent : string) (s : Scheduler) : list Task :=
  match JsMap.get agent (agentTasks s) with
  | None => []
  | Some taskIds =>
      flat_map
        (fun taskId =>
           match JsMap.get taskId (tasks s) with
           | Some scheduled => [task scheduled]
           | None => []
           end)
        taskIds
  end.

(** [cleanup] walks the first [size - 1000] ids of the set in insertion
    order; the test [result.value] skips the empty string. *)
Definition evictable (taskId : string) : bool :=
  negb (String.eqb taskId "").

Definition cleanup (s : Scheduler) : Scheduler :=
  if Nat.ltb 1000 (JsSet.size (completedTasks s))
  then
    let toRemove := JsSet.size (completedTasks s) - 1000 in
    fold_left
      (fun acc taskId =>
         if evictable taskId
         then
           setTaskDependencies (JsMap.delete taskId (taskDependencies acc))
             (setCompletedTasks (JsSet.delete taskId (completedTasks acc))
                acc)
         else acc)
      (firstn toRemove (completedTasks s)) s
  else s.

Definition performMaintenance (s : Scheduler) : option Scheduler :=
  let s0 := cleanup s in
  let now := clock s0 in
  forEach
    (fun taskId acc =>
       match JsMap.get taskId (tasks acc) with
       | Some scheduled =>
           match status (task scheduled), startedAt (task scheduled) with
           | running, Some started =>
               let runtime := (now - started)%Z in
               if (resourceTimeout config * 2 <? runtime)%Z
               then
                 option_map fst
                   (failTask taskId (TaskTimeoutError taskId runtime) acc)
               else Some acc
           | _, _ => Some acc
           end
       | None => Some acc
       end)
    (JsMap.keys (tasks s0)) s0.

Definition shutdown (s : Scheduler) : option Scheduler :=
  match cancelAll "Scheduler shutdown" (JsMap.keys (tasks s)) s with
  | Some s' =>
      Some
        (setCompletedTasks []
           (setTaskDependencies [] (setAgentTasks [] (setTasks [] s'))))
  | None => None
  end.

(** *** The timer service *)

(** The closure of [startTask] catches what [failTask] throws and logs
    it. *)
Definition runCallback (cb : Callback) (s : Scheduler) : option Scheduler :=
  match cb with
  | onTimeout taskId timeoutMs =>
      option_map fst
        (failTask taskId (TaskTimeoutError taskId timeoutMs) s)
  | onRetry taskId => Some (startTask taskId s)
  | onInterval => Some (cleanup s)
  end.

Definition rearm (tm : Timer) : Timer :=
  mkTimer (handle tm) (due tm + delay tm) (delay tm) (callback tm)
    (repeats tm).

(** The timer with handle [h] fires, if it is pending and due. *)
Definition fireTimer (h : nat) (s : Scheduler) : option Scheduler :=
  match find (fun tm => Nat.eqb (handle tm) h) (timers s) with
  | None => Some s
  | Some tm =>
      if (clock s <? due tm)%Z then Some s
      else
        let s1 :=
          if repeats tm
          then
            setTimers
              (map (fun x => if Nat.eqb (handle x) h then rearm x else x)
                 (timers s))
              s
          else clearTimeout h s in
        runCallback (callback tm) s1
  end.

(** Time passes. *)
Definition advance (ms : Z) (s : Scheduler) : Scheduler :=
  setClock (clock s + Z.max 0 ms) s.

(** *** Runs *)

(** The calls that change the scheduler, and the two moves of its
    environment. *)
Inductive Op :=
| Initialize
| Shutdown
| AssignTask (t : Task) (agent : string)
| CompleteTask (taskId result : string)
| FailTask (taskId : string) (err : Error)
| CancelTask (taskId reason : string)
| CancelAgentTasks (agent : string)
| RescheduleAgentTasks (agent : string)
| PerformMaintenance
| Advance (ms : Z)
| Fire (h : nat).

Definition runOp (op : Op) (s : Scheduler) : option Scheduler :=
  match op with
  | Initialize => Some (initialize s)
  | Shutdown => shutdown s
  | AssignTask t agent => Some (fst (assignTask t agent s))
  | CompleteTask taskId result => Some (fst (completeTask taskId result s))
  | FailTask taskId err => option_map fst (failTask taskId err s)
  | CancelTask taskId reason => cancelTask taskId reason s
  | CancelAgentTasks agent => cancelAgentTasks agent s
  | RescheduleAgentTasks agent => Some (rescheduleAgentTasks agent s)
  | PerformMaintenance => performMaintenance s
  | Advance ms => Some (advance ms s)
  | Fire h => fireTimer h s
  end.

Definition run (ops : list Op) (s : Scheduler) : option Scheduler :=
  forEach runOp ops s.

(** A state the scheduler can be in: some run from the initial state ends
    in it. *)
Definition reachable (s : Scheduler) : Prop :=
  exists ops, run ops init = Some s.

(** *** Queries *)

Record Metrics := mkMetrics {
  m_activeTasks : nat;
  m_completedTasks : nat;
  m_agentsWithTasks : nat;
  m_pending : nat;
  m_queued : nat;
  m_assigned : nat;
  m_running : nat;
  m_completed : nat;
  m_failed : nat;
  m_cancelled : nat
}.

(** [tasksByStatus[st]++] *)
Definition bump (st : TaskStatus) (m : Metrics) : Metrics :=
  match st with
  | pending =>
      mkMetrics (m_activeTasks m) (m_completedTasks m) (m_agentsWithTasks m)
        (S (m_pending m)) (m_queued m) (m_assigned m) (m_running m)
        (m_completed m) (m_failed m) (m_cancelled m)
  | queued =>
      mkMetrics (m_activeTasks m) (m_completedTasks m) (m_agentsWithTasks m)
        (m_pending m) (S (m_queued m)) (m_assigned m) (m_running m)
        (m_completed m) (m_failed m) (m_cancelled m)
  | assigned =>
      mkMetrics (m_activeTasks m) (m_completedTasks m) (m_agentsWithTasks m)
        (m_pending m) (m_queued m) (S (m_assigned m)) (m_running m)
        (m_completed m) (m_failed m) (m_cancelled m)
  | running =>
      mkMetrics (m_activeTasks m) (m_completedTasks m) (m_agentsWithTasks m)
        (m_pending m) (m_queued m) (m_assigned m) (S (m_running m))
        (m_completed m) (m_failed m) (m_cancelled m)
  | completed =>
      mkMetrics (m_activeTasks m) (m_completedTasks m) (m_agentsWithTasks m)
        (m_pending m) (m_queued m) (m_assigned m) (m_running m)
        (S (m_completed m)) (m_failed m) (m_cancelled m)
  | failed =>
      mkMetrics (m_activeTasks m) (m_completedTasks m) (m_agentsWithTasks m)
        (m_pending m) (m_queued m) (m_assigned m) (m_running m)
        (m_completed m) (S (m_failed m)) (m_cancelled m)
  | cancelled =>
      mkMetrics (m_activeTasks m) (m_completedTasks m) (m_agentsWithTasks m)
        (m_pending m) (m_queued m) (m_assigned m) (m_running m)
        (m_completed m) (m_failed m) (S (m_cancelled m))
  end.

Record HealthStatus := mkHealth {
  healthy : bool;
  health_error : option string;
  metrics : option Metrics
}.

Definition getHealthStatus (s : Scheduler) : HealthStatus :=
  let activeTasks := JsMap.size (tasks s) in
  let completedTasks' := JsSet.size (completedTasks s) in
  let agentsWithTasks := JsMap.size (agentTasks s) in
  let tasksByStatus :=
    fold_left (fun m scheduled => bump (status (task scheduled)) m)
      (map snd (tasks s))
      (mkMetrics activeTasks completedTasks' agentsWithTasks
         0 0 0 0 completedTasks' 0 0) in
  mkHealth true None (Some tasksByStatus).

End TaskScheduler.

(** ** Containers: what [get], [set], [delete], [has] and [add] satisfy *)

Module JsSetFacts.

Lemma has_In x s : JsSet.has x s = true <-> In x s.
Proof.
  unfold JsSet.has. rewrite existsb_exists. split.
  - intros [y [Hy Heq]]. apply String.eqb_eq in Heq. now subst.
  - intros H. exists x. split; [assumption | apply String.eqb_refl].
Qed.

Lemma has_not_In x s : JsSet.has x s = false <-> ~ In x s.
Proof.
  rewrite <- has_In. destruct (JsSet.has x s); split; congruence.
Qed.

Lemma mem_add y x s : In y (JsSet.add x s) <-> y = x \/ In y s.
Proof.
  unfold JsSet.add. destruct (JsSet.has x s) eqn:E.
  - apply has_In in E. split; [now right | intros [-> | H]; assumption].
  - rewrite in_app_iff. simpl. intuition congruence.
Qed.

Lemma mem_delete y x s : In y (JsSet.delete x s) <-> In y s /\ y <> x.
Proof.
  unfold JsSet.delete. rewrite filter_In, negb_true_iff, String.eqb_neq.
  intuition congruence.
Qed.

Lemma NoDup_add x s : NoDup s -> NoDup (JsSet.add x s).
Proof.
  intros H. unfold JsSet.add. destruct (JsSet.has x s) eqn:E; [assumption|].
  apply has_not_In in E. apply NoDup_app; [assumption | repeat constructor; simpl; tauto |].
  intros y Hy [<- | []]. contradiction.
Qed.

End JsSetFacts.

Module JsMapFacts.

Section Facts.

Context {V : Type}.
Implicit Types (m : JsMap.t V) (k : string) (v : V).

Lemma get_In k v m : JsMap.get k m = Some v -> In (k, v) m.
Proof.
  induction m as [| [k' v'] m IH]; simpl; [discriminate|].
  destruct (String.eqb_spec k k') as [-> | Hne].
  - intros [= ->]. now left.
  - intros H. right. now apply IH.
Qed.

Lemma In_get k v m : In (k, v) m -> JsMap.get k m <> None.
Proof.
  induction m as [| [k' v'] m IH]; simpl; [tauto|].
  destruct (String.eqb_spec k k') as [-> | Hne]; [discriminate|].
  intros [[= -> ->] | H]; [congruence | now apply IH].
Qed.

Lemma get_set_same k v m : JsMap.get k (JsMap.set k v m) = Some v.
Proof.
  induction m as [| [k' v'] m IH]; simpl.
  - now rewrite String.eqb_refl.
  - destruct (String.eqb_spec k k') as [-> | Hne]; simpl.
    + now rewrite String.eqb_refl.
    + apply String.eqb_neq in Hne. now rewrite Hne.
Qed.

Lemma get_set_other k k' v m :
  k' <> k -> JsMap.get k' (JsMap.set k v m) = JsMap.get k' m.
Proof.
  intros Hne. induction m as [| [k0 v0] m IH]; simpl.
  - apply String.eqb_neq in Hne. now rewrite Hne.
  - destruct (String.eqb_spec k k0) as [-> | Hk]; simpl.
    + apply String.eqb_neq in Hne. now rewrite Hne.
    + now rewrite IH.
Qed.

Lemma get_set k k' v m :
  JsMap.get k' (JsMap.set k v m)
  = if String.eqb k' k then Some v else JsMap.get k' m.
Proof.
  destruct (String.eqb_spec k' k) as [-> | Hne].
  - apply get_set_same.
  - now apply get_set_other.
Qed.

Lemma get_delete k k' m :
  JsMap.get k' (JsMap.delete k m)
  = if String.eqb k' k then None else JsMap.get k' m.
Proof.
  unfold JsMap.delete.
  induction m as [| [k0 v0] m IH]; simpl.
  - now destruct (String.eqb k' k).
  - destruct (String.eqb_spec k k0) as [-> | Hk]; simpl.
    + rewrite IH. destruct (String.eqb_spec k' k0); reflexivity.
    + rewrite IH. destruct (String.eqb_spec k' k0) as [-> | H0].
      * apply not_eq_sym, String.eqb_neq in Hk. now rewrite Hk.
      * reflexivity.
Qed.

Lemma get_delete_same k m : JsMap.get k (JsMap.delete k m) = None.
Proof. now rewrite get_delete, String.eqb_refl. Qed.

Lemma In_set a b k v m :
  In (a, b) (JsMap.set k v m) -> (a, b) = (k, v) \/ In (a, b) m.
Proof.
  induction m as [| [k' v'] m IH]; simpl.
  - intros [H | []]. left. now symmetry.
  - destruct (String.eqb k k'); simpl.
    + intros [H | H]; [left; now symmetry | right; now right].
    + intros [H | H]; [right; now left |].
      destruct (IH H); [now left | right; now right].
Qed.

Lemma In_delete a b k m :
  In (a, b) (JsMap.delete k m) <-> In (a, b) m /\ a <> k.
Proof.
  unfold JsMap.delete. rewrite filter_In. simpl.
  rewrite negb_true_iff, String.eqb_neq. intuition congruence.
Qed.

Lemma set_set k v v' m :
  JsMap.set k v (JsMap.set k v' m) = JsMap.set k v m.
Proof.
  induction m as [| [k0 v0] m IH]; simpl.
  - now rewrite String.eqb_refl.
  - destruct (String.eqb k k0) eqn:E; simpl.
    + now rewrite String.eqb_refl.
    + now rewrite E, IH.
Qed.

Lemma size_set_present k v v0 m :
  JsMap.get k m = Some v0 -> JsMap.size (JsMap.set k v m) = JsMap.size m.
Proof.
  unfold JsMap.size. induction m as [| [k' v'] m IH]; simpl; [discriminate|].
  destruct (String.eqb k k'); simpl; [reflexivity|].
  intros H. now rewrite IH.
Qed.

Lemma size_delete_le k m : JsMap.size (JsMap.delete k m) <= JsMap.size m.
Proof. apply filter_length_le. Qed.

Lemma size_delete_lt k v m :
  JsMap.get k m = Some v -> JsMap.size (JsMap.delete k m) < JsMap.size m.
Proof.
  unfold JsMap.size, JsMap.delete.
  induction m as [| [k' v'] m IH]; simpl; [discriminate|].
  destruct (String.eqb k k'); simpl.
  - intros _. pose proof (filter_length_le
      (fun p : string * V => negb (String.eqb k (fst p))) m). lia.
  - intros H. specialize (IH H). lia.
Qed.

End Facts.

End JsMapFacts.

Import JsSetFacts JsMapFacts.

(** Membership in a map of sets: [x] is listed under [k]. *)
Definition listed (k x : string) (m : JsMap.t JsSet.t) : Prop :=
  exists st, JsMap.get k m = Some st /\ In x st.

Lemma listed_addTo_same k x m : listed k x (addTo k x m).
Proof.
  unfold listed, addTo. destruct (JsMap.get k m) as [st |];
    rewrite get_set_same; eexists; (split; [reflexivity|]);
    apply mem_add; now left.
Qed.

Lemma listed_addTo_keep k' k x y m : listed k y m -> listed k y (addTo k' x m).
Proof.
  intros [st [Hget Hin]]. unfold listed, addTo.
  destruct (String.eqb_spec k k') as [-> | Hne].
  - rewrite Hget, get_set_same. eexists. split; [reflexivity|].
    apply mem_add. now right.
  - destruct (JsMap.get k' m); rewrite get_set_other by assumption;
      eauto.
Qed.

Lemma listed_deleteFrom k' k x y m :
  listed k y (deleteFrom k' x m) -> listed k y m /\ (k = k' -> y <> x).
Proof.
  unfold listed, deleteFrom. intros [st [Hget Hin]].
  destruct (JsMap.get k' m) as [st' |] eqn:E.
  - rewrite get_set in Hget. destruct (String.eqb_spec k k') as [-> | Hne].
    + injection Hget as <-. apply mem_delete in Hin. destruct Hin.
      split; [eauto | auto].
    + split; [eauto | congruence].
  - split; [eauto |]. intros ->. congruence.
Qed.

(** ** Assignment *)

Section Assignment.

Variable config : CoordinationConfig.

(** The record [startTask] leaves in the map. *)
Definition started (s : Scheduler) (x : ScheduledTask) : ScheduledTask :=
  withTimeout (nextHandle s)
    (withTask (fun t => withStartedAt (clock s) (withStatus running t)) x).

(** The timer [startTask] arms. *)
Definition executionTimer (s : Scheduler) (taskId : string) : Timer :=
  mkTimer (nextHandle s) (clock s + timerDelay (resourceTimeout config))
    (timerDelay (resourceTimeout config))
    (onTimeout taskId (resourceTimeout config)) false.

Lemma startTask_inactive taskId s :
  JsMap.get taskId (tasks s) = None -> startTask config taskId s = s.
Proof. intros H. unfold startTask. now rewrite H. Qed.

Lemma startTask_active taskId x s :
  JsMap.get taskId (tasks s) = Some x ->
  startTask config taskId s
  = mkScheduler (JsMap.set taskId (started s x) (tasks s)) (agentTasks s)
      (taskDependencies s) (completedTasks s) (clock s)
      (timers s ++ [executionTimer s taskId]) (S (nextHandle s))
      (emitted s ++ [TASK_STARTED taskId (agentId x)]) (released s).
Proof. intros H. unfold startTask. rewrite H. reflexivity. Qed.

Lemma unmet_spec t s depId :
  In depId (unmetDependencies t s)
  <-> In depId (dependencies t)
      /\ JsSet.has depId (completedTasks s) = false.
Proof.
  unfold unmetDependencies. rewrite filter_In, negb_true_iff. tauto.
Qed.

Lemma unmet_nil t s :
  (forall depId, In depId (dependencies t) ->
                 JsSet.has depId (completedTasks s) = true) ->
  unmetDependencies t s = [].
Proof.
  intros H. destruct (unmetDependencies t s) as [| d l] eqn:E; [reflexivity|].
  assert (Hd : In d (unmetDependencies t s)) by (rewrite E; now left).
  apply unmet_spec in Hd. destruct Hd as [Hd Hc].
  rewrite (H d Hd) in Hc. discriminate.
Qed.

(** The loop of [assignTask] over the dependencies touches the reverse
    index only. *)
Definition registerAll (taskId : string) (deps : list string)
  (m : JsMap.t JsSet.t) : JsMap.t JsSet.t :=
  fold_left (fun acc depId => addTo depId taskId acc) deps m.

Lemma register_loop taskId deps s :
  fold_left
    (fun acc depId =>
       setTaskDependencies (addTo depId taskId (taskDependencies acc)) acc)
    deps s
  = setTaskDependencies (registerAll taskId deps (taskDependencies s)) s.
Proof.
  revert s. induction deps as [| d deps IH]; intros s; simpl.
  - now destruct s.
  - rewrite IH. reflexivity.
Qed.

Lemma registerAll_keep taskId deps m k y :
  listed k y m -> listed k y (registerAll taskId deps m).
Proof.
  revert m. induction deps as [| d deps IH]; intros m H; simpl;
    [assumption|].
  apply IH. now apply listed_addTo_keep.
Qed.

Lemma registerAll_listed taskId deps m depId :
  In depId deps -> listed depId taskId (registerAll taskId deps m).
Proof.
  revert m. induction deps as [| d deps IH]; intros m; simpl; [tauto|].
  intros [-> | H].
  - apply registerAll_keep, listed_addTo_same.
  - now apply IH.
Qed.

Lemma assignTask_refuses t agent s depId :
  In depId (dependencies t) ->
  JsSet.has depId (completedTasks s) = false ->
  assignTask config t agent s
  = (s, Threw (TaskDependencyError (id t) (unmetDependencies t s)))
  /\ In depId (unmetDependencies t s).
Proof.
  intros Hd Hc.
  assert (Hin : In depId (unmetDependencies t s)) by now apply unmet_spec.
  split; [| exact Hin].
  unfold assignTask.
  destruct (dependencies t) as [| d0 l] eqn:Edeps; [contradiction |].
  destruct (unmetDependencies t s) as [| u us]; [contradiction |].
  reflexivity.
Qed.

(** C1.  A task with a dependency that is not in the completed-id set is
    refused: [assignTask] throws [TaskDependencyError] with the task id and
    the unmet dependency ids, which are exactly the ids of
    [task.dependencies] that are not completed, in the order of that list;
    the scheduler the call leaves is the scheduler it found, so neither
    [tasks], [agentTasks] nor [taskDependencies] has the task. *)
Theorem assignTask_unmet_dependency (t : Task) (agent : string)
  (s : Scheduler) :
  (exists depId, In depId (dependencies t)
                 /\ JsSet.has depId (completedTasks s) = false) ->
  exists unmet,
    assignTask config t agent s
    = (s, Threw (TaskDependencyError (id t) unmet))
    /\ unmet <> []
    /\ (forall depId,
           In depId unmet
           <-> In depId (dependencies t)
               /\ JsSet.has depId (completedTasks s) = false)
    /\ unmet
       = filter (fun depId => negb (JsSet.has depId (completedTasks s)))
           (dependencies t).
Proof.
  intros [d [Hd Hc]]. exists (unmetDependencies t s).
  destruct (assignTask_refuses t agent s d Hd Hc) as [Hthrown Hin].
  split; [| split; [| split]].
  - exact Hthrown.
  - intros E. now rewrite E in Hin.
  - intros depId. apply unmet_spec.
  - reflexivity.
Qed.

(** C2.  A task whose dependencies are all in the completed-id set is
    recorded and started in the same call: [tasks] then holds, under the
    task id, a record with [attempts = 0], the agent, status [running],
    [startedAt] set to the time of the call and the handle of the timer just
    armed; the id is in the agent's set and in the dependents set of each
    dependency; exactly one event was emitted, TASK_STARTED with the task id
    and the agent id; and exactly one timer was armed, the execution timeout
    of [resourceTimeout] milliseconds.  The task is never left [assigned] or
    [queued]. *)
Theorem assignTask_starts (t : Task) (agent : string) (s : Scheduler) :
  (forall depId, In depId (dependencies t) ->
                 JsSet.has depId (completedTasks s) = true) ->
  exists s',
    assignTask config t agent s = (s', Returned)
    /\ JsMap.get (id t) (tasks s')
       = Some
           (mkScheduled
              (mkTask (id t) (dependencies t) running (Some agent)
                 (output t) (error t) (Some (clock s)) (completedAt t))
              agent 0 None (Some (nextHandle s)))
    /\ listed agent (id t) (agentTasks s')
    /\ (forall depId, In depId (dependencies t) ->
                      listed depId (id t) (taskDependencies s'))
    /\ emitted s' = emitted s ++ [TASK_STARTED (id t) agent]
    /\ timers s' = timers s ++ [executionTimer s (id t)]
    /\ completedTasks s' = completedTasks s.
Proof.
  intros Hmet. unfold assignTask.
  rewrite (unmet_nil t s Hmet). simpl List.length.
  rewrite andb_false_r, register_loop.
  set (x := mkScheduled (withAssignedAgent agent (withStatus assigned t))
              agent 0 None None).
  set (s3 := setTaskDependencies _ _).
  assert (Hx : JsMap.get (id t) (tasks s3) = Some x)
    by (subst s3; simpl; apply get_set_same).
  rewrite (startTask_active _ _ _ Hx).
  eexists. split; [reflexivity|]. simpl.
  split; [| split; [| split; [| split; [| split]]]]; try reflexivity.
  - now rewrite set_set, get_set_same.
  - apply listed_addTo_same.
  - intros d Hd. now apply registerAll_listed.
Qed.

(** C3.  On an id that [tasks] does not hold, [completeTask] and [failTask]
    throw the not-found error, [TaskError] with the message
    "Task not found: <id>", and leave the scheduler as it was: the same
    indices, timers, events and task records. *)
Theorem not_found_leaves_state (taskId result : string) (err : Error)
  (s : Scheduler) :
  JsMap.get taskId (tasks s) = None ->
  completeTask config taskId result s
  = (s, Threw (TaskError (String.append "Task not found: " taskId)))
  /\ failTask config taskId err s
     = Some
         (s, Threw (TaskError (String.append "Task not found: " taskId))).
Proof.
  intros H. unfold completeTask, failTask. now rewrite H.
Qed.

End Assignment.

(** ** Cancellation and its cascade *)

Definition PARENT_CANCELLED : string := "Parent task cancelled".
Definition PARENT_FAILED : string := "Parent task failed".

(** The record [cancelTask] leaves behind. *)
Definition gone (s : Scheduler) (x : ScheduledTask) : ScheduledTask :=
  withTask (fun t => withCompletedAt (clock s) (withStatus cancelled t)) x.

Definition active (k : string) (s : Scheduler) : Prop :=
  JsMap.get k (tasks s) <> None.

Definition inactive (k : string) (s : Scheduler) : Prop :=
  JsMap.get k (tasks s) = None.

(** [underParent s s' k r]: the reason is the one [cancelTask] passes down,
    and [k] is a registered dependent of a task that went from active in [s]
    to inactive in [s']. *)
Definition underParent (s s' : Scheduler) (k r : string) : Prop :=
  r = PARENT_CANCELLED
  /\ exists b, active b s /\ inactive b s'
               /\ listed b k (taskDependencies s).

(** What any number of cancellations does to the scheduler, from [s] to [s'];
    [R k r] holds of the reasons [r] that the cancellations called from
    outside the cascade give a task [k]. *)
Record Cascade (R : string -> string -> Prop) (s s' : Scheduler) : Prop := {
  c_deps : taskDependencies s' = taskDependencies s;
  c_completed : completedTasks s' = completedTasks s;
  c_clock : clock s' = clock s;
  c_next : nextHandle s' = nextHandle s;
  c_get : forall k v,
      JsMap.get k (tasks s') = Some v -> JsMap.get k (tasks s) = Some v;
  c_in : forall k v, In (k, v) (tasks s') -> In (k, v) (tasks s);
  c_size : JsMap.size (tasks s') <= JsMap.size (tasks s);
  c_agents : forall a x,
      listed a x (agentTasks s') -> listed a x (agentTasks s);
  c_timers : forall tm, In tm (timers s') -> In tm (timers s);
  c_disarmed : forall k v h,
      JsMap.get k (tasks s) = Some v -> inactive k s' ->
      timeout v = Some h ->
      forall tm, In tm (timers s') -> handle tm <> h;
  c_events : exists ev,
      emitted s' = emitted s ++ ev
      /\ (forall e, In e ev ->
            exists k r, e = TASK_CANCELLED k r
                        /\ active k s /\ inactive k s'
                        /\ (R k r \/ underParent s s' k r))
      /\ (forall k, active k s -> inactive k s' ->
            exists r, In (TASK_CANCELLED k r) ev);
  c_released : exists rel,
      released s' = released s ++ rel
      /\ (forall k v, JsMap.get k (tasks s) = Some v -> inactive k s' ->
            In (k, gone s v) rel)
}.

(** Every task the cascade took out has no active dependent left. *)
Definition Closed (s s' : Scheduler) : Prop :=
  forall k st d,
    active k s -> inactive k s' ->
    JsMap.get k (taskDependencies s) = Some st -> In d st ->
    inactive d s'.

Lemma inactive_dec k s : {inactive k s} + {active k s}.
Proof.
  unfold inactive, active. destruct (JsMap.get k (tasks s));
    [right; discriminate | now left].
Qed.

Lemma Cascade_refl R s : Cascade R s s.
Proof.
  constructor; auto.
  - intros k v h Hk Hi. unfold inactive in Hi. congruence.
  - exists []. rewrite app_nil_r. repeat split.
    + intros e [].
    + intros k Ha Hi. contradiction.
  - exists []. rewrite app_nil_r. split; [reflexivity|].
    intros k v Hk Hi. unfold inactive in Hi. congruence.
Qed.

Lemma Cascade_weaken (R R' : string -> string -> Prop) s s' :
  (forall k r, R k r -> R' k r) -> Cascade R s s' -> Cascade R' s s'.
Proof.
  intros HR [? ? ? ? ? ? ? ? ? ? [ev [He [H1 H2]]] ?].
  constructor; auto.
  exists ev. repeat split; auto.
  intros e He'. destruct (H1 e He') as [k [r [? [? [? HR']]]]].
  exists k, r.
  split; [assumption | split; [assumption | split; [assumption |]]].
  destruct HR'; [left; auto | right; assumption].
Qed.

Lemma Cascade_stays_inactive R s s' k :
  Cascade R s s' -> inactive k s -> inactive k s'.
Proof.
  intros C Hi. unfold inactive in *.
  destruct (JsMap.get k (tasks s')) as [v |] eqn:E; [|reflexivity].
  apply (c_get _ _ _ C) in E. congruence.
Qed.

Lemma Cascade_was_active R s s' k :
  Cascade R s s' -> active k s' -> active k s.
Proof.
  intros C Ha Hi. apply Ha. eapply Cascade_stays_inactive; eauto.
Qed.

Lemma Cascade_compose R1 R2 R s s1 s' :
  Cascade R1 s s1 -> Cascade R2 s1 s' ->
  (forall k r, R1 k r -> R k r) ->
  (forall k r, R2 k r -> R k r \/ underParent s s1 k r) ->
  Cascade R s s'.
Proof.
  intros C1 C2 HR1 HR2.
  pose proof (fun k => Cascade_stays_inactive _ _ _ k C2) as Hstay.
  pose proof (fun k => Cascade_was_active _ _ _ k C1) as Hwas.
  destruct C1 as [d1 p1 k1 n1 g1 i1 z1 a1 t1 x1 [ev1 [E1 [F1 G1]]]
                    [rel1 [L1 M1]]].
  destruct C2 as [d2 p2 k2 n2 g2 i2 z2 a2 t2 x2 [ev2 [E2 [F2 G2]]]
                    [rel2 [L2 M2]]].
  assert (Hup1 : forall k r, underParent s s1 k r -> underParent s s' k r).
  { intros k r [Hr [b [Hb1 [Hb2 Hb3]]]]. split; [exact Hr|].
    exists b. repeat split; auto. }
  assert (Hup2 : forall k r, underParent s1 s' k r -> underParent s s' k r).
  { intros k r [Hr [b [Hb1 [Hb2 Hb3]]]]. split; [exact Hr|].
    exists b. split; [now apply Hwas | split; [exact Hb2 |]].
    now rewrite <- d1. }
  constructor; try congruence; auto.
  - lia.
  - intros k v h Hk Hi Hh tm Htm.
    destruct (inactive_dec k s1) as [Hi1 | Ha1].
    + apply (x1 k v h Hk Hi1 Hh). auto.
    + unfold active in Ha1.
      destruct (JsMap.get k (tasks s1)) as [v1 |] eqn:E; [|contradiction].
      pose proof (g1 _ _ E) as Hv. rewrite Hk in Hv. injection Hv as ->.
      now apply (x2 k v1 h E Hi Hh).
  - exists (ev1 ++ ev2). rewrite E2, E1, app_assoc.
    split; [reflexivity | split].
    + intros e He. apply in_app_iff in He. destruct He as [He | He].
      * destruct (F1 e He) as [k [r [? [? [? HR]]]]]. exists k, r.
        split; [assumption | split; [assumption | split; [auto |]]].
        destruct HR; auto.
      * destruct (F2 e He) as [k [r [? [? [? HR]]]]]. exists k, r.
        split; [assumption | split; [auto | split; [assumption |]]].
        destruct HR as [HR | HR]; auto.
        destruct (HR2 _ _ HR); auto.
    + intros k Ha Hi. destruct (inactive_dec k s1) as [Hi1 | Ha1].
      * destruct (G1 k Ha Hi1) as [r Hr]. exists r.
        apply in_app_iff. now left.
      * destruct (G2 k Ha1 Hi) as [r Hr]. exists r.
        apply in_app_iff. now right.
  - exists (rel1 ++ rel2). rewrite L2, L1, app_assoc.
    split; [reflexivity|].
    intros k v Hk Hi. apply in_app_iff.
    destruct (inactive_dec k s1) as [Hi1 | Ha1].
    + left. now apply M1.
    + right. unfold active in Ha1.
      destruct (JsMap.get k (tasks s1)) as [v1 |] eqn:E; [|contradiction].
      pose proof (g1 _ _ E) as Hv. rewrite Hk in Hv. injection Hv as ->.
      replace (gone s v1) with (gone s1 v1)
        by (unfold gone; now rewrite k1).
      now apply M2.
Qed.

Lemma Cascade_trans R s s1 s' :
  Cascade R s s1 -> Cascade R s1 s' -> Cascade R s s'.
Proof.
  intros C1 C2. eapply Cascade_compose; eauto.
Qed.

Lemma Closed_trans R s s1 s' :
  Cascade R s s1 -> Cascade R s1 s' ->
  Closed s s1 -> Closed s1 s' -> Closed s s'.
Proof.
  intros C1 C2 H1 H2 k st d Ha Hi Hst Hd.
  destruct (inactive_dec k s1) as [Hi1 | Ha1].
  - eapply Cascade_stays_inactive; [exact C2|]. eapply H1; eauto.
  - eapply H2; eauto. now rewrite (c_deps _ _ _ C1).
Qed.

Section Cancellation.

(** The reasons a call [cancelTask taskId reason] hands out. *)
Definition reasonsOf (taskId reason : string) (k r : string) : Prop :=
  k = taskId /\ r = reason.

(** The reasons [cancelDependentTasks _ reason] hands out over the
    dependents [ds]. *)
Definition reasonsUnder (ds : list string) (reason : string)
  (k r : string) : Prop :=
  In k ds /\ r = reason.

Lemma cancelOne_fields taskId reason x s :
  tasks (cancelOne taskId reason x s) = JsMap.delete taskId (tasks s)
  /\ agentTasks (cancelOne taskId reason x s)
     = deleteFrom (agentId x) taskId (agentTasks s)
  /\ taskDependencies (cancelOne taskId reason x s) = taskDependencies s
  /\ completedTasks (cancelOne taskId reason x s) = completedTasks s
  /\ clock (cancelOne taskId reason x s) = clock s
  /\ nextHandle (cancelOne taskId reason x s) = nextHandle s
  /\ emitted (cancelOne taskId reason x s)
     = emitted s ++ [TASK_CANCELLED taskId reason]
  /\ released (cancelOne taskId reason x s)
     = released s ++ [(taskId, gone s x)]
  /\ timers (cancelOne taskId reason x s)
     = match timeout x with
       | Some h => dropTimer h (timers s)
       | None => timers s
       end.
Proof.
  unfold cancelOne, clearTimeoutOf.
  destruct (timeout x); simpl; repeat split; reflexivity.
Qed.

Lemma In_dropTimer tm h l :
  In tm (dropTimer h l) <-> In tm l /\ handle tm <> h.
Proof.
  unfold dropTimer. rewrite filter_In, negb_true_iff, Nat.eqb_neq. tauto.
Qed.

Lemma inactive_cancelOne taskId reason x s k :
  inactive k (cancelOne taskId reason x s)
  <-> k = taskId \/ inactive k s.
Proof.
  unfold inactive.
  destruct (cancelOne_fields taskId reason x s) as [-> _].
  rewrite get_delete. destruct (String.eqb_spec k taskId); intuition.
Qed.

Lemma Cascade_cancelOne taskId reason x s :
  JsMap.get taskId (tasks s) = Some x ->
  Cascade (reasonsOf taskId reason) s (cancelOne taskId reason x s).
Proof.
  intros Hx.
  assert (Hnew : forall k, active k s ->
                   inactive k (cancelOne taskId reason x s) -> k = taskId).
  { intros k Ha Hi. apply inactive_cancelOne in Hi.
    destruct Hi; [assumption | contradiction]. }
  destruct (cancelOne_fields taskId reason x s)
    as (Ht & Hag & Hd & Hc & Hk & Hn & He & Hr & Htm).
  constructor; auto.
  - intros k v. rewrite Ht, get_delete.
    destruct (String.eqb k taskId); [discriminate | auto].
  - intros k v. rewrite Ht. intros H. now apply In_delete in H.
  - rewrite Ht. apply size_delete_le.
  - intros a y. rewrite Hag. intros H.
    now apply listed_deleteFrom in H.
  - intros tm. rewrite Htm. destruct (timeout x); [|auto].
    intros H. now apply In_dropTimer in H.
  - intros k v h Hk' Hi Hh tm. rewrite Htm.
    assert (k = taskId) by (apply Hnew; [unfold active; congruence | auto]).
    subst k. rewrite Hx in Hk'. injection Hk' as ->. rewrite Hh.
    intros H. now apply In_dropTimer in H.
  - exists [TASK_CANCELLED taskId reason]. split; [assumption | split].
    + intros e [<- | []]. exists taskId, reason.
      split; [reflexivity | split; [| split]].
      * unfold active. congruence.
      * apply inactive_cancelOne. now left.
      * left. now split.
    + intros k Ha Hi. rewrite (Hnew k Ha Hi). exists reason. now left.
  - exists [(taskId, gone s x)]. split; [assumption|].
    intros k v Hk' Hi.
    assert (k = taskId) by (apply Hnew; [unfold active; congruence | auto]).
    subst k. rewrite Hx in Hk'. injection Hk' as ->. now left.
Qed.

(** What the proofs ask of the [cancelTask] a loop calls, for schedulers
    of at most [bound] active tasks. *)
Definition cancels (bound : nat)
  (cancel : string -> string -> Scheduler -> option Scheduler) : Prop :=
  forall taskId reason s,
    JsMap.size (tasks s) <= bound ->
    exists s',
      cancel taskId reason s = Some s'
      /\ Cascade (reasonsOf taskId reason) s s'
      /\ inactive taskId s'
      /\ Closed s s'.

Lemma cancel_loop bound cancel reason :
  cancels bound cancel ->
  forall ds s,
    JsMap.size (tasks s) <= bound ->
    exists s',
      forEach (fun d => cancel d reason) ds s = Some s'
      /\ Cascade (reasonsUnder ds reason) s s'
      /\ (forall d, In d ds -> inactive d s')
      /\ Closed s s'.
Proof.
  intros Hc. induction ds as [| d ds IH]; intros s Hs; simpl.
  - exists s. split; [reflexivity | split; [| split]].
    + apply Cascade_refl.
    + intros d [].
    + intros k st d Ha Hi. contradiction.
  - destruct (Hc d reason s Hs) as (s1 & E1 & C1 & I1 & K1).
    rewrite E1.
    assert (Hs1 : JsMap.size (tasks s1) <= bound)
      by (pose proof (c_size _ _ _ C1); lia).
    destruct (IH s1 Hs1) as (s' & E' & C' & I' & K').
    exists s'.
    assert (C1w : Cascade (reasonsUnder (d :: ds) reason) s s1).
    { eapply Cascade_weaken; [|exact C1].
      intros k r [-> ->]. split; [now left | reflexivity]. }
    assert (C'w : Cascade (reasonsUnder (d :: ds) reason) s1 s').
    { eapply Cascade_weaken; [|exact C'].
      intros k r [H ->]. split; [now right | reflexivity]. }
    split; [| split; [| split]].
    + assumption.
    + eapply Cascade_trans; eassumption.
    + intros d' [<- | Hd'].
      * eapply Cascade_stays_inactive; eassumption.
      * now apply I'.
    + eapply Closed_trans; eassumption.
Qed.

Lemma cancelDependents_spec bound cancel taskId reason s :
  cancels bound cancel ->
  JsMap.size (tasks s) <= bound ->
  exists s',
    cancelDependentTasksWith cancel taskId reason s = Some s'
    /\ Cascade
         (fun k r => listed taskId k (taskDependencies s) /\ r = reason)
         s s'
    /\ (forall d, listed taskId d (taskDependencies s) -> inactive d s')
    /\ Closed s s'.
Proof.
  intros Hc Hs. unfold cancelDependentTasksWith.
  destruct (JsMap.get taskId (taskDependencies s)) as [ds |] eqn:E.
  - destruct (cancel_loop bound cancel reason Hc ds s Hs)
      as (s' & E' & C' & I' & K').
    exists s'. split; [assumption | split; [| split]].
    + eapply Cascade_weaken; [|exact C'].
      intros k r [Hin ->]. split; [|reflexivity].
      exists ds. now split.
    + intros d [ds' [Hds' Hin]]. rewrite E in Hds'. injection Hds' as <-.
      now apply I'.
    + assumption.
  - exists s. split; [reflexivity | split; [| split]].
    + apply Cascade_refl.
    + intros d [ds' [Hds' _]]. congruence.
    + intros k st d Ha Hi. contradiction.
Qed.

Lemma active_size k s : active k s -> 0 < JsMap.size (tasks s).
Proof.
  unfold active, JsMap.size. destruct (tasks s); simpl; [tauto | lia].
Qed.

Lemma cancelTaskFuel_spec fuel : cancels fuel (cancelTaskFuel fuel).
Proof.
  induction fuel as [| fuel IH]; intros taskId reason s Hs.
  - simpl. destruct (JsMap.get taskId (tasks s)) as [x |] eqn:E.
    + assert (Ha : active taskId s) by (unfold active; congruence).
      apply active_size in Ha. lia.
    + exists s. split; [reflexivity | split; [| split]].
      * apply Cascade_refl.
      * assumption.
      * intros k st d Ha Hi. contradiction.
  - simpl. destruct (JsMap.get taskId (tasks s)) as [x |] eqn:E.
    + set (s1 := cancelOne taskId reason x s).
      pose proof (Cascade_cancelOne taskId reason x s E) as C1.
      fold s1 in C1.
      assert (Hs1 : JsMap.size (tasks s1) <= fuel).
      { subst s1. destruct (cancelOne_fields taskId reason x s) as [-> _].
        pose proof (size_delete_lt _ _ _ E). lia. }
      assert (I1 : inactive taskId s1)
        by (apply inactive_cancelOne; now left).
      destruct (cancelDependents_spec fuel (cancelTaskFuel fuel)
                  taskId PARENT_CANCELLED s1 IH Hs1)
        as (s' & E' & C' & Hds & K').
      exists s'. split; [exact E' | split; [| split]].
      * eapply Cascade_compose; [exact C1 | exact C' | auto |].
        intros k r [Hin ->]. right. split; [reflexivity|].
        exists taskId. split; [unfold active; congruence | split].
        -- exact I1.
        -- now rewrite <- (c_deps _ _ _ C1).
      * eapply Cascade_stays_inactive; eassumption.
      * intros k st d Ha Hi Hst Hd.
        destruct (String.eqb_spec k taskId) as [-> | Hne].
        -- apply Hds. exists st. split; [|exact Hd].
           now rewrite (c_deps _ _ _ C1).
        -- assert (Ha1 : active k s1).
           { intros Hi1. apply inactive_cancelOne in Hi1.
             destruct Hi1; [contradiction | contradiction]. }
           eapply K'; eauto. now rewrite (c_deps _ _ _ C1).
    + exists s. split; [reflexivity | split; [| split]].
      * apply Cascade_refl.
      * assumption.
      * intros k st d Ha Hi. contradiction.
Qed.

Lemma cancelTask_spec bound : cancels bound cancelTask.
Proof.
  intros taskId reason s _. unfold cancelTask.
  apply cancelTaskFuel_spec. apply Nat.le_refl.
Qed.

(** *** The fuel is immaterial *)

Lemma forEach_ext {A} (f g : A -> Scheduler -> option Scheduler)
  (P : Scheduler -> Prop) :
  (forall x s, P s -> f x s = g x s) ->
  (forall x s s', P s -> f x s = Some s' -> P s') ->
  forall l s, P s -> forEach f l s = forEach g l s.
Proof.
  intros Heq Hpres. induction l as [| x l IH]; intros s Hs; simpl;
    [reflexivity|].
  rewrite <- (Heq x s Hs). destruct (f x s) as [s' |] eqn:E;
    [|reflexivity].
  apply IH. eapply Hpres; eassumption.
Qed.

Lemma cancelTaskFuel_shrinks fuel taskId reason s s' :
  JsMap.size (tasks s) <= fuel ->
  cancelTaskFuel fuel taskId reason s = Some s' ->
  JsMap.size (tasks s') <= JsMap.size (tasks s).
Proof.
  intros Hs E.
  destruct (cancelTaskFuel_spec fuel taskId reason s Hs)
    as (s2 & E2 & C2 & _).
  rewrite E in E2. injection E2 as <-. apply (c_size _ _ _ C2).
Qed.

Lemma cancelTaskFuel_enough fuel :
  forall fuel' taskId reason s,
    JsMap.size (tasks s) <= fuel -> JsMap.size (tasks s) <= fuel' ->
    cancelTaskFuel fuel taskId reason s
    = cancelTaskFuel fuel' taskId reason s.
Proof.
  induction fuel as [| fuel IH]; intros fuel' taskId reason s Hs Hs';
    destruct fuel' as [| fuel']; simpl;
    destruct (JsMap.get taskId (tasks s)) as [x |] eqn:E;
    try reflexivity;
    try (assert (Ha : active taskId s) by (unfold active; congruence);
         apply active_size in Ha; lia).
  assert (H1 : JsMap.size (tasks (cancelOne taskId reason x s))
               < JsMap.size (tasks s)).
  { destruct (cancelOne_fields taskId reason x s) as [-> _].
    eapply size_delete_lt; eassumption. }
  unfold cancelDependentTasksWith.
  destruct (JsMap.get taskId
              (taskDependencies (cancelOne taskId reason x s)));
    [|reflexivity].
  apply (forEach_ext _ _
           (fun st => JsMap.size (tasks st) <= fuel
                      /\ JsMap.size (tasks st) <= fuel')).
  - intros d st [Ha Hb]. now apply IH.
  - intros d st st' [Ha Hb] Hrun.
    pose proof (cancelTaskFuel_shrinks _ _ _ _ _ Ha Hrun). lia.
  - lia.
Qed.

(** [cancelTask] satisfies the equation its source text reads as: on an
    active task it does [cancelOne] and then calls itself on each
    dependent in turn, through [cancelDependentTasks]. *)
Lemma cancelTask_active taskId reason x s :
  JsMap.get taskId (tasks s) = Some x ->
  cancelTask taskId reason s
  = cancelDependentTasks taskId PARENT_CANCELLED
      (cancelOne taskId reason x s).
Proof.
  intros E. unfold cancelTask.
  assert (Ha : active taskId s) by (unfold active; congruence).
  apply active_size in Ha.
  destruct (JsMap.size (tasks s)) as [| n] eqn:En; [lia|].
  simpl. rewrite E.
  assert (H1 : JsMap.size (tasks (cancelOne taskId reason x s)) <= n).
  { destruct (cancelOne_fields taskId reason x s) as [-> _].
    pose proof (size_delete_lt _ _ _ E). lia. }
  unfold cancelDependentTasks, cancelDependentTasksWith.
  destruct (JsMap.get taskId
              (taskDependencies (cancelOne taskId reason x s)));
    [|reflexivity].
  apply (forEach_ext _ _ (fun st => JsMap.size (tasks st) <= n)).
  - intros d st Hst. unfold cancelTask.
    apply cancelTaskFuel_enough; [assumption | apply Nat.le_refl].
  - intros d st st' Hst Hrun.
    pose proof (cancelTaskFuel_shrinks _ _ _ _ _ Hst Hrun). lia.
  - assumption.
Qed.

Lemma cancelTask_inactive taskId reason s :
  inactive taskId s -> cancelTask taskId reason s = Some s.
Proof.
  unfold inactive, cancelTask. intros H.
  destruct (JsMap.size (tasks s)); simpl; now rewrite H.
Qed.

(** *** Whom a cascade reaches *)

(** [cascadesTo s a c]: in [s], [c] is [a] or is reached from [a] along
    the reverse-dependency index through active tasks. *)
Inductive cascadesTo (s : Scheduler) (a : string) : string -> Prop :=
| cascades_root : active a s -> cascadesTo s a a
| cascades_dependent b c st :
    cascadesTo s a b ->
    JsMap.get b (taskDependencies s) = Some st -> In c st ->
    active c s ->
    cascadesTo s a c.

Lemma cascadesTo_active s a c : cascadesTo s a c -> active c s.
Proof. induction 1; assumption. Qed.

Lemma cascade_reaches R s s1 s' a :
  (forall k, k <> a -> active k s -> active k s1) ->
  taskDependencies s1 = taskDependencies s ->
  Cascade R s1 s' -> Closed s1 s' -> inactive a s1 ->
  (forall ds d, JsMap.get a (taskDependencies s) = Some ds -> In d ds ->
                inactive d s') ->
  forall c, cascadesTo s a c -> inactive c s'.
Proof.
  intros Hkeep Hdeps C K Ia Hds c Hc.
  induction Hc as [Ha | b c st Hb IH Hst Hin Hc].
  - eapply Cascade_stays_inactive; eassumption.
  - destruct (String.eqb_spec b a) as [-> | Hne].
    + eapply Hds; eassumption.
    + eapply K; [apply Hkeep; [exact Hne | eapply cascadesTo_active; eassumption]
                | exact IH | rewrite Hdeps; exact Hst | exact Hin].
Qed.

End Cancellation.

Lemma gone_fields s x :
  status (task (gone s x)) = cancelled
  /\ completedAt (task (gone s x)) = Some (clock s)
  /\ id (task (gone s x)) = id (task x)
  /\ agentId (gone s x) = agentId x.
Proof. repeat split. Qed.

Lemma not_listed_deleteFrom k x m : ~ listed k x (deleteFrom k x m).
Proof.
  intros H. apply listed_deleteFrom in H. destruct H as [_ H]. now apply H.
Qed.

(** *** Cancellations, one after another *)

(** From [s] to [s'], active tasks were cancelled, one at a time. *)
Inductive CancelSteps : Scheduler -> Scheduler -> Prop :=
| steps_none s : CancelSteps s s
| steps_cancel s taskId reason x s' :
    JsMap.get taskId (tasks s) = Some x ->
    CancelSteps (cancelOne taskId reason x s) s' ->
    CancelSteps s s'.

Lemma CancelSteps_trans s s1 s' :
  CancelSteps s s1 -> CancelSteps s1 s' -> CancelSteps s s'.
Proof.
  induction 1 as [| s k r x s1 Hx _ IH]; [auto |].
  intros H. eapply steps_cancel; [exact Hx | now apply IH].
Qed.

Lemma CancelSteps_forEach {A} (f : A -> Scheduler -> option Scheduler) :
  (forall x s s', f x s = Some s' -> CancelSteps s s') ->
  forall l s s', forEach f l s = Some s' -> CancelSteps s s'.
Proof.
  intros Hf. induction l as [| x l IH]; intros s s'; simpl.
  - intros [= <-]. apply steps_none.
  - destruct (f x s) as [s1 |] eqn:E; [| discriminate].
    intros H. eapply CancelSteps_trans; [eapply Hf; eassumption | now apply IH].
Qed.

Lemma CancelSteps_cancelTaskFuel fuel :
  forall taskId reason s s',
    cancelTaskFuel fuel taskId reason s = Some s' -> CancelSteps s s'.
Proof.
  induction fuel as [| fuel IH]; intros taskId reason s s'; simpl;
    destruct (JsMap.get taskId (tasks s)) as [x |] eqn:E;
    try discriminate; try (intros [= <-]; apply steps_none).
  intros H. eapply steps_cancel; [exact E |].
  revert H. unfold cancelDependentTasksWith.
  destruct (JsMap.get taskId
              (taskDependencies (cancelOne taskId reason x s)));
    [| intros [= <-]; apply steps_none].
  apply (CancelSteps_forEach
           (fun d => cancelTaskFuel fuel d "Parent task cancelled")).
  intros d st st'. apply IH.
Qed.

Lemma CancelSteps_cancelTask taskId reason s s' :
  cancelTask taskId reason s = Some s' -> CancelSteps s s'.
Proof. apply CancelSteps_cancelTaskFuel. Qed.

Lemma CancelSteps_cancelDependentTasks taskId reason s s' :
  cancelDependentTasks taskId reason s = Some s' -> CancelSteps s s'.
Proof.
  unfold cancelDependentTasks, cancelDependentTasksWith.
  destruct (JsMap.get taskId (taskDependencies s));
    [| intros [= <-]; apply steps_none].
  apply (CancelSteps_forEach (fun d => cancelTask d reason)).
  intros d st st'. apply CancelSteps_cancelTask.
Qed.

Lemma CancelSteps_Cascade s s' :
  CancelSteps s s' -> Cascade (fun _ _ => True) s s'.
Proof.
  induction 1 as [s | s k r x s' Hx _ IH]; [apply Cascade_refl |].
  eapply Cascade_trans; [| exact IH].
  eapply Cascade_weaken; [| apply Cascade_cancelOne; exact Hx]. auto.
Qed.

(** What cancellations leave alone: a pending timer goes only if a cancelled
    task held its handle, a listing in the agent index goes only if it is
    the listing of a cancelled task under the agent of its record, and that
    listing does go. *)
Record Spared (s s' : Scheduler) : Prop := {
  sp_timers : forall tm,
      In tm (timers s) ->
      In tm (timers s')
      \/ exists k v, JsMap.get k (tasks s) = Some v /\ inactive k s'
                     /\ timeout v = Some (handle tm);
  sp_agents : forall a k,
      listed a k (agentTasks s) ->
      listed a k (agentTasks s')
      \/ exists v, JsMap.get k (tasks s) = Some v /\ inactive k s'
                   /\ agentId v = a;
  sp_unlisted : forall k v,
      JsMap.get k (tasks s) = Some v -> inactive k s' ->
      ~ listed (agentId v) k (agentTasks s')
}.

Lemma Spared_refl s : Spared s s.
Proof.
  constructor; auto.
  intros k v Hv Hi. unfold inactive in Hi. congruence.
Qed.

Lemma listed_deleteFrom_iff a' x a k m :
  listed a k (deleteFrom a' x m) <-> listed a k m /\ ~ (a = a' /\ k = x).
Proof.
  split.
  - intros H. apply listed_deleteFrom in H. destruct H as [H1 H2].
    split; [exact H1 |]. intros [-> ->]. now apply H2.
  - intros [[st [Hst Hin]] Hne]. unfold listed, deleteFrom.
    destruct (JsMap.get a' m) as [st' |] eqn:E; [| eauto].
    rewrite get_set. destruct (String.eqb_spec a a') as [-> | Hna].
    + rewrite E in Hst. injection Hst as ->. eexists.
      split; [reflexivity |]. apply mem_delete. split; [exact Hin |].
      intros ->. now apply Hne.
    + eauto.
Qed.

Lemma Spared_cancelOne taskId reason x s :
  JsMap.get taskId (tasks s) = Some x ->
  Spared s (cancelOne taskId reason x s).
Proof.
  intros Hx.
  destruct (cancelOne_fields taskId reason x s)
    as (Ht & Hag & Hd & Hc & Hk & Hn & He & Hr & Htm).
  assert (Hi : inactive taskId (cancelOne taskId reason x s))
    by (apply inactive_cancelOne; now left).
  constructor.
  - intros tm Hin. rewrite Htm. destruct (timeout x) as [h |] eqn:Eh;
      [| now left].
    destruct (Nat.eq_dec (handle tm) h) as [<- | Hne].
    + right. exists taskId, x. auto.
    + left. apply In_dropTimer. auto.
  - intros a k Hl. rewrite Hag.
    destruct (String.eqb_spec a (agentId x)) as [-> | Hna].
    + destruct (String.eqb_spec k taskId) as [-> | Hnk].
      * right. exists x. auto.
      * left. apply listed_deleteFrom_iff. split; [exact Hl |].
        intros [_ ?]. contradiction.
    + left. apply listed_deleteFrom_iff. split; [exact Hl |].
      intros [? _]. contradiction.
  - intros k v Hv Hik. apply inactive_cancelOne in Hik.
    destruct Hik as [-> | Hik]; [| unfold inactive in Hik; congruence].
    rewrite Hx in Hv. injection Hv as <-. rewrite Hag.
    apply not_listed_deleteFrom.
Qed.

Lemma Spared_trans R s s1 s' :
  Cascade R s s1 -> Cascade R s1 s' ->
  Spared s s1 -> Spared s1 s' -> Spared s s'.
Proof.
  intros C1 C2 [T1 A1 U1] [T2 A2 U2].
  assert (Hback : forall k v,
             JsMap.get k (tasks s) = Some v -> active k s1 ->
             JsMap.get k (tasks s1) = Some v).
  { intros k v Hv Ha. unfold active in Ha.
    destruct (JsMap.get k (tasks s1)) as [v1 |] eqn:E; [| contradiction].
    pose proof (c_get _ _ _ C1 _ _ E). congruence. }
  constructor.
  - intros tm Hin. destruct (T1 tm Hin) as [H1 | (k & v & Hv & Hi & Hh)].
    + destruct (T2 tm H1) as [H2 | (k & v & Hv & Hi & Hh)]; [now left |].
      right. exists k, v. split; [| auto].
      now apply (c_get _ _ _ C1).
    + right. exists k, v. split; [exact Hv |]. split; [| exact Hh].
      eapply Cascade_stays_inactive; eassumption.
  - intros a k Hl. destruct (A1 a k Hl) as [H1 | (v & Hv & Hi & Ha)].
    + destruct (A2 a k H1) as [H2 | (v & Hv & Hi & Ha)]; [now left |].
      right. exists v. split; [| auto]. now apply (c_get _ _ _ C1).
    + right. exists v. split; [exact Hv |]. split; [| exact Ha].
      eapply Cascade_stays_inactive; eassumption.
  - intros k v Hv Hi Hl. destruct (inactive_dec k s1) as [Hi1 | Ha1].
    + apply (U1 k v Hv Hi1). now apply (c_agents _ _ _ C2).
    + apply (U2 k v (Hback k v Hv Ha1) Hi Hl).
Qed.

Lemma CancelSteps_Spared s s' : CancelSteps s s' -> Spared s s'.
Proof.
  induction 1 as [s | s k r x s' Hx Hs IH]; [apply Spared_refl |].
  eapply (Spared_trans (fun _ _ => True)); [| | | exact IH].
  - eapply Cascade_weaken; [| apply Cascade_cancelOne; exact Hx]. auto.
  - now apply CancelSteps_Cascade.
  - now apply Spared_cancelOne.
Qed.

(** *** The calls collected in [Promise.all] *)

Section Collected.

(** A suspended loop of [cancelDependentTasks] hands down
    "Parent task cancelled", over dependents of a task that was active in
    [s0] and is cancelled in [s]. *)
Definition FrameOk (s0 s : Scheduler) (f : Frame) : Prop :=
  match f with
  | atCancelDependents => True
  | atCancelTask rest r =>
      r = PARENT_CANCELLED
      /\ exists b, active b s0 /\ inactive b s
                   /\ forall d, In d rest -> listed b d (taskDependencies s0)
  end.

Definition framesJobs (frames : list Frame) : nat :=
  list_sum (map frameJobs frames).

Lemma queueJobs_app q1 q2 : queueJobs (q1 ++ q2) = queueJobs q1 + queueJobs q2.
Proof. unfold queueJobs. now rewrite map_app, list_sum_app. Qed.

Lemma queueJobs_cons frames q :
  queueJobs (frames :: q) = framesJobs frames + queueJobs q.
Proof. reflexivity. Qed.

Lemma framesJobs_app f1 f2 :
  framesJobs (f1 ++ f2) = framesJobs f1 + framesJobs f2.
Proof. unfold framesJobs. now rewrite map_app, list_sum_app. Qed.

Lemma framesJobs_pos frames : frames <> [] -> 0 < framesJobs frames.
Proof.
  destruct frames as [| [| rest r] l]; [tauto | |]; intros _;
    unfold framesJobs; simpl; lia.
Qed.

Lemma maxDependents_ge k ds s :
  JsMap.get k (taskDependencies s) = Some ds ->
  List.length ds <= maxDependents s.
Proof.
  intros H. apply get_In in H. unfold maxDependents.
  assert (Hall : Forall (fun n => n <= list_max
                                       (map (fun p => List.length (snd p))
                                          (taskDependencies s)))
                   (map (fun p : string * JsSet.t => List.length (snd p))
                      (taskDependencies s)))
    by (apply list_max_le; apply Nat.le_refl).
  rewrite Forall_forall in Hall. apply Hall.
  apply in_map_iff. exists (k, ds). auto.
Qed.

Lemma FrameOk_later R s0 s s' f :
  Cascade R s s' -> FrameOk s0 s f -> FrameOk s0 s' f.
Proof.
  intros C. destruct f as [| rest r]; [auto |].
  intros [Hr (b & Hb0 & Hb & Hl)]. split; [exact Hr |].
  exists b. split; [exact Hb0 |]. split; [| exact Hl].
  eapply Cascade_stays_inactive; eassumption.
Qed.

Lemma FrameOk_earlier R s0 s s' f :
  Cascade R s0 s -> FrameOk s s' f -> FrameOk s0 s' f.
Proof.
  intros C. destruct f as [| rest r]; [auto |].
  intros [Hr (b & Hb0 & Hb & Hl)]. split; [exact Hr |].
  exists b. split; [eapply Cascade_was_active; eassumption |].
  split; [exact Hb |].
  intros d Hd. rewrite <- (c_deps _ _ _ C). now apply Hl.
Qed.

Lemma jobs_le a b K w : a < b -> w <= K -> w + a * K <= b * K.
Proof.
  intros Hab Hw. pose proof (Nat.mul_le_mono_r (S a) b K Hab) as H.
  simpl in H. lia.
Qed.

(** A call of [cancelTask] up to its first [await]. *)
Lemma callCancelTask_spec fuel :
  forall taskId reason s,
    JsMap.size (tasks s) <= fuel ->
    exists s' frames,
      callCancelTask fuel taskId reason s = Some (s', frames)
      /\ Cascade (reasonsOf taskId reason) s s'
      /\ CancelSteps s s'
      /\ inactive taskId s'
      /\ Forall (FrameOk s s') frames
      /\ framesJobs frames
         + JsMap.size (tasks s') * (2 + maxDependents s)
         <= JsMap.size (tasks s) * (2 + maxDependents s).
Proof.
  induction fuel as [| fuel IH]; intros taskId reason s Hs;
    cbn [callCancelTask];
    destruct (JsMap.get taskId (tasks s)) as [x |] eqn:E;
    try (exists s, []; unfold framesJobs; simpl;
         repeat (split; [first [reflexivity | apply Cascade_refl
                               | apply steps_none | assumption
                               | constructor] |]); lia).
  - assert (Ha : active taskId s) by (unfold active; congruence).
    apply active_size in Ha. lia.
  - set (s1 := cancelOne taskId reason x s).
    pose proof (Cascade_cancelOne taskId reason x s E) as C1. fold s1 in C1.
    assert (St1 : CancelSteps s s1)
      by (eapply steps_cancel; [exact E | apply steps_none]).
    assert (I1 : inactive taskId s1) by (apply inactive_cancelOne; now left).
    assert (Hs1 : JsMap.size (tasks s1) < JsMap.size (tasks s)).
    { subst s1. destruct (cancelOne_fields taskId reason x s) as [-> _].
      eapply size_delete_lt; eassumption. }
    assert (Hd1 : taskDependencies s1 = taskDependencies s)
      by apply (c_deps _ _ _ C1).
    assert (Hleaf :
      exists s' frames,
        Some (s1, [atCancelDependents]) = Some (s', frames)
        /\ Cascade (reasonsOf taskId reason) s s'
        /\ CancelSteps s s'
        /\ inactive taskId s'
        /\ Forall (FrameOk s s') frames
        /\ framesJobs frames
           + JsMap.size (tasks s') * (2 + maxDependents s)
           <= JsMap.size (tasks s) * (2 + maxDependents s)).
    { exists s1, [atCancelDependents].
      repeat (split; [first [reflexivity | assumption] |]).
      split; [repeat constructor |].
      apply jobs_le; [exact Hs1 |]. unfold framesJobs. simpl. lia. }
    destruct (JsMap.get taskId (taskDependencies s1)) as [[| d rest] |] eqn:Ed;
      [exact Hleaf | | exact Hleaf].
    destruct (IH d "Parent task cancelled" s1 ltac:(lia))
      as (s2 & inner & E2 & C2 & St2 & I2 & F2 & B2).
    rewrite E2. eexists. eexists. split; [reflexivity |].
    assert (Hl : forall d', In d' (d :: rest) ->
                   listed taskId d' (taskDependencies s)).
    { intros d' Hd'. exists (d :: rest). rewrite <- Hd1. auto. }
    split.
    { eapply Cascade_compose; [exact C1 | exact C2 | auto |].
      intros k r [-> ->]. right. split; [reflexivity |].
      exists taskId. split; [unfold active; congruence |].
      split; [exact I1 |]. apply Hl. now left. }
    split; [eapply CancelSteps_trans; eassumption |].
    split; [eapply Cascade_stays_inactive; eassumption |].
    split.
    { apply Forall_app. split.
      - eapply Forall_impl; [| exact F2].
        intros f. eapply FrameOk_earlier. exact C1.
      - constructor; [| repeat constructor].
        split; [reflexivity |]. exists taskId.
        split; [unfold active; congruence |].
        split; [eapply Cascade_stays_inactive; eassumption |].
        intros d' Hd'. apply Hl. now right. }
    rewrite framesJobs_app.
    assert (Hlen : S (List.length rest) <= maxDependents s).
    { rewrite Hd1 in Ed. apply maxDependents_ge in Ed. exact Ed. }
    assert (Hm : maxDependents s1 = maxDependents s)
      by (unfold maxDependents; now rewrite Hd1).
    rewrite Hm in B2.
    change (framesJobs [atCancelTask rest "Parent task cancelled";
                        atCancelDependents])
      with (S (List.length rest) + (1 + 0)).
    pose proof (jobs_le _ _ (2 + maxDependents s)
                  (S (List.length rest) + (1 + 0)) Hs1 ltac:(lia)).
    lia.
Qed.

(** The scheduler and the queue between two jobs: the cancellations made
    since [s0], and a queue of suspended calls, none of them ended. *)
Record Waiting (R : string -> string -> Prop) (s0 s : Scheduler)
  (queue : list (list Frame)) : Prop := {
  wt_cascade : Cascade R s0 s;
  wt_steps : CancelSteps s0 s;
  wt_frames : Forall (Forall (FrameOk s0 s)) queue;
  wt_busy : Forall (fun frames => frames <> []) queue
}.

Lemma Waiting_call R s0 s queue d r :
  Waiting R s0 s queue ->
  (R d r \/ underParent s0 s d r) ->
  exists s' inner,
    callCancelTask (JsMap.size (tasks s)) d r s = Some (s', inner)
    /\ Cascade R s0 s'
    /\ CancelSteps s0 s'
    /\ inactive d s'
    /\ Forall (FrameOk s0 s') inner
    /\ Forall (Forall (FrameOk s0 s')) queue
    /\ (forall f, FrameOk s0 s f -> FrameOk s0 s' f)
    /\ (forall k, inactive k s -> inactive k s')
    /\ framesJobs inner
       + JsMap.size (tasks s') * (2 + maxDependents s')
       <= JsMap.size (tasks s) * (2 + maxDependents s).
Proof.
  intros [C0 St0 F0 B0] HR.
  destruct (callCancelTask_spec (JsMap.size (tasks s)) d r s (Nat.le_refl _))
    as (s' & inner & E & C & St & I & F & B).
  exists s', inner. split; [exact E |].
  split.
  { eapply Cascade_compose; [exact C0 | exact C | auto |].
    intros k r' [-> ->]. exact HR. }
  split; [eapply CancelSteps_trans; eassumption |].
  split; [exact I |].
  split.
  { eapply Forall_impl; [| exact F]. intros f.
    eapply FrameOk_earlier. exact C0. }
  split.
  { eapply Forall_impl; [| exact F0]. intros frames.
    apply Forall_impl. intros f. eapply FrameOk_later. exact C. }
  split; [intros f; eapply FrameOk_later; exact C |].
  split; [intros k; eapply Cascade_stays_inactive; exact C |].
  unfold maxDependents at 1. rewrite (c_deps _ _ _ C).
  exact B.
Qed.

(** The queue empties, whatever it holds. *)
Lemma runJobs_spec R s0 fuel :
  forall queue s,
    Waiting R s0 s queue ->
    jobsBound queue s <= fuel ->
    exists s',
      runJobs fuel queue s = Some s'
      /\ Cascade R s0 s' /\ CancelSteps s0 s'
      /\ (forall k, inactive k s -> inactive k s').
Proof.
  induction fuel as [| fuel IH]; intros queue s W Hb.
  - destruct queue as [| frames queue'].
    + exists s. destruct W. auto.
    + exfalso. destruct W as [_ _ _ B]. inversion B as [| ? ? Hne _]; subst.
      apply framesJobs_pos in Hne. unfold jobsBound in Hb.
      rewrite queueJobs_cons in Hb. lia.
  - destruct queue as [| frames queue']; [exists s; destruct W; auto |].
    pose proof W as [C0 St0 F0 B0].
    inversion F0 as [| ? ? Ff Fq]; subst.
    inversion B0 as [| ? ? Hne Bq]; subst.
    unfold jobsBound in Hb. rewrite queueJobs_cons in Hb.
    assert (Hpop : forall f outer,
               frames = f :: outer -> frameJobs f = 1 ->
               exists s',
                 match outer with
                 | [] => runJobs fuel queue' s
                 | _ :: _ => runJobs fuel (queue' ++ [outer]) s
                 end = Some s'
                 /\ Cascade R s0 s' /\ CancelSteps s0 s'
                 /\ (forall k, inactive k s -> inactive k s')).
    { intros f outer -> Hf. unfold framesJobs in Hb. simpl in Hb.
      rewrite Hf in Hb. fold (framesJobs outer) in Hb.
      inversion Ff as [| ? ? _ Fo]; subst.
      destruct outer as [| g outer].
      - apply IH; [now constructor |]. unfold jobsBound. lia.
      - apply IH.
        + constructor; auto.
          * apply Forall_app. split; [exact Fq | now constructor].
          * apply Forall_app. split; [exact Bq |].
            constructor; [discriminate | constructor].
        + unfold jobsBound. rewrite queueJobs_app, queueJobs_cons.
          unfold queueJobs at 2. simpl. lia. }
    simpl. destruct frames as [| [| [| d rest] r] outer]; [tauto | | |].
    + simpl. destruct (Hpop _ _ eq_refl eq_refl) as (s' & E & H).
      exists s'. split; [| exact H]. now destruct outer.
    + simpl. destruct (Hpop _ _ eq_refl eq_refl) as (s' & E & H).
      exists s'. split; [| exact H]. now destruct outer.
    + inversion Ff as [| ? ? Hf Fo]; subst.
      destruct Hf as [Hr (b & Hb0 & Hbi & Hl)]. subst r.
      destruct (Waiting_call R s0 s queue' d PARENT_CANCELLED)
        as (s' & inner & E & C' & St' & I' & Fi & Fq' & Hlater & Hstay & B').
      { now constructor. }
      { right. split; [reflexivity |]. exists b.
        split; [exact Hb0 |]. split; [exact Hbi |]. apply Hl. now left. }
      unfold resumeCall. rewrite E.
      assert (Hnew : exists g frames',
                 inner ++ atCancelTask rest PARENT_CANCELLED :: outer
                 = g :: frames')
        by (destruct inner; simpl; eauto).
      destruct Hnew as (g & frames' & Hnew). rewrite Hnew.
      destruct (IH (queue' ++ [g :: frames']) s')
        as (s2 & E2 & C2 & St2 & Hstay2);
        [| | exists s2; repeat (split; [assumption |]); auto].
      * constructor; auto.
        -- apply Forall_app. split; [exact Fq' |].
           constructor; [| constructor]. rewrite <- Hnew.
           apply Forall_app. split; [exact Fi |].
           constructor.
           ++ apply Hlater. split; [reflexivity |]. exists b.
              split; [exact Hb0 |]. split; [exact Hbi |].
              intros d' Hd'. apply Hl. now right.
           ++ eapply Forall_impl; [| exact Fo]. exact Hlater.
        -- apply Forall_app. split; [exact Bq |].
           constructor; [discriminate | constructor].
      * unfold jobsBound. rewrite queueJobs_app, queueJobs_cons.
        unfold queueJobs at 2. simpl. rewrite <- Hnew, framesJobs_app.
        unfold framesJobs in Hb. simpl in Hb.
        fold (framesJobs outer) in Hb.
        unfold framesJobs at 2. simpl. fold (framesJobs outer).
        lia.
Qed.

(** The calls of [ids.map(...)]. *)
Lemma callAll_spec R s0 reason :
  forall ids queue s,
    Waiting R s0 s queue ->
    (forall d, In d ids -> R d reason) ->
    exists queue' s',
      callAll reason ids queue s = Some (queue', s')
      /\ Waiting R s0 s' queue'
      /\ (forall d, In d ids -> inactive d s')
      /\ (forall k, inactive k s -> inactive k s').
Proof.
  induction ids as [| d ids IH]; intros queue s W HR; simpl.
  - exists queue, s. split; [reflexivity |]. split; [exact W |].
    split; [intros d [] | auto].
  - pose proof W as [C0 St0 F0 B0].
    destruct (Waiting_call R s0 s queue d reason W)
      as (s1 & inner & E & C1 & St1 & I1 & Fi & Fq & _ & Hstay & _).
    { left. apply HR. now left. }
    rewrite E.
    assert (Hnext : forall queue1,
               Waiting R s0 s1 queue1 ->
               exists queue' s',
                 callAll reason ids queue1 s1 = Some (queue', s')
                 /\ Waiting R s0 s' queue'
                 /\ (forall d', In d' (d :: ids) -> inactive d' s')
                 /\ (forall k, inactive k s -> inactive k s')).
    { intros queue1 W1.
      destruct (IH queue1 s1 W1) as (queue' & s' & E' & W' & I' & Hstay').
      { intros d' Hd'. apply HR. now right. }
      exists queue', s'. split; [exact E' |]. split; [exact W' |].
      split; [| auto].
      intros d' [<- | Hd']; [now apply Hstay' | now apply I']. }
    destruct inner as [| f inner]; apply Hnext.
    + now constructor.
    + constructor; auto.
      * apply Forall_app. split; [exact Fq | now constructor].
      * apply Forall_app. split; [exact B0 |].
        constructor; [discriminate | constructor].
Qed.

(** [Promise.all] over the cancellations of [ids] returns, and has then
    cancelled every id of [ids] that was active, with the caller's reason or,
    where a cascade came first, with "Parent task cancelled". *)
Lemma cancelAll_spec reason ids s :
  exists s',
    cancelAll reason ids s = Some s'
    /\ Cascade (reasonsUnder ids reason) s s'
    /\ CancelSteps s s'
    /\ (forall d, In d ids -> inactive d s').
Proof.
  assert (W : Waiting (reasonsUnder ids reason) s s []).
  { constructor; [apply Cascade_refl | apply steps_none | constructor
                  | constructor]. }
  destruct (callAll_spec (reasonsUnder ids reason) s reason ids [] s W)
    as (queue & s1 & E1 & W1 & I1 & _).
  { intros d Hd. now split. }
  destruct (runJobs_spec (reasonsUnder ids reason) s (jobsBound queue s1)
              queue s1 W1 (Nat.le_refl _)) as (s' & E' & C' & St' & Hstay).
  exists s'. unfold cancelAll. rewrite E1.
  split; [exact E' |]. split; [exact C' |]. split; [exact St' |].
  intros d Hd. apply Hstay. now apply I1.
Qed.

End Collected.

(** *** One collected call *)

(** What the suspended calls of [frames] still do when nothing else runs in
    between: each suspended loop goes through the dependents it has left,
    one [cancelTask] after the other. *)
Fixpoint unwind (frames : list Frame) (s : Scheduler) : option Scheduler :=
  match frames with
  | [] => Some s
  | atCancelDependents :: outer => unwind outer s
  | atCancelTask rest reason :: outer =>
      match forEach (fun d => cancelTask d reason) rest s with
      | Some s' => unwind outer s'
      | None => None
      end
  end.

Lemma unwind_app f1 f2 s :
  unwind (f1 ++ f2) s
  = match unwind f1 s with
    | Some s' => unwind f2 s'
    | None => None
    end.
Proof.
  revert s. induction f1 as [| [| rest r] f1 IH]; intros s; simpl;
    [reflexivity | apply IH |].
  destruct (forEach _ rest s); [apply IH | reflexivity].
Qed.

Lemma callCancelTask_unwind fuel :
  forall taskId reason s s1 frames,
    JsMap.size (tasks s) <= fuel ->
    callCancelTask fuel taskId reason s = Some (s1, frames) ->
    unwind frames s1 = cancelTask taskId reason s.
Proof.
  induction fuel as [| fuel IH]; intros taskId reason s s1 frames Hs;
    cbn [callCancelTask];
    destruct (JsMap.get taskId (tasks s)) as [x |] eqn:E;
    try discriminate;
    try (intros [= <- <-]; symmetry; now apply cancelTask_inactive).
  rewrite (cancelTask_active _ _ _ _ E).
  unfold cancelDependentTasks, cancelDependentTasksWith, PARENT_CANCELLED.
  assert (Hs1 : JsMap.size (tasks (cancelOne taskId reason x s)) <= fuel).
  { destruct (cancelOne_fields taskId reason x s) as [-> _].
    pose proof (size_delete_lt _ _ _ E). lia. }
  destruct (JsMap.get taskId
              (taskDependencies (cancelOne taskId reason x s)))
    as [[| d rest] |]; try (intros [= <- <-]; reflexivity).
  destruct (callCancelTask fuel d "Parent task cancelled"
              (cancelOne taskId reason x s)) as [[s2 inner] |] eqn:E2;
    [| discriminate].
  intros [= <- <-]. rewrite unwind_app, (IH _ _ _ _ _ Hs1 E2). simpl.
  destruct (cancelTask d "Parent task cancelled"
              (cancelOne taskId reason x s)) as [s3 |]; [| reflexivity].
  now destruct (forEach _ rest s3).
Qed.

Lemma resumeCall_unwind frames s s' frames' :
  resumeCall frames s = Some (s', frames') ->
  unwind frames' s' = unwind frames s.
Proof.
  destruct frames as [| [| [| d rest] r] outer]; simpl;
    try (intros [= <- <-]; reflexivity).
  destruct (callCancelTask (JsMap.size (tasks s)) d r s)
    as [[s1 inner] |] eqn:E; [| discriminate].
  intros [= <- <-].
  rewrite unwind_app,
    (callCancelTask_unwind _ _ _ _ _ _ (Nat.le_refl _) E).
  simpl. now destruct (cancelTask d r s).
Qed.

Lemma runJobs_single fuel :
  forall frames s s',
    runJobs fuel [frames] s = Some s' -> unwind frames s = Some s'.
Proof.
  induction fuel as [| fuel IH]; intros frames s s'; simpl;
    [discriminate |].
  destruct (resumeCall frames s) as [[s1 frames1] |] eqn:E; [| discriminate].
  rewrite <- (resumeCall_unwind _ _ _ _ E).
  destruct frames1 as [| f frames1].
  - destruct fuel; simpl; now intros [= <-].
  - apply IH.
Qed.

(** [Promise.all] over one call of [cancelTask] is that call. *)
Lemma cancelAll_single taskId reason s :
  cancelAll reason [taskId] s = cancelTask taskId reason s.
Proof.
  destruct (cancelAll_spec reason [taskId] s) as (s' & E & _).
  rewrite E. revert E. unfold cancelAll. simpl.
  destruct (callCancelTask (JsMap.size (tasks s)) taskId reason s)
    as [[s1 frames] |] eqn:E1; [| discriminate].
  pose proof (callCancelTask_unwind _ _ _ _ _ _ (Nat.le_refl _) E1) as Hu.
  destruct frames as [| f frames].
  - simpl in Hu. rewrite <- Hu.
    destruct (jobsBound [] s1); simpl; now intros [= <-].
  - intros E. apply runJobs_single in E. now rewrite <- Hu, E.
Qed.

(** *** What the collected calls cancel before any of them resumes *)

(** [k] is the first id in the set of dependents of some task. *)
Definition firstDependent (s : Scheduler) (k : string) : Prop :=
  exists b rest, JsMap.get b (taskDependencies s) = Some (k :: rest).

(** [e] was emitted between [s] and [s']. *)
Definition emittedSince (s s' : Scheduler) (e : SystemEvent) : Prop :=
  exists ev, emitted s' = emitted s ++ ev /\ In e ev.

Lemma emittedSince_later s s1 s' e :
  (exists ev, emitted s' = emitted s1 ++ ev) ->
  emittedSince s s1 e -> emittedSince s s' e.
Proof.
  intros [ev2 E2] (ev1 & E1 & Hin). exists (ev1 ++ ev2).
  rewrite E2, E1, app_assoc. split; [reflexivity |].
  apply in_app_iff. now left.
Qed.

Lemma emittedSince_earlier s s1 s' e :
  (exists ev, emitted s1 = emitted s ++ ev) ->
  emittedSince s1 s' e -> emittedSince s s' e.
Proof.
  intros [ev1 E1] (ev2 & E2 & Hin). exists (ev1 ++ ev2).
  rewrite E2, E1, app_assoc. split; [reflexivity |].
  apply in_app_iff. now right.
Qed.

(** Up to its first [await], a call of [cancelTask] cancels the task it is
    called on and, below it, first dependents only. *)
Lemma callCancelTask_first fuel :
  forall taskId reason s s' frames,
    callCancelTask fuel taskId reason s = Some (s', frames) ->
    (forall k, active k s -> inactive k s' ->
               k = taskId \/ firstDependent s k)
    /\ (active taskId s ->
        emittedSince s s' (TASK_CANCELLED taskId reason))
    /\ (exists ev, emitted s' = emitted s ++ ev)
    /\ taskDependencies s' = taskDependencies s.
Proof.
  induction fuel as [| fuel IH]; intros taskId reason s s' frames;
    cbn [callCancelTask];
    destruct (JsMap.get taskId (tasks s)) as [x |] eqn:E;
    try discriminate;
    try (intros [= <- <-];
         split; [intros k Ha Hi; contradiction |];
         split; [intros Ha; contradiction |];
         split; [exists []; now rewrite app_nil_r | reflexivity]).
  set (s1 := cancelOne taskId reason x s).
  destruct (cancelOne_fields taskId reason x s)
    as (_ & _ & Hd & _ & _ & _ & He & _).
  fold s1 in Hd, He.
  assert (Hone : forall k, active k s -> inactive k s1 -> k = taskId).
  { intros k Ha Hi. apply inactive_cancelOne in Hi.
    destruct Hi; [assumption | contradiction]. }
  assert (Hleaf :
    Some (s1, [atCancelDependents]) = Some (s', frames) ->
    (forall k, active k s -> inactive k s' ->
               k = taskId \/ firstDependent s k)
    /\ (active taskId s ->
        emittedSince s s' (TASK_CANCELLED taskId reason))
    /\ (exists ev, emitted s' = emitted s ++ ev)
    /\ taskDependencies s' = taskDependencies s).
  { intros [= <- <-]. split; [intros k Ha Hi; left; now apply Hone |].
    split; [intros _; eexists; split; [exact He | now left] |].
    split; [eexists; exact He | exact Hd]. }
  destruct (JsMap.get taskId (taskDependencies s1)) as [[| d rest] |] eqn:Ed;
    [exact Hleaf | | exact Hleaf].
  destruct (callCancelTask fuel d "Parent task cancelled" s1)
    as [[s2 inner] |] eqn:E2; [| discriminate].
  intros [= <- <-].
  destruct (IH _ _ _ _ _ E2) as (H1 & _ & [ev2 He2] & Hd2).
  split.
  { intros k Ha Hi. destruct (inactive_dec k s1) as [Hi1 | Ha1].
    - left. now apply Hone.
    - right. destruct (H1 k Ha1 Hi) as [-> | (b & r & Hb)].
      + exists taskId, rest. now rewrite <- Hd.
      + exists b, r. now rewrite <- Hd. }
  split.
  { intros _. exists (TASK_CANCELLED taskId reason :: ev2).
    rewrite He2, He, <- app_assoc. split; [reflexivity | now left]. }
  split.
  { exists (TASK_CANCELLED taskId reason :: ev2).
    now rewrite He2, He, <- app_assoc. }
  now rewrite Hd2.
Qed.

Lemma firstDependent_same s s' k :
  taskDependencies s' = taskDependencies s ->
  firstDependent s' k <-> firstDependent s k.
Proof. intros H. unfold firstDependent. now rewrite H. Qed.

(** So an id of the array that is active and is no first dependent is
    cancelled by the call made on it, with the caller's reason. *)
Lemma callAll_first reason :
  forall ids queue s queue' s',
    callAll reason ids queue s = Some (queue', s') ->
    (exists ev, emitted s' = emitted s ++ ev)
    /\ forall k, In k ids -> active k s -> ~ firstDependent s k ->
                 emittedSince s s' (TASK_CANCELLED k reason).
Proof.
  induction ids as [| d ids IH]; intros queue s queue' s'; simpl.
  - intros [= <- <-]. split; [exists []; now rewrite app_nil_r |].
    intros k [].
  - destruct (callCancelTask (JsMap.size (tasks s)) d reason s)
      as [[s1 inner] |] eqn:E1; [| discriminate].
    destruct (callCancelTask_first _ _ _ _ _ _ E1) as (H1 & H2 & H3 & H4).
    intros E'.
    assert (Hrest : exists queue1,
               callAll reason ids queue1 s1 = Some (queue', s'))
      by (destruct inner; eauto).
    destruct Hrest as [queue1 Hrest].
    destruct (IH _ _ _ _ Hrest) as [H5 H6].
    split.
    { destruct H3 as [ev1 G3]. destruct H5 as [ev2 G5].
      exists (ev1 ++ ev2). now rewrite G5, G3, app_assoc. }
    intros k Hk Ha Hnf.
    destruct (String.eqb_spec k d) as [-> | Hne].
    + eapply emittedSince_later; [exact H5 | now apply H2].
    + destruct Hk as [-> | Hk]; [contradiction |].
      eapply emittedSince_earlier; [exact H3 |].
      apply H6; [exact Hk | |].
      * intros Hi. destruct (H1 k Ha Hi); contradiction.
      * intros Hf. apply Hnf. now apply (firstDependent_same s s1).
Qed.

Lemma runJobs_emitted fuel :
  forall queue s s',
    runJobs fuel queue s = Some s' ->
    exists ev, emitted s' = emitted s ++ ev.
Proof.
  induction fuel as [| fuel IH]; intros queue s s'; simpl;
    destruct queue as [| frames queue'];
    try discriminate;
    try (intros [= <-]; exists []; now rewrite app_nil_r).
  destruct frames as [| [| [| d rest] r] outer]; simpl.
  - apply IH.
  - destruct outer; apply IH.
  - destruct outer; apply IH.
  - destruct (callCancelTask (JsMap.size (tasks s)) d r s)
      as [[s1 inner] |] eqn:E1; [| discriminate].
    destruct (callCancelTask_first _ _ _ _ _ _ E1) as (_ & _ & [ev1 H3] & _).
    intros E'.
    assert (Hrest : exists queue1, runJobs fuel queue1 s1 = Some s')
      by (destruct inner; simpl in E'; eauto).
    destruct Hrest as [queue1 Hrest].
    destruct (IH _ _ _ Hrest) as [ev2 H5].
    exists (ev1 ++ ev2). now rewrite H5, H3, app_assoc.
Qed.

Lemma cancelAll_first reason ids s s' :
  cancelAll reason ids s = Some s' ->
  forall k, In k ids -> active k s -> ~ firstDependent s k ->
            emittedSince s s' (TASK_CANCELLED k reason).
Proof.
  unfold cancelAll.
  destruct (callAll reason ids [] s) as [[queue s1] |] eqn:E1;
    [| discriminate].
  intros E' k Hk Ha Hnf.
  destruct (callAll_first _ _ _ _ _ _ E1) as [_ H].
  eapply emittedSince_later; [eapply runJobs_emitted; exact E' |].
  now apply H.
Qed.

(** *** What a cancellation removes, exactly *)

(** After cancellations, a timer is pending exactly when it was pending and
    no cancelled task held its handle, and an id is listed under an agent
    exactly when it was listed there and is not a cancelled task of that
    agent. *)
Lemma cancelled_exactly R s s' :
  Cascade R s s' -> CancelSteps s s' ->
  (forall tm,
      In tm (timers s')
      <-> In tm (timers s)
          /\ forall k v, JsMap.get k (tasks s) = Some v -> inactive k s' ->
                         timeout v <> Some (handle tm))
  /\ (forall a k,
        listed a k (agentTasks s')
        <-> listed a k (agentTasks s)
            /\ ~ (inactive k s'
                  /\ exists v, JsMap.get k (tasks s) = Some v
                               /\ agentId v = a)).
Proof.
  intros C St. pose proof (CancelSteps_Spared _ _ St) as [T A U].
  split.
  - intros tm. split.
    + intros Hin. split; [now apply (c_timers _ _ _ C) |].
      intros k v Hv Hi Hh.
      exact (c_disarmed _ _ _ C k v (handle tm) Hv Hi Hh tm Hin eq_refl).
    + intros [Hin Hfree]. destruct (T tm Hin) as [H | (k & v & Hv & Hi & Hh)];
        [exact H |].
      exfalso. exact (Hfree k v Hv Hi Hh).
  - intros a k. split.
    + intros Hl. split; [now apply (c_agents _ _ _ C) |].
      intros [Hi (v & Hv & <-)]. exact (U k v Hv Hi Hl).
    + intros [Hl Hfree]. destruct (A a k Hl) as [H | (v & Hv & Hi & Ha)];
        [exact H |].
      exfalso. apply Hfree. eauto.
Qed.

(** The same when the cancellations come after the removal of one task, as
    in [cancelTask] and in the terminal branch of [failTask]: [s3] is [s]
    without the task, without the timer in its [timeout] field and without
    its listing under its agent. *)
Lemma removed_exactly R taskId x s s3 s' :
  JsMap.get taskId (tasks s) = Some x ->
  tasks s3 = JsMap.delete taskId (tasks s) ->
  timers s3
  = match timeout x with
    | Some h => dropTimer h (timers s)
    | None => timers s
    end ->
  agentTasks s3 = deleteFrom (agentId x) taskId (agentTasks s) ->
  Cascade R s3 s' -> CancelSteps s3 s' ->
  (forall tm,
      In tm (timers s')
      <-> In tm (timers s)
          /\ forall k v, JsMap.get k (tasks s) = Some v -> inactive k s' ->
                         timeout v <> Some (handle tm))
  /\ (forall a k,
        listed a k (agentTasks s')
        <-> listed a k (agentTasks s)
            /\ ~ (inactive k s'
                  /\ exists v, JsMap.get k (tasks s) = Some v
                               /\ agentId v = a))
  /\ (forall k v,
        JsMap.get k (tasks s') = Some v -> JsMap.get k (tasks s) = Some v).
Proof.
  intros Hx Ht Htm Hag C St.
  destruct (cancelled_exactly R s3 s' C St) as [HT HA].
  assert (Hget3 : forall k v,
             JsMap.get k (tasks s3) = Some v
             <-> k <> taskId /\ JsMap.get k (tasks s) = Some v).
  { intros k v. rewrite Ht, get_delete.
    destruct (String.eqb_spec k taskId) as [-> | Hne]; intuition congruence. }
  assert (I3 : inactive taskId s3)
    by (unfold inactive; rewrite Ht; apply get_delete_same).
  assert (I' : inactive taskId s')
    by (eapply Cascade_stays_inactive; eassumption).
  assert (Htm3 : forall tm,
             In tm (timers s3)
             <-> In tm (timers s) /\ timeout x <> Some (handle tm)).
  { intros tm. rewrite Htm. destruct (timeout x) as [h |].
    - rewrite In_dropTimer. intuition congruence.
    - intuition discriminate. }
  split; [| split].
  - intros tm. rewrite HT, Htm3. split.
    + intros [[Hin Hx'] Hfree]. split; [exact Hin |].
      intros k v Hv Hi. destruct (String.eqb_spec k taskId) as [-> | Hne].
      * rewrite Hx in Hv. injection Hv as <-. exact Hx'.
      * apply (Hfree k v); [apply Hget3; auto | exact Hi].
    + intros [Hin Hfree]. split; [split; [exact Hin |] |].
      * now apply (Hfree taskId x).
      * intros k v Hv Hi. apply Hget3 in Hv. destruct Hv as [_ Hv].
        now apply (Hfree k v).
  - intros a k. rewrite HA, Hag, listed_deleteFrom_iff. split.
    + intros [[Hl Hne] Hfree]. split; [exact Hl |].
      intros [Hi (v & Hv & Ha)].
      destruct (String.eqb_spec k taskId) as [-> | Hnk].
      * rewrite Hx in Hv. injection Hv as <-. apply Hne. auto.
      * apply Hfree. split; [exact Hi |]. exists v.
        split; [apply Hget3; auto | exact Ha].
    + intros [Hl Hfree]. split; [split; [exact Hl |] |].
      * intros [-> ->]. apply Hfree. split; [exact I' |]. eauto.
      * intros [Hi (v & Hv & Ha)]. apply Hget3 in Hv.
        destruct Hv as [_ Hv]. apply Hfree. eauto.
  - intros k v Hv. apply (c_get _ _ _ C) in Hv. apply Hget3 in Hv. tauto.
Qed.

(** *** Whom a cascade does not reach *)

Lemma cascadesTo_earlier s s1 a c :
  (forall k, active k s1 -> active k s) ->
  taskDependencies s1 = taskDependencies s ->
  cascadesTo s1 a c -> cascadesTo s a c.
Proof.
  intros Hact Hd. induction 1 as [Ha | b c st _ IH Hst Hin Hc].
  - apply cascades_root. now apply Hact.
  - eapply cascades_dependent; [exact IH | | exact Hin | now apply Hact].
    now rewrite <- Hd.
Qed.

Lemma cascadesTo_under s a ds d c :
  active a s -> JsMap.get a (taskDependencies s) = Some ds -> In d ds ->
  cascadesTo s d c -> cascadesTo s a c.
Proof.
  intros Ha Hds Hd. induction 1 as [Hc | b c st _ IH Hst Hin Hc].
  - eapply cascades_dependent; [apply cascades_root; exact Ha | | |];
      eassumption.
  - eapply cascades_dependent; eassumption.
Qed.

(** A [cancelTask] that cancels nothing but what its cascade reaches. *)
Definition cancelsOnly
  (cancel : string -> string -> Scheduler -> option Scheduler) : Prop :=
  forall taskId reason s s',
    cancel taskId reason s = Some s' ->
    CancelSteps s s'
    /\ forall k, active k s -> inactive k s' -> cascadesTo s taskId k.

Lemma CancelSteps_active s s' k :
  CancelSteps s s' -> active k s' -> active k s.
Proof.
  intros St. eapply Cascade_was_active. eapply CancelSteps_Cascade. exact St.
Qed.

Lemma CancelSteps_deps s s' :
  CancelSteps s s' -> taskDependencies s' = taskDependencies s.
Proof. intros St. apply (c_deps _ _ _ (CancelSteps_Cascade _ _ St)). Qed.

Lemma cancel_loop_only cancel reason :
  cancelsOnly cancel ->
  forall ds s s',
    forEach (fun d => cancel d reason) ds s = Some s' ->
    CancelSteps s s'
    /\ forall k, active k s -> inactive k s' ->
                 exists d, In d ds /\ cascadesTo s d k.
Proof.
  intros Hc. induction ds as [| d ds IH]; intros s s'; simpl.
  - intros [= <-]. split; [apply steps_none |].
    intros k Ha Hi. contradiction.
  - destruct (cancel d reason s) as [s1 |] eqn:E1; [| discriminate].
    intros E'. destruct (Hc d reason s s1 E1) as [St1 H1].
    destruct (IH s1 s' E') as [St' H'].
    split; [eapply CancelSteps_trans; eassumption |].
    intros k Ha Hi. destruct (inactive_dec k s1) as [Hi1 | Ha1].
    + exists d. split; [now left | now apply H1].
    + destruct (H' k Ha1 Hi) as (d' & Hd' & Hreach).
      exists d'. split; [now right |].
      eapply cascadesTo_earlier; [| | exact Hreach].
      * intros j. now apply CancelSteps_active.
      * now apply CancelSteps_deps.
Qed.

Lemma cancelDependents_only cancel taskId reason s s' :
  cancelsOnly cancel ->
  cancelDependentTasksWith cancel taskId reason s = Some s' ->
  CancelSteps s s'
  /\ forall k, active k s -> inactive k s' ->
               exists ds d, JsMap.get taskId (taskDependencies s) = Some ds
                            /\ In d ds /\ cascadesTo s d k.
Proof.
  intros Hc. unfold cancelDependentTasksWith.
  destruct (JsMap.get taskId (taskDependencies s)) as [ds |].
  - intros E. destruct (cancel_loop_only cancel reason Hc ds s s' E)
      as [St H].
    split; [exact St |]. intros k Ha Hi.
    destruct (H k Ha Hi) as (d & Hd & Hr). eauto.
  - intros [= <-]. split; [apply steps_none |].
    intros k Ha Hi. contradiction.
Qed.

Lemma cancelTaskFuel_only fuel : cancelsOnly (cancelTaskFuel fuel).
Proof.
  induction fuel as [| fuel IH]; intros taskId reason s s'; simpl;
    destruct (JsMap.get taskId (tasks s)) as [x |] eqn:E;
    try discriminate;
    try (intros [= <-]; split; [apply steps_none |];
         intros k Ha Hi; contradiction).
  intros E'.
  destruct (cancelDependents_only _ _ _ _ _ IH E') as [St H].
  destruct (cancelOne_fields taskId reason x s) as (Ht & _ & Hd & _).
  split; [eapply steps_cancel; eassumption |].
  intros k Ha Hi.
  assert (Hroot : active taskId s) by (unfold active; congruence).
  destruct (String.eqb_spec k taskId) as [-> | Hne];
    [now apply cascades_root |].
  assert (Ha1 : active k (cancelOne taskId reason x s)).
  { intros Hi1. apply inactive_cancelOne in Hi1.
    destruct Hi1; contradiction. }
  destruct (H k Ha1 Hi) as (ds & d & Hds & Hin & Hreach).
  rewrite Hd in Hds.
  eapply cascadesTo_under; [exact Hroot | exact Hds | exact Hin |].
  eapply cascadesTo_earlier; [| exact Hd | exact Hreach].
  intros j Hj Hij. apply Hj. apply inactive_cancelOne. now right.
Qed.

Lemma cancelTask_only : cancelsOnly cancelTask.
Proof. intros taskId reason s s'. apply cancelTaskFuel_only. Qed.

(** C7, as amended.  [cancelTask] on an id that [tasks] does not hold
    returns and changes nothing.  On an active id it returns, and then: the
    call was [cancelOne] followed by [cancelTask] on each registered
    dependent in turn with the reason "Parent task cancelled" (a dependent
    that is not active is passed over and the loop goes on); the first event
    is TASK_CANCELLED with the caller's reason and all later ones carry
    "Parent task cancelled"; the task's record is released with status
    [cancelled] and [completedAt] set; the id is out of [tasks]; and every
    task that the cascade reaches through active dependents is likewise out
    of [tasks], released as [cancelled] and announced with
    "Parent task cancelled", and no other task is cancelled.  A timer is
    pending afterwards exactly when it
    was pending and its handle is in the [timeout] field of no task the call
    cancelled; an id is listed under an agent afterwards exactly when it was
    listed there and is not a task the call cancelled whose record names
    that agent; the completed-id set is unchanged, and a task that is still
    active has the record it had. *)
Theorem cancelTask_cascade (taskId reason : string) (s : Scheduler) :
  (inactive taskId s -> cancelTask taskId reason s = Some s)
  /\ (forall x,
        JsMap.get taskId (tasks s) = Some x ->
        exists s' ev rel,
          cancelTask taskId reason s = Some s'
          /\ cancelTask taskId reason s
             = cancelDependentTasks taskId PARENT_CANCELLED
                 (cancelOne taskId reason x s)
          /\ emitted s' = emitted s ++ TASK_CANCELLED taskId reason :: ev
          /\ (forall e, In e ev ->
                exists k, e = TASK_CANCELLED k PARENT_CANCELLED)
          /\ released s' = released s ++ (taskId, gone s x) :: rel
          /\ status (task (gone s x)) = cancelled
          /\ completedAt (task (gone s x)) = Some (clock s)
          /\ inactive taskId s'
          /\ (forall tm,
                In tm (timers s')
                <-> In tm (timers s)
                    /\ forall k v,
                        JsMap.get k (tasks s) = Some v -> inactive k s' ->
                        timeout v <> Some (handle tm))
          /\ (forall a k,
                listed a k (agentTasks s')
                <-> listed a k (agentTasks s)
                    /\ ~ (inactive k s'
                          /\ exists v, JsMap.get k (tasks s) = Some v
                                       /\ agentId v = a))
          /\ (forall k v,
                JsMap.get k (tasks s') = Some v ->
                JsMap.get k (tasks s) = Some v)
          /\ completedTasks s' = completedTasks s
          /\ (forall k,
                inactive k s' <-> inactive k s \/ cascadesTo s taskId k)
          /\ (forall c v,
                cascadesTo s taskId c -> c <> taskId ->
                JsMap.get c (tasks s) = Some v ->
                In (TASK_CANCELLED c PARENT_CANCELLED) ev
                /\ In (c, gone s v) rel
                /\ status (task (gone s v)) = cancelled)).
Proof.
  split; [apply cancelTask_inactive|].
  intros x E. set (s1 := cancelOne taskId reason x s).
  destruct (cancelOne_fields taskId reason x s)
    as (Ht & Hag & Hd & Hc & Hk & Hn & He & Hr & Htm).
  fold s1 in Ht, Hag, Hd, Hc, Hk, Hn, He, Hr, Htm.
  destruct (cancelDependents_spec (JsMap.size (tasks s1)) cancelTask taskId
              PARENT_CANCELLED s1 (cancelTask_spec _) (Nat.le_refl _))
    as (s' & E' & C' & Hds & K').
  assert (St' : CancelSteps s1 s')
    by (eapply CancelSteps_cancelDependentTasks; exact E').
  destruct (removed_exactly _ taskId x s s1 s' E Ht Htm Hag C' St')
    as (HT & HA & HG).
  destruct (c_events _ _ _ C') as [ev [Hev [F G]]].
  destruct (c_released _ _ _ C') as [rel [Hrel M]].
  assert (I1 : inactive taskId s1)
    by (apply inactive_cancelOne; now left).
  assert (Hact : forall k, k <> taskId -> active k s -> active k s1).
  { intros k Hne Ha Hi. apply inactive_cancelOne in Hi.
    destruct Hi; contradiction. }
  assert (Hget : forall k, k <> taskId ->
                   JsMap.get k (tasks s1) = JsMap.get k (tasks s)).
  { intros k Hne. rewrite Ht, get_delete.
    apply String.eqb_neq in Hne. now rewrite Hne. }
  exists s', ev, rel.
  split; [rewrite (cancelTask_active _ _ _ _ E); exact E' |].
  split; [apply cancelTask_active; exact E |].
  split; [rewrite Hev, He, <- app_assoc; reflexivity |].
  split.
  { intros e Hin.
    destruct (F e Hin) as [k [r [-> [_ [_ [[_ ->] | [-> _]]]]]]]; eauto. }
  split; [rewrite Hrel, Hr, <- app_assoc; reflexivity |].
  split; [reflexivity |]. split; [reflexivity |].
  split; [eapply Cascade_stays_inactive; eassumption |].
  split; [exact HT |]. split; [exact HA |]. split; [exact HG |].
  split; [rewrite (c_completed _ _ _ C'); exact Hc |].
  assert (Hin' : forall c, cascadesTo s taskId c -> inactive c s').
  { apply (cascade_reaches _ s s1 s' taskId Hact Hd C' K' I1).
    intros ds d Hds' Hin. apply Hds. exists ds. split; [|exact Hin].
    now rewrite Hd. }
  split.
  { intros k. split.
    - intros Hi. destruct (inactive_dec k s) as [Hi0 | Ha0]; [now left |].
      right.
      destruct (cancelTask_only taskId reason s s'
                  ltac:(rewrite (cancelTask_active _ _ _ _ E); exact E'))
        as [_ Honly].
      now apply Honly.
    - intros [Hi | Hreach]; [| now apply Hin'].
      eapply Cascade_stays_inactive; [exact C' |].
      apply inactive_cancelOne. now right. }
  intros c v Hreach Hne Hv.
  pose proof (Hin' c Hreach) as Ic.
  assert (Hv1 : JsMap.get c (tasks s1) = Some v) by now rewrite Hget.
  assert (Ac : active c s1) by (unfold active; congruence).
  split.
  { destruct (G c Ac Ic) as [r Hin].
    destruct (F _ Hin) as [k [r' [Heq [_ [_ [[_ ->] | [-> _]]]]]]];
      injection Heq as -> ->; exact Hin. }
  split; [| reflexivity].
  replace (gone s v) with (gone s1 v) by (unfold gone; now rewrite Hk).
  now apply M.
Qed.

(** ** Failure, retry and terminal failure *)

Section Failure.

Variable config : CoordinationConfig.

(** The record after [attempts++] and [lastAttempt = new Date()]. *)
Definition tried (s : Scheduler) (x : ScheduledTask) : ScheduledTask :=
  withLastAttempt (clock s) (withAttempts (S (attempts x)) x).

(** The record of a task whose retries are exhausted. *)
Definition dead (s : Scheduler) (err : Error) (x : ScheduledTask)
  : ScheduledTask :=
  withTask
    (fun t => withCompletedAt (clock s) (withError err (withStatus failed t)))
    (tried s x).

(** The delay of the retry after the [n]-th failure. *)
Definition backoff (n : nat) : Z :=
  (retryDelay config * 2 ^ (Z.of_nat n - 1))%Z.

Definition retryTimer (s : Scheduler) (taskId : string) (n : nat) : Timer :=
  mkTimer (nextHandle s) (clock s + timerDelay (backoff n))
    (timerDelay (backoff n)) (onRetry taskId) false.

(** The pending timers once [clearTimeout(scheduled.timeout)] has run. *)
Definition disarm (x : ScheduledTask) (l : list Timer) : list Timer :=
  match timeout x with
  | Some h => dropTimer h l
  | None => l
  end.

Lemma In_disarm tm x l :
  In tm (disarm x l) -> In tm l /\ Some (handle tm) <> timeout x.
Proof.
  unfold disarm. destruct (timeout x) as [h |].
  - intros H. apply In_dropTimer in H. destruct H. split; congruence.
  - intros H. split; [assumption | discriminate].
Qed.

Lemma failTask_retries taskId err s x :
  JsMap.get taskId (tasks s) = Some x ->
  (Z.of_nat (S (attempts x)) < maxRetries config)%Z ->
  failTask config taskId err s
  = Some
      (mkScheduler (JsMap.set taskId (tried s x) (tasks s)) (agentTasks s)
         (taskDependencies s) (completedTasks s) (clock s)
         (disarm x (timers s) ++ [retryTimer s taskId (S (attempts x))])
         (S (nextHandle s)) (emitted s) (released s),
       Returned).
Proof.
  intros E Hlt. unfold failTask. rewrite E.
  change (attempts
            (withLastAttempt (clock s)
               (withAttempts (S (attempts x)) x)))
    with (S (attempts x)).
  apply Z.ltb_lt in Hlt. rewrite Hlt.
  unfold clearTimeoutOf, disarm. destruct (timeout x); reflexivity.
Qed.

(** The scheduler once a task whose retries are exhausted has been taken
    out of the indices, before the cascade. *)
Definition buried (taskId : string) (err : Error) (x : ScheduledTask)
  (s : Scheduler) : Scheduler :=
  mkScheduler (JsMap.delete taskId (tasks s))
    (deleteFrom (agentId x) taskId (agentTasks s))
    (taskDependencies s) (completedTasks s) (clock s)
    (disarm x (timers s)) (nextHandle s) (emitted s)
    (released s ++ [(taskId, dead s err x)]).

Lemma failTask_gives_up taskId err s x :
  JsMap.get taskId (tasks s) = Some x ->
  (maxRetries config <= Z.of_nat (S (attempts x)))%Z ->
  failTask config taskId err s
  = match cancelDependentTasks taskId PARENT_FAILED (buried taskId err x s)
    with
    | Some s4 => Some (s4, Returned)
    | None => None
    end.
Proof.
  intros E Hge. unfold failTask. rewrite E.
  change (attempts
            (withLastAttempt (clock s)
               (withAttempts (S (attempts x)) x)))
    with (S (attempts x)).
  apply Z.ltb_ge in Hge. rewrite Hge.
  unfold clearTimeoutOf, buried, disarm. destruct (timeout x); reflexivity.
Qed.

Lemma disarm_filter x l :
  disarm x l
  = filter
      (fun tm =>
         match timeout x with
         | Some h => negb (Nat.eqb (handle tm) h)
         | None => true
         end)
      l.
Proof.
  unfold disarm, dropTimer. destruct (timeout x); [reflexivity |].
  induction l as [| tm l IH]; simpl; [reflexivity | now rewrite <- IH].
Qed.




End Failure.

(** ** Completion and the dependents it starts *)

Section Completion.

Variable config : CoordinationConfig.

Definition agentOf (s : Scheduler) (k : string) : string :=
  match JsMap.get k (tasks s) with
  | Some x => agentId x
  | None => ""
  end.

(** What [startTask] does to the task of a record. *)
Definition restart (now : Z) (t : Task) : Task :=
  withStartedAt now (withStatus running t).

Lemma restart_restart now t : restart now (restart now t) = restart now t.
Proof. reflexivity. Qed.

(** [k] was active in [s0] and is, in [s], that task as [startTask] leaves
    it, with its execution timer pending. *)
Definition Started (s0 s : Scheduler) (k : string) : Prop :=
  exists x x' h,
    JsMap.get k (tasks s0) = Some x
    /\ JsMap.get k (tasks s) = Some x'
    /\ task x' = restart (clock s0) (task x)
    /\ agentId x' = agentId x
    /\ attempts x' = attempts x
    /\ lastAttempt x' = lastAttempt x
    /\ timeout x' = Some h
    /\ In (mkTimer h (clock s0 + timerDelay (resourceTimeout config))
             (timerDelay (resourceTimeout config))
             (onTimeout k (resourceTimeout config)) false)
          (timers s).

(** From [s0] to [s], [startTask] ran on the ids of [l], in that order. *)
Record Restarted (l : list string) (s0 s : Scheduler) : Prop := {
  rs_agents : agentTasks s = agentTasks s0;
  rs_deps : taskDependencies s = taskDependencies s0;
  rs_completed : completedTasks s = completedTasks s0;
  rs_clock : clock s = clock s0;
  rs_released : released s = released s0;
  rs_emitted :
    emitted s = emitted s0 ++ map (fun k => TASK_STARTED k (agentOf s0 k)) l;
  rs_timers : exists new,
      timers s = timers s0 ++ new
      /\ map callback new
         = map (fun k => onTimeout k (resourceTimeout config)) l;
  rs_same : forall k,
      ~ In k l -> JsMap.get k (tasks s) = JsMap.get k (tasks s0);
  rs_started : forall k, In k l -> Started s0 s k
}.

Lemma Restarted_nil s : Restarted [] s s.
Proof.
  constructor; auto.
  - simpl. now rewrite app_nil_r.
  - exists []. now rewrite app_nil_r.
  - intros k [].
Qed.

Lemma Restarted_step l s0 s k :
  Restarted l s0 s -> active k s0 ->
  Restarted (l ++ [k]) s0 (startTask config k s).
Proof.
  intros [Ha Hd Hc Hk Hr He [new [Ht Hcb]] Hsame Hst] Hact.
  unfold active in Hact.
  destruct (JsMap.get k (tasks s0)) as [x |] eqn:Ex; [clear Hact | tauto].
  assert (Hx1 : exists x1,
             JsMap.get k (tasks s) = Some x1
             /\ restart (clock s0) (task x1) = restart (clock s0) (task x)
             /\ agentId x1 = agentId x /\ attempts x1 = attempts x
             /\ lastAttempt x1 = lastAttempt x).
  { destruct (in_dec string_dec k l) as [Hin | Hnin].
    - destruct (Hst k Hin) as (y & y' & h & E1 & E2 & E3 & E4 & E5 & E6 & _).
      rewrite Ex in E1. injection E1 as <-.
      exists y'. rewrite E3, restart_restart. auto.
    - exists x. rewrite (Hsame k Hnin). auto. }
  destruct Hx1 as (x1 & Ex1 & Hre & Hag & Hat & Hla).
  rewrite (startTask_active config k x1 s Ex1).
  constructor; simpl; auto.
  - rewrite map_app, app_assoc, <- He. simpl.
    unfold agentOf. now rewrite Ex, Hag.
  - exists (new ++ [executionTimer config s k]).
    rewrite Ht, app_assoc. split; [reflexivity |].
    rewrite !map_app, Hcb. reflexivity.
  - intros j Hj. rewrite in_app_iff in Hj. simpl in Hj.
    rewrite get_set_other by (intros ->; tauto).
    apply Hsame. tauto.
  - intros j Hj. destruct (String.eqb_spec j k) as [-> | Hne].
    + exists x, (started s x1), (nextHandle s). simpl.
      rewrite get_set_same.
      repeat (split; [first [reflexivity | assumption] |]).
      split.
      { unfold started. simpl. fold (restart (clock s) (task x1)).
        now rewrite Hk. }
      repeat (split; [first [reflexivity | assumption] |]).
      apply in_app_iff. right. left. unfold executionTimer.
      now rewrite Hk.
    + apply in_app_iff in Hj. destruct Hj as [Hj | [-> | []]]; [| tauto].
      destruct (Hst j Hj) as (y & y' & h & E1 & E2 & E3 & E4 & E5 & E6 & E7
                              & E8).
      exists y, y', h. simpl. rewrite get_set_other by assumption.
      repeat (split; [assumption |]).
      apply in_app_iff. now left.
Qed.

Lemma startAll_spec s0 l :
  forall done s,
    Restarted done s0 s -> (forall k, In k l -> active k s0) ->
    Restarted (done ++ l) s0
      (fold_left (fun acc k => startTask config k acc) l s).
Proof.
  induction l as [| k l IH]; intros done s H Hact; simpl.
  - now rewrite app_nil_r.
  - replace (done ++ k :: l) with ((done ++ [k]) ++ l)
      by (rewrite <- app_assoc; reflexivity).
    apply IH.
    + apply Restarted_step; [assumption |]. apply Hact. now left.
    + intros j Hj. apply Hact. now right.
Qed.

(** A dependent is started when it is active and [canStartTask] holds. *)
Definition ready (s : Scheduler) (k : string) : bool :=
  match JsMap.get k (tasks s) with
  | Some x => canStartTask (task x) s
  | None => false
  end.

Lemma ready_startTask j s k : ready (startTask config j s) k = ready s k.
Proof.
  destruct (JsMap.get j (tasks s)) as [x |] eqn:E.
  - rewrite (startTask_active config j x s E). unfold ready. simpl.
    rewrite get_set. destruct (String.eqb_spec k j) as [-> | Hne];
      [| reflexivity].
    rewrite E. reflexivity.
  - now rewrite startTask_inactive.
Qed.

Lemma startDependents_ready ds :
  forall s,
    startDependents config ds s
    = fold_left (fun acc k => startTask config k acc) (filter (ready s) ds) s.
Proof.
  unfold startDependents.
  induction ds as [| d ds IH]; intros s; simpl; [reflexivity |].
  unfold ready at 1.
  destruct (JsMap.get d (tasks s)) as [x |] eqn:E.
  - destruct (canStartTask (task x) s) eqn:Ec; simpl.
    + rewrite IH. f_equal. apply filter_ext. intros k.
      apply ready_startTask.
    + apply IH.
  - apply IH.
Qed.

Lemma ready_active s k : ready s k = true -> active k s.
Proof.
  unfold ready, active. destruct (JsMap.get k (tasks s));
    [discriminate | discriminate].
Qed.

Lemma canStartTask_spec t s :
  canStartTask t s = true
  <-> forall depId, In depId (dependencies t) -> In depId (completedTasks s).
Proof.
  unfold canStartTask. rewrite forallb_forall.
  split; intros H d Hd; apply has_In; auto.
Qed.

(** The record [completeTask] leaves behind. *)
Definition done (s : Scheduler) (result : string) (x : ScheduledTask)
  : ScheduledTask :=
  withTask
    (fun t =>
       withCompletedAt (clock s) (withOutput result (withStatus completed t)))
    x.

(** The scheduler when [completeTask] turns to the dependents. *)
Definition finished (taskId result : string) (x : ScheduledTask)
  (s : Scheduler) : Scheduler :=
  mkScheduler (JsMap.delete taskId (tasks s))
    (deleteFrom (agentId x) taskId (agentTasks s))
    (taskDependencies s) (JsSet.add taskId (completedTasks s)) (clock s)
    (disarm x (timers s)) (nextHandle s) (emitted s)
    (released s ++ [(taskId, done s result x)]).

Definition dependentsOf (taskId : string) (s : Scheduler) : list string :=
  match JsMap.get taskId (taskDependencies s) with
  | Some ds => ds
  | None => []
  end.

Lemma completeTask_active taskId result x s :
  JsMap.get taskId (tasks s) = Some x ->
  completeTask config taskId result s
  = (startDependents config (dependentsOf taskId s)
       (finished taskId result x s),
     Returned).
Proof.
  intros E. unfold completeTask. rewrite E.
  unfold clearTimeoutOf, finished, dependentsOf, disarm. simpl.
  destruct (timeout x); simpl;
    destruct (JsMap.get taskId (taskDependencies s)); reflexivity.
Qed.

(** C4, as amended.  [completeTask] on an active id returns, and then: the
    task's record is released with status [completed], the output and
    [completedAt]; the timer whose handle is in its [timeout] field is no
    longer pending, and every other timer that was pending still is; the id
    is out of [tasks] and is in the completed-id set; the agent index has
    lost the listing of the id under the agent of the record, and nothing
    else.  The dependents started in the call, [startedNow], are exactly the
    registered dependents of the id that are active and have every id of
    their dependency list in the completed-id set: for each of them, in
    registration order, a TASK_STARTED event was emitted and an execution
    timer armed, and its record now has status [running] and [startedAt] the
    time of the call.  Every other task is as it was. *)
Theorem completeTask_effects (taskId result : string) (s : Scheduler)
  (x : ScheduledTask) :
  JsMap.get taskId (tasks s) = Some x ->
  exists s' startedNow new,
    completeTask config taskId result s = (s', Returned)
    /\ released s' = released s ++ [(taskId, done s result x)]
    /\ status (task (done s result x)) = completed
    /\ output (task (done s result x)) = Some result
    /\ completedAt (task (done s result x)) = Some (clock s)
    /\ timers s'
       = filter
           (fun tm =>
              match timeout x with
              | Some h => negb (Nat.eqb (handle tm) h)
              | None => true
              end)
           (timers s)
         ++ new
    /\ inactive taskId s'
    /\ (forall a k,
          listed a k (agentTasks s')
          <-> listed a k (agentTasks s) /\ ~ (a = agentId x /\ k = taskId))
    /\ (forall k, In k (completedTasks s')
                  <-> k = taskId \/ In k (completedTasks s))
    /\ taskDependencies s' = taskDependencies s
    /\ (forall B,
          In B startedNow
          <-> In B (dependentsOf taskId s) /\ B <> taskId
              /\ exists xB,
                   JsMap.get B (tasks s) = Some xB
                   /\ forall depId, In depId (dependencies (task xB)) ->
                                    In depId (completedTasks s'))
    /\ emitted s'
       = emitted s ++ map (fun B => TASK_STARTED B (agentOf s B)) startedNow
    /\ map callback new
       = map (fun B => onTimeout B (resourceTimeout config)) startedNow
    /\ (forall B,
          In B startedNow ->
          exists xB x' h,
            JsMap.get B (tasks s) = Some xB
            /\ JsMap.get B (tasks s') = Some x'
            /\ task x' = restart (clock s) (task xB)
            /\ status (task x') = running
            /\ startedAt (task x') = Some (clock s)
            /\ agentId x' = agentId xB
            /\ attempts x' = attempts xB
            /\ timeout x' = Some h
            /\ In (mkTimer h (clock s + timerDelay (resourceTimeout config))
                     (timerDelay (resourceTimeout config))
                     (onTimeout B (resourceTimeout config)) false)
                  (timers s'))
    /\ (forall k, ~ In k startedNow -> k <> taskId ->
                  JsMap.get k (tasks s') = JsMap.get k (tasks s)).
Proof.
  intros E. rewrite (completeTask_active _ _ _ _ E).
  set (s4 := finished taskId result x s).
  set (l := filter (ready s4) (dependentsOf taskId s)).
  rewrite startDependents_ready. fold l.
  assert (Hl : forall k, In k l -> active k s4).
  { intros k Hk. apply filter_In in Hk. apply ready_active. tauto. }
  pose proof (startAll_spec s4 l [] s4 (Restarted_nil s4) Hl) as R.
  simpl in R.
  set (s' := fold_left _ l s4) in *.
  destruct R as [Ha Hd Hc Hk Hr He [new [Ht Hcb]] Hsame Hst].
  assert (Hget : forall k, k <> taskId ->
                   JsMap.get k (tasks s4) = JsMap.get k (tasks s)).
  { intros k Hne. unfold s4. simpl. rewrite get_delete.
    apply String.eqb_neq in Hne. now rewrite Hne. }
  assert (Hne : forall k, active k s4 -> k <> taskId).
  { intros k Hk' ->. apply Hk'. unfold s4. simpl. apply get_delete_same. }
  exists s', l, new.
  split; [reflexivity |]. split; [rewrite Hr; reflexivity |].
  do 3 (split; [reflexivity |]).
  split; [rewrite Ht; unfold s4; simpl; now rewrite disarm_filter |].
  split.
  { unfold inactive. rewrite Hsame.
    - unfold s4. simpl. apply get_delete_same.
    - intros Hin. apply (Hne taskId (Hl _ Hin)). reflexivity. }
  split.
  { intros a k. rewrite Ha. unfold s4. simpl. apply listed_deleteFrom_iff. }
  split.
  { intros k. rewrite Hc. unfold s4. simpl. apply mem_add. }
  split; [rewrite Hd; reflexivity |].
  split.
  { intros B. unfold l. rewrite filter_In. unfold ready.
    split.
    - intros [Hin Hready].
      destruct (JsMap.get B (tasks s4)) as [xB |] eqn:EB; [| discriminate].
      assert (HB : B <> taskId)
        by (apply Hne; unfold active; congruence).
      split; [assumption | split; [assumption |]].
      exists xB. split; [now rewrite <- Hget |].
      rewrite Hc. now apply canStartTask_spec.
    - intros [Hin [HB [xB [EB Hall]]]].
      split; [assumption |]. rewrite Hget, EB by assumption.
      apply canStartTask_spec. now rewrite <- Hc. }
  split.
  { rewrite He. f_equal. apply map_ext_in. intros B HB.
    unfold agentOf. rewrite Hget; [reflexivity |]. apply Hne. now apply Hl. }
  split; [exact Hcb |].
  split.
  { intros B HB.
    destruct (Hst B HB) as (y & y' & h & E1 & E2 & E3 & E4 & E5 & E6 & E7
                            & E8).
    exists y, y', h.
    rewrite Hget in E1 by (apply Hne; now apply Hl).
    split; [exact E1 |]. split; [exact E2 |]. split; [exact E3 |].
    split; [rewrite E3; reflexivity |].
    split; [rewrite E3; reflexivity |].
    auto. }
  intros k Hk' HneK. rewrite (Hsame k Hk'). now apply Hget.
Qed.

End Completion.

(** ** What every call preserves *)

Definition okStatus (st : TaskStatus) : Prop := st = running \/ st = queued.

(** From [s] to [s'] no key entered [tasks], no id entered the completed-id
    set, and a record whose status changed is [running] or [queued]. *)
Record Evolves (s s' : Scheduler) : Prop := {
  e_tasks : forall k v',
      In (k, v') (tasks s') ->
      exists v, In (k, v) (tasks s)
                /\ (status (task v') = status (task v)
                    \/ okStatus (status (task v')));
  e_completed : forall k,
      In k (completedTasks s') -> In k (completedTasks s)
}.

Lemma Evolves_refl s : Evolves s s.
Proof. constructor; eauto. Qed.

Lemma Evolves_trans s s1 s' : Evolves s s1 -> Evolves s1 s' -> Evolves s s'.
Proof.
  intros [T1 C1] [T2 C2]. constructor; [| auto].
  intros k v' H. destruct (T2 k v' H) as [v1 [H1 Hs1]].
  destruct (T1 k v1 H1) as [v [H0 Hs0]]. exists v. split; [assumption |].
  destruct Hs1 as [Hs1 | Hs1]; [| now right].
  rewrite Hs1. exact Hs0.
Qed.

Lemma Evolves_same_tasks s s' :
  tasks s' = tasks s ->
  (forall k, In k (completedTasks s') -> In k (completedTasks s)) ->
  Evolves s s'.
Proof.
  intros Ht Hc. constructor; [| exact Hc].
  intros k v' H. rewrite Ht in H. eauto.
Qed.

Lemma Evolves_fold {A} (f : A -> Scheduler -> Scheduler) :
  (forall x s, Evolves s (f x s)) ->
  forall l s, Evolves s (fold_left (fun acc x => f x acc) l s).
Proof.
  intros Hf. induction l as [| x l IH]; intros s; simpl.
  - apply Evolves_refl.
  - eapply Evolves_trans; [apply Hf | apply IH].
Qed.

Lemma Evolves_forEach {A} (f : A -> Scheduler -> option Scheduler) :
  (forall x s s', f x s = Some s' -> Evolves s s') ->
  forall l s s', forEach f l s = Some s' -> Evolves s s'.
Proof.
  intros Hf. induction l as [| x l IH]; intros s s'; simpl.
  - intros [= <-]. apply Evolves_refl.
  - destruct (f x s) as [s1 |] eqn:E; [| discriminate].
    intros H. eapply Evolves_trans; [eapply Hf; eassumption | now apply IH].
Qed.

Lemma forEach_total {A} (f : A -> Scheduler -> option Scheduler) :
  (forall x s, exists s', f x s = Some s') ->
  forall l s, exists s', forEach f l s = Some s'.
Proof.
  intros Hf. induction l as [| x l IH]; intros s; simpl; [eauto |].
  destruct (Hf x s) as [s1 ->]. apply IH.
Qed.

Lemma Evolves_Cascade R s s' : Cascade R s s' -> Evolves s s'.
Proof.
  intros C. constructor.
  - intros k v' H. exists v'. split; [now apply (c_in _ _ _ C) | now left].
  - intros k. now rewrite (c_completed _ _ _ C).
Qed.

Section Invariants.

Variable config : CoordinationConfig.

Lemma cancelTask_returns taskId reason s :
  exists s', cancelTask taskId reason s = Some s' /\ Evolves s s'.
Proof.
  destruct (cancelTask_spec (JsMap.size (tasks s)) taskId reason s
              (Nat.le_refl _)) as (s' & E & C & _).
  exists s'. split; [exact E | eapply Evolves_Cascade; exact C].
Qed.

Lemma Evolves_cancelTask taskId reason s s' :
  cancelTask taskId reason s = Some s' -> Evolves s s'.
Proof.
  intros E. destruct (cancelTask_returns taskId reason s) as (s2 & E2 & H).
  congruence.
Qed.

Lemma Evolves_startTask taskId s : Evolves s (startTask config taskId s).
Proof.
  destruct (JsMap.get taskId (tasks s)) as [x |] eqn:E.
  - rewrite (startTask_active config taskId x s E).
    constructor; simpl; [| auto].
    intros k v' H. apply In_set in H. destruct H as [[= -> ->] | H].
    + exists x. split; [now apply get_In |]. right. now left.
    + eauto.
  - rewrite startTask_inactive by assumption. apply Evolves_refl.
Qed.

Lemma Evolves_startDependents ds s :
  Evolves s (startDependents config ds s).
Proof.
  unfold startDependents.
  apply (Evolves_fold
           (fun dependentId acc =>
              match JsMap.get dependentId (tasks acc) with
              | Some dependent =>
                  if canStartTask (task dependent) acc
                  then startTask config dependentId acc
                  else acc
              | None => acc
              end)).
  intros d st. destruct (JsMap.get d (tasks st)) as [y |];
    [| apply Evolves_refl].
  destruct (canStartTask (task y) st);
    [apply Evolves_startTask | apply Evolves_refl].
Qed.

Lemma failTask_returns taskId err s :
  exists s' o, failTask config taskId err s = Some (s', o) /\ Evolves s s'.
Proof.
  destruct (JsMap.get taskId (tasks s)) as [x |] eqn:E.
  - destruct (Z.ltb_spec (Z.of_nat (S (attempts x))) (maxRetries config))
      as [Hlt | Hge].
    + rewrite (failTask_retries config _ err _ _ E Hlt).
      eexists. eexists. split; [reflexivity |].
      constructor; simpl; [| auto].
      intros k v' H. apply In_set in H. destruct H as [[= -> ->] | H].
      * exists x. split; [now apply get_In | now left].
      * eauto.
    + rewrite (failTask_gives_up config _ err _ _ E Hge).
      set (s3 := buried taskId err x s).
      destruct (cancelDependents_spec (JsMap.size (tasks s3)) cancelTask
                  taskId PARENT_FAILED s3 (cancelTask_spec _)
                  (Nat.le_refl _)) as (s' & E' & C' & _).
      unfold cancelDependentTasks. rewrite E'.
      exists s', Returned. split; [reflexivity |].
      eapply Evolves_trans; [| eapply Evolves_Cascade; exact C'].
      constructor; simpl; [| auto].
      intros k v' H. apply In_delete in H. destruct H. eauto.
  - unfold failTask. rewrite E. eexists. eexists.
    split; [reflexivity | apply Evolves_refl].
Qed.

Lemma Evolves_failTask taskId err s s' o :
  failTask config taskId err s = Some (s', o) -> Evolves s s'.
Proof.
  intros E. destruct (failTask_returns taskId err s) as (s2 & o2 & E2 & H).
  congruence.
Qed.

Lemma Evolves_reschedule agent s : Evolves s (rescheduleAgentTasks agent s).
Proof.
  unfold rescheduleAgentTasks.
  destruct (JsMap.get agent (agentTasks s)) as [taskIds |];
    [| apply Evolves_refl].
  apply (Evolves_fold
           (fun taskId acc =>
              match JsMap.get taskId (tasks acc) with
              | Some scheduled =>
                  match status (task scheduled) with
                  | running =>
                      emit
                        (TASK_CREATED
                           (task
                              (withAttempts 0
                                 (withTask (withStatus queued) scheduled))))
                        (setTasks
                           (JsMap.set taskId
                              (withAttempts 0
                                 (withTask (withStatus queued) scheduled))
                              (tasks acc))
                           acc)
                  | _ => acc
                  end
              | None => acc
              end)).
  intros k st. destruct (JsMap.get k (tasks st)) as [y |] eqn:E;
    [| apply Evolves_refl].
  destruct (status (task y)); try apply Evolves_refl.
  constructor; simpl; [| auto].
  intros j v' H. apply In_set in H. destruct H as [[= -> ->] | H].
  - exists y. split; [now apply get_In |]. right. now right.
  - eauto.
Qed.

Lemma cleanup_fields s :
  tasks (cleanup s) = tasks s
  /\ agentTasks (cleanup s) = agentTasks s
  /\ clock (cleanup s) = clock s
  /\ timers (cleanup s) = timers s
  /\ emitted (cleanup s) = emitted s
  /\ (forall k, In k (completedTasks (cleanup s)) ->
                In k (completedTasks s)).
Proof.
  unfold cleanup. destruct (Nat.ltb 1000 (JsSet.size (completedTasks s)));
    [| repeat split; auto].
  generalize (firstn (JsSet.size (completedTasks s) - 1000)
                (completedTasks s)).
  intros l. revert s.
  induction l as [| d l IH]; intros s; simpl; [repeat split; auto |].
  destruct (evictable d); [| apply IH].
  specialize (IH (setTaskDependencies
                    (JsMap.delete d (taskDependencies s))
                    (setCompletedTasks (JsSet.delete d (completedTasks s))
                       s))).
  simpl in IH. destruct IH as (H1 & H2 & H3 & H4 & H5 & H6).
  repeat split; auto.
  intros k Hk. apply H6 in Hk. now apply mem_delete in Hk.
Qed.

Lemma Evolves_cleanup s : Evolves s (cleanup s).
Proof.
  destruct (cleanup_fields s) as (H1 & _ & _ & _ & _ & H6).
  now apply Evolves_same_tasks.
Qed.

Lemma runCallback_returns cb s :
  exists s', runCallback config cb s = Some s' /\ Evolves s s'.
Proof.
  destruct cb as [taskId ms | taskId |]; simpl.
  - destruct (failTask_returns taskId (TaskTimeoutError taskId ms) s)
      as (s' & o & E & H).
    rewrite E. simpl. eauto.
  - eexists. split; [reflexivity | apply Evolves_startTask].
  - eexists. split; [reflexivity | apply Evolves_cleanup].
Qed.

Lemma runOp_returns op s :
  (forall t agent, op <> AssignTask t agent) ->
  (forall taskId result, op <> CompleteTask taskId result) ->
  exists s', runOp config op s = Some s' /\ Evolves s s'.
Proof.
  intros Hna Hnc. destruct op; simpl.
  - eexists. split; [reflexivity |]. now apply Evolves_same_tasks.
  - unfold shutdown.
    destruct (cancelAll_spec "Scheduler shutdown" (JsMap.keys (tasks s)) s)
      as (s1 & E1 & _).
    rewrite E1. eexists. split; [reflexivity |].
    constructor; simpl; intros k; tauto.
  - exfalso. eapply Hna. reflexivity.
  - exfalso. eapply Hnc. reflexivity.
  - destruct (failTask_returns taskId err s) as (s' & o & E & H).
    rewrite E. simpl. eauto.
  - apply cancelTask_returns.
  - unfold cancelAgentTasks.
    destruct (JsMap.get agent (agentTasks s)) as [taskIds |];
      [| eexists; split; [reflexivity | apply Evolves_refl]].
    destruct (cancelAll_spec "Agent terminated" taskIds s)
      as (s1 & E1 & C1 & _).
    rewrite E1. eexists. split; [reflexivity |].
    eapply Evolves_trans.
    + eapply Evolves_Cascade. exact C1.
    + now apply Evolves_same_tasks.
  - eexists. split; [reflexivity | apply Evolves_reschedule].
  - unfold performMaintenance.
    set (body := fun taskId acc => _).
    assert (Hbody : forall k st, exists st', body k st = Some st'
                                             /\ Evolves st st').
    { intros k st. unfold body.
      destruct (JsMap.get k (tasks st)) as [y |];
        [| eexists; split; [reflexivity | apply Evolves_refl]].
      destruct (status (task y));
        try (eexists; split; [reflexivity | apply Evolves_refl]).
      destruct (startedAt (task y)) as [started' |];
        [| eexists; split; [reflexivity | apply Evolves_refl]].
      destruct (resourceTimeout config * 2 <? clock (cleanup s) - started')%Z;
        [| eexists; split; [reflexivity | apply Evolves_refl]].
      destruct (failTask_returns k
                  (TaskTimeoutError k (clock (cleanup s) - started')) st)
        as (st' & o & E & H).
      rewrite E. simpl. eauto. }
    destruct (forEach_total body
                (fun k st =>
                   let (st', H) := Hbody k st in ex_intro _ st' (proj1 H))
                (JsMap.keys (tasks (cleanup s))) (cleanup s)) as [s1 E1].
    rewrite E1. eexists. split; [reflexivity |].
    eapply Evolves_trans; [apply Evolves_cleanup |].
    eapply (Evolves_forEach body); [| exact E1].
    intros k st st' E. destruct (Hbody k st) as (st2 & E2 & H). congruence.
  - eexists. split; [reflexivity |]. now apply Evolves_same_tasks.
  - unfold fireTimer.
    destruct (find (fun tm => Nat.eqb (handle tm) h) (timers s)) as [tm |];
      [| eexists; split; [reflexivity | apply Evolves_refl]].
    destruct (clock s <? due tm)%Z;
      [eexists; split; [reflexivity | apply Evolves_refl] |].
    set (s1 := if repeats tm then _ else _).
    destruct (runCallback_returns (callback tm) s1) as (s' & E & H).
    exists s'. split; [exact E |].
    eapply Evolves_trans; [| exact H].
    subst s1. destruct (repeats tm); now apply Evolves_same_tasks.
Qed.

End Invariants.

(** ** Invariants of the runs *)

Section Runs.

Variable config : CoordinationConfig.

(** No active task is in a status other than [running] and [queued]. *)
Definition activeStatuses (s : Scheduler) : Prop :=
  forall k v, In (k, v) (tasks s) -> okStatus (status (task v)).

(** No id is both a key of [tasks] and in the completed-id set. *)
Definition exclusive (s : Scheduler) : Prop :=
  forall k v, In (k, v) (tasks s) -> ~ In k (completedTasks s).

Lemma Evolves_activeStatuses s s' :
  Evolves s s' -> activeStatuses s -> activeStatuses s'.
Proof.
  intros [T _] H k v' Hin. destruct (T k v' Hin) as [v [Hv [Hs | Hs]]].
  - rewrite Hs. eapply H; eassumption.
  - exact Hs.
Qed.

Lemma Evolves_exclusive s s' : Evolves s s' -> exclusive s -> exclusive s'.
Proof.
  intros [T C] H k v' Hin Hc. destruct (T k v' Hin) as [v [Hv _]].
  eapply H; eauto.
Qed.

(** The scheduler when [assignTask] turns to [startTask]. *)
Lemma assignTask_tasks t agent s :
  fst (assignTask config t agent s) = s
  \/ (exists x,
        tasks (fst (assignTask config t agent s))
        = JsMap.set (id t) x (tasks s)
        /\ status (task x) = running
        /\ completedTasks (fst (assignTask config t agent s))
           = completedTasks s).
Proof.
  unfold assignTask.
  destruct (Nat.ltb 0 (List.length (dependencies t))
            && Nat.ltb 0 (List.length (unmetDependencies t s)));
    [left; reflexivity | right].
  rewrite register_loop.
  set (x := mkScheduled _ _ _ _ _).
  set (s3 := setTaskDependencies _ _).
  assert (Hx : JsMap.get (id t) (tasks s3) = Some x)
    by (subst s3; simpl; apply get_set_same).
  simpl. rewrite (startTask_active _ _ _ _ Hx). simpl.
  exists (started s3 x). rewrite set_set. repeat split.
Qed.

Lemma assignTask_activeStatuses t agent s :
  activeStatuses s -> activeStatuses (fst (assignTask config t agent s)).
Proof.
  intros H. destruct (assignTask_tasks t agent s) as [E | [x [Ht [Hs _]]]].
  - now rewrite E.
  - intros k v Hin. rewrite Ht in Hin. apply In_set in Hin.
    destruct Hin as [[= -> ->] | Hin]; [left; exact Hs | eauto].
Qed.

Lemma assignTask_exclusive t agent s :
  ~ In (id t) (completedTasks s) ->
  exclusive s -> exclusive (fst (assignTask config t agent s)).
Proof.
  intros Hfresh H.
  destruct (assignTask_tasks t agent s) as [E | [x [Ht [_ Hc]]]].
  - now rewrite E.
  - intros k v Hin. rewrite Hc. rewrite Ht in Hin. apply In_set in Hin.
    destruct Hin as [[= -> ->] | Hin]; [exact Hfresh | eauto].
Qed.

Lemma completeTask_preserves taskId result s :
  (activeStatuses s ->
   activeStatuses (fst (completeTask config taskId result s)))
  /\ (exclusive s -> exclusive (fst (completeTask config taskId result s))).
Proof.
  destruct (JsMap.get taskId (tasks s)) as [x |] eqn:E.
  - rewrite (completeTask_active config _ _ _ _ E). simpl.
    pose proof (Evolves_startDependents config (dependentsOf taskId s)
                  (finished taskId result x s)) as Ev.
    split; intros H.
    + apply (Evolves_activeStatuses _ _ Ev).
      intros k v Hin. simpl in Hin. apply In_delete in Hin.
      destruct Hin. eauto.
    + apply (Evolves_exclusive _ _ Ev).
      intros k v Hin Hc. simpl in Hin, Hc. apply In_delete in Hin.
      destruct Hin as [Hin Hne]. apply mem_add in Hc.
      destruct Hc as [-> | Hc]; [tauto | eapply H; eauto].
  - unfold completeTask. rewrite E. simpl. tauto.
Qed.

Lemma runOp_activeStatuses op s s' :
  runOp config op s = Some s' -> activeStatuses s -> activeStatuses s'.
Proof.
  intros E H.
  destruct op;
    try (match type of E with
         | runOp _ ?o _ = _ =>
             destruct (runOp_returns config o s)
               as (s2 & E2 & Ev); [intros; discriminate .. |]
         end;
         rewrite E in E2; injection E2 as <-;
         exact (Evolves_activeStatuses _ _ Ev H)).
  - simpl in E. injection E as <-. now apply assignTask_activeStatuses.
  - simpl in E. injection E as <-. now apply completeTask_preserves.
Qed.

Lemma run_activeStatuses ops :
  forall s s', run config ops s = Some s' ->
               activeStatuses s -> activeStatuses s'.
Proof.
  unfold run. induction ops as [| op ops IH]; intros s s'; simpl.
  - now intros [= <-].
  - destruct (runOp config op s) as [s1 |] eqn:E; [| discriminate].
    intros Hrun H. eapply IH; [exact Hrun |].
    eapply runOp_activeStatuses; eassumption.
Qed.

(** Every call returns: no run is cut short by the fuel of the cascade. *)
Lemma runOp_total op s : exists s', runOp config op s = Some s'.
Proof.
  destruct op;
    try (match goal with
         | |- exists _, runOp _ ?o _ = _ =>
             destruct (runOp_returns config o s)
               as (s2 & E2 & _); [intros; discriminate .. |]
         end; eauto);
    simpl; eauto.
Qed.

Lemma run_total ops s : exists s', run config ops s = Some s'.
Proof. apply forEach_total. apply runOp_total. Qed.

(** *** Runs in which no id is assigned once it is completed *)

Definition freshAssign (op : Op) (s : Scheduler) : bool :=
  match op with
  | AssignTask t _ => negb (JsSet.has (id t) (completedTasks s))
  | _ => true
  end.

Definition runFresh (ops : list Op) (s : Scheduler) : option Scheduler :=
  forEach
    (fun op acc => if freshAssign op acc then runOp config op acc else None)
    ops s.

Lemma runOp_exclusive op s s' :
  freshAssign op s = true ->
  runOp config op s = Some s' -> exclusive s -> exclusive s'.
Proof.
  intros Hf E H.
  destruct op;
    try (match type of E with
         | runOp _ ?o _ = _ =>
             destruct (runOp_returns config o s)
               as (s2 & E2 & Ev); [intros; discriminate .. |]
         end;
         rewrite E in E2; injection E2 as <-;
         exact (Evolves_exclusive _ _ Ev H)).
  - simpl in E. injection E as <-. simpl in Hf.
    apply negb_true_iff, has_not_In in Hf.
    now apply assignTask_exclusive.
  - simpl in E. injection E as <-. now apply completeTask_preserves.
Qed.

End Runs.

(** ** The bounded history *)

Section History.

(** The loop of [cleanup] over the ids it visits. *)
Definition evict (l : list string) (s : Scheduler) : Scheduler :=
  fold_left
    (fun acc taskId =>
       if evictable taskId
       then
         setTaskDependencies (JsMap.delete taskId (taskDependencies acc))
           (setCompletedTasks (JsSet.delete taskId (completedTasks acc)) acc)
       else acc)
    l s.

Lemma cleanup_evict s :
  cleanup s
  = if Nat.ltb 1000 (JsSet.size (completedTasks s))
    then
      evict (firstn (JsSet.size (completedTasks s) - 1000) (completedTasks s))
        s
    else s.
Proof. reflexivity. Qed.

Lemma set_delete_absent x l : ~ In x l -> JsSet.delete x l = l.
Proof.
  intros H. unfold JsSet.delete. induction l as [| y l IH]; simpl;
    [reflexivity |].
  destruct (String.eqb_spec x y) as [-> | Hne]; simpl.
  - exfalso. apply H. now left.
  - rewrite IH; [reflexivity |]. intros Hin. apply H. now right.
Qed.

Lemma set_delete_head x l : ~ In x l -> JsSet.delete x (x :: l) = l.
Proof.
  intros H. unfold JsSet.delete. simpl. rewrite String.eqb_refl. simpl.
  now apply set_delete_absent.
Qed.

Definition deleteAll (l : list string) (m : JsMap.t JsSet.t)
  : JsMap.t JsSet.t :=
  fold_left (fun acc k => JsMap.delete k acc) l m.

Lemma get_deleteAll l :
  forall m k,
    JsMap.get k (deleteAll l m)
    = if existsb (String.eqb k) l then None else JsMap.get k m.
Proof.
  unfold deleteAll.
  induction l as [| e l IH]; intros m k; simpl; [reflexivity |].
  rewrite IH, get_delete.
  destruct (String.eqb k e); simpl; [| reflexivity].
  now destruct (existsb (String.eqb k) l).
Qed.

Lemma evict_spec l :
  forall rest s,
    completedTasks s = l ++ rest -> NoDup (l ++ rest) ->
    (forall e, In e l -> e <> "") ->
    evict l s
    = setTaskDependencies (deleteAll l (taskDependencies s))
        (setCompletedTasks rest s).
Proof.
  unfold evict, deleteAll.
  induction l as [| e l IH]; intros rest s Hc Hnd Hne; simpl.
  - simpl in Hc. rewrite <- Hc. now destruct s.
  - assert (He : evictable e = true).
    { unfold evictable. apply negb_true_iff, String.eqb_neq.
      apply Hne. now left. }
    rewrite He. simpl in Hnd. inversion Hnd as [| ? ? Hnin Hnd']; subst.
    rewrite (IH rest).
    + reflexivity.
    + simpl. rewrite Hc. simpl. now apply set_delete_head.
    + exact Hnd'.
    + intros e' He'. apply Hne. now right.
Qed.

(** C8, as amended.  Nothing caps the completed-id set between two runs of
    [cleanup].  A run of [cleanup] on a set of at most 1000 ids changes
    nothing; on a larger set whose surplus ids are not the empty string it
    leaves exactly the 1000 newest ids, in order, deletes the dependents
    entry of each evicted id and of no other id, and touches nothing else.
    An evicted id is then an unmet dependency: [assignTask] refuses a task
    that lists it, naming it in the [TaskDependencyError], and
    [canStartTask] is false for such a task. *)
Theorem cleanup_evicts_oldest (s : Scheduler) :
  NoDup (completedTasks s) ->
  (JsSet.size (completedTasks s) <= 1000 -> cleanup s = s)
  /\ (1000 < JsSet.size (completedTasks s) ->
      (forall e,
          In e (firstn (JsSet.size (completedTasks s) - 1000)
                  (completedTasks s)) ->
          e <> "") ->
      completedTasks (cleanup s)
      = skipn (JsSet.size (completedTasks s) - 1000) (completedTasks s)
      /\ JsSet.size (completedTasks (cleanup s)) = 1000
      /\ tasks (cleanup s) = tasks s
      /\ agentTasks (cleanup s) = agentTasks s
      /\ (forall k,
            ~ In k (firstn (JsSet.size (completedTasks s) - 1000)
                      (completedTasks s)) ->
            JsMap.get k (taskDependencies (cleanup s))
            = JsMap.get k (taskDependencies s))
      /\ (forall e,
            In e (firstn (JsSet.size (completedTasks s) - 1000)
                    (completedTasks s)) ->
            JsMap.get e (taskDependencies (cleanup s)) = None
            /\ JsSet.has e (completedTasks (cleanup s)) = false
            /\ (forall t, In e (dependencies t) ->
                          canStartTask t (cleanup s) = false)
            /\ (forall config t agent,
                   In e (dependencies t) ->
                   exists unmet,
                     assignTask config t agent (cleanup s)
                     = (cleanup s, Threw (TaskDependencyError (id t) unmet))
                     /\ In e unmet))).
Proof.
  intros Hnd. rewrite cleanup_evict. split.
  - intros Hle. apply Nat.ltb_ge in Hle. now rewrite Hle.
  - intros Hlt Hne. pose proof Hlt as Hlt'. apply Nat.ltb_lt in Hlt'.
    rewrite Hlt'.
    set (n := JsSet.size (completedTasks s) - 1000) in *.
    assert (Hsplit : completedTasks s
                     = firstn n (completedTasks s)
                         ++ skipn n (completedTasks s))
      by (symmetry; apply firstn_skipn).
    assert (Hnd' : NoDup (firstn n (completedTasks s)
                            ++ skipn n (completedTasks s)))
      by now rewrite <- Hsplit.
    rewrite (evict_spec _ _ s Hsplit Hnd' Hne). simpl.
    assert (Hgone : forall e, In e (firstn n (completedTasks s)) ->
                      JsSet.has e (skipn n (completedTasks s)) = false).
    { intros e He. apply has_not_In. intros Hin.
      revert Hnd' He Hin. generalize (firstn n (completedTasks s)) as l1.
      generalize (skipn n (completedTasks s)) as l2.
      intros l2 l1. induction l1 as [| y l1 IH]; simpl; [tauto |].
      intros Hd [-> | He] Hin; inversion Hd; subst.
      - match goal with H : ~ In _ _ |- _ => apply H end.
        apply in_app_iff. now right.
      - now apply IH. }
    split; [reflexivity |].
    split.
    { unfold JsSet.size in *. rewrite length_skipn. subst n. lia. }
    split; [reflexivity |]. split; [reflexivity |].
    split.
    { intros k Hk. rewrite get_deleteAll.
      destruct (existsb (String.eqb k) (firstn n (completedTasks s))) eqn:E;
        [| reflexivity].
      exfalso. apply Hk. now apply has_In. }
    intros e He.
    split.
    { rewrite get_deleteAll.
      assert (E : existsb (String.eqb e) (firstn n (completedTasks s)) = true)
        by now apply has_In.
      now rewrite E. }
    split; [now apply Hgone |].
    split.
    { intros t Ht. unfold canStartTask. simpl.
      destruct (forallb _ (dependencies t)) eqn:E; [| reflexivity].
      rewrite forallb_forall in E. pose proof (E e Ht) as E1.
      simpl in E1. rewrite (Hgone e He) in E1. discriminate. }
    intros config t agent Ht.
    eexists. apply (assignTask_refuses config t agent _ e Ht).
    simpl. now apply Hgone.
Qed.

End History.

(** ** Health *)

Section Health.

Variable config : CoordinationConfig.

Lemma bump_keeps l :
  forall m,
    Forall okStatus l ->
    m_completed (fold_left (fun acc st => bump st acc) l m) = m_completed m
    /\ m_completedTasks (fold_left (fun acc st => bump st acc) l m)
       = m_completedTasks m
    /\ m_activeTasks (fold_left (fun acc st => bump st acc) l m)
       = m_activeTasks m
    /\ m_failed (fold_left (fun acc st => bump st acc) l m) = m_failed m
    /\ m_cancelled (fold_left (fun acc st => bump st acc) l m)
       = m_cancelled m.
Proof.
  induction l as [| st l IH]; intros m H; simpl; [repeat split |].
  inversion H as [| ? ? Hst Hl]; subst.
  destruct (IH (bump st m) Hl) as (H1 & H2 & H3 & H4 & H5).
  rewrite H1, H2, H3, H4, H5.
  destruct Hst as [-> | ->]; repeat split.
Qed.

Lemma tasksByStatus_fold (l : list (string * ScheduledTask)) m :
  fold_left (fun acc scheduled => bump (status (task scheduled)) acc)
    (map snd l) m
  = fold_left (fun acc st => bump st acc)
      (map (fun p => status (task (snd p))) l) m.
Proof.
  revert m. induction l as [| p l IH]; intros m; simpl; [reflexivity |].
  apply IH.
Qed.

(** C10.  [getHealthStatus] answers [healthy = true], with no error, in
    every state whatever, reachable or not; and in every state a run can
    reach, the [completed] metric is the size the completed-id set has at
    that moment, as is [completedTasks], while [activeTasks] is the size of
    [tasks] and [failed] and [cancelled] are 0. *)
Theorem health_is_constant :
  (forall s, healthy (getHealthStatus s) = true
             /\ health_error (getHealthStatus s) = None)
  /\ (forall s,
        reachable config s ->
        exists m,
          metrics (getHealthStatus s) = Some m
          /\ m_completed m = JsSet.size (completedTasks s)
          /\ m_completedTasks m = JsSet.size (completedTasks s)
          /\ m_activeTasks m = JsMap.size (tasks s)
          /\ m_failed m = 0
          /\ m_cancelled m = 0).
Proof.
  split; [intros s; split; reflexivity |].
  intros s [ops Hrun].
  assert (Hst : activeStatuses s).
  { eapply run_activeStatuses; [exact Hrun |]. intros k v []. }
  unfold getHealthStatus. simpl. eexists. split; [reflexivity |].
  rewrite tasksByStatus_fold.
  apply bump_keeps. apply Forall_forall. intros st Hin.
  apply in_map_iff in Hin. destruct Hin as [[k v] [<- Hin]].
  eapply Hst. exact Hin.
Qed.

(** C6, as amended.  Along a run in which [assignTask] is never called with
    an id that is in the completed-id set at that moment, no id is both
    active and in the completed-id set: every call preserves this, from any
    state where it holds, and so it holds in every state such a run reaches
    from the initial scheduler. *)
Theorem exclusive_in_fresh_runs (ops : list Op) (s0 s : Scheduler) :
  (forall k, ~ (active k s0 /\ In k (completedTasks s0))) ->
  runFresh config ops s0 = Some s ->
  forall k, ~ (active k s /\ In k (completedTasks s)).
Proof.
  intros H0 Hrun.
  assert (Hex : exclusive s).
  { assert (E0 : exclusive s0).
    { intros k v Hin Hc. apply (H0 k). split; [| exact Hc].
      eapply In_get. exact Hin. }
    clear H0. revert s0 s Hrun E0. unfold runFresh.
    induction ops as [| op ops IH]; intros s0 s; simpl.
    - now intros [= <-].
    - destruct (freshAssign op s0) eqn:Ef; [| discriminate].
      destruct (runOp config op s0) as [s1 |] eqn:E; [| discriminate].
      intros Hrun E0. eapply IH; [exact Hrun |].
      eapply runOp_exclusive; eassumption. }
  intros k [Ha Hc]. unfold active in Ha.
  destruct (JsMap.get k (tasks s)) as [v |] eqn:E; [| tauto].
  apply get_In in E. exact (Hex k v E Hc).
Qed.

End Health.

(** ** Runs of the scheduler under its default configuration *)

Module Examples.

(** [maxRetries], [retryDelay] and [resourceTimeout] as the default
    configuration of the repository sets them. *)
Definition config : CoordinationConfig := mkConfig 3 1000 60000.

Definition newTask (taskId : string) (deps : list string) : Task :=
  mkTask taskId deps pending None None None None None.

Definition after (ops : list Op) : Scheduler :=
  match run config ops init with
  | Some s => s
  | None => init
  end.

(** A is completed and then assigned again under the same id. *)
Definition reassign : list Op :=
  [ AssignTask (newTask "A" []) "agent-1";
    CompleteTask "A" "ok";
    AssignTask (newTask "A" []) "agent-1" ].

(** A, B and C are active, B and C registered as dependents of A. *)
Definition fan : list Op :=
  [ AssignTask (newTask "A" []) "agent-1";
    CompleteTask "A" "ok";
    AssignTask (newTask "B" ["A"]) "agent-1";
    AssignTask (newTask "C" ["A"]) "agent-2";
    AssignTask (newTask "A" []) "agent-1" ].

(** A, B and C are active, B registered as a dependent of A and C of B. *)
Definition chain : list Op :=
  [ AssignTask (newTask "A" []) "agent-1";
    CompleteTask "A" "ok";
    AssignTask (newTask "B" ["A"]) "agent-1";
    CompleteTask "B" "ok";
    AssignTask (newTask "C" ["B"]) "agent-2";
    AssignTask (newTask "B" ["A"]) "agent-1";
    AssignTask (newTask "A" []) "agent-1" ].


Definition fanState : Scheduler := Eval vm_compute in after fan.
Definition chainState : Scheduler := Eval vm_compute in after chain.

Definition recordOf (k : string) (s : Scheduler) : ScheduledTask :=
  match JsMap.get k (tasks s) with
  | Some x => x
  | None => mkScheduled (newTask k []) "" 0 None None
  end.

(** T is assigned and, while it runs, its agent's tasks are rescheduled. *)
Definition rescheduled : list Op :=
  [ AssignTask (newTask "T" []) "agent-1";
    RescheduleAgentTasks "agent-1" ].

(** T fails once and is reported complete during the backoff. *)
Definition completedInBackoff : list Op :=
  [ AssignTask (newTask "T" []) "agent-1";
    FailTask "T" (ExecutionError "boom");
    CompleteTask "T" "ok" ].

(** [n] tasks named "0", "1", ... are assigned and completed in turn. *)
Definition taskName (n : nat) : string :=
  NilEmpty.string_of_uint (Nat.to_uint n).

Definition flood (n : nat) : list Op :=
  flat_map
    (fun i =>
       [ AssignTask (newTask (taskName i) []) "agent-1";
         CompleteTask (taskName i) "ok" ])
    (seq 0 n).

Definition crowded : Scheduler := Eval vm_compute in after (flood 1001).

(** A is completed and nothing is active. *)
Definition onlyADone : Scheduler :=
  Eval vm_compute in
    after [ AssignTask (newTask "A" []) "agent-1"; CompleteTask "A" "ok" ].

Definition fanA : ScheduledTask := Eval vm_compute in recordOf "A" fanState.
Definition fanB : ScheduledTask := Eval vm_compute in recordOf "B" fanState.
Definition fanC : ScheduledTask := Eval vm_compute in recordOf "C" fanState.

(** B, which depends on the completed A, is assigned and then cancelled. *)
Definition orderly : list Op :=
  [ AssignTask (newTask "A" []) "agent-1";
    CompleteTask "A" "ok";
    AssignTask (newTask "B" ["A"]) "agent-1";
    CancelTask "B" "no longer needed" ].

Definition orderlyState : Scheduler := Eval vm_compute in after orderly.

(** T is assigned to agent-1 and, while it is active, to agent-2. *)
Definition handedOver : list Op :=
  [ AssignTask (newTask "T" []) "agent-1";
    AssignTask (newTask "T" []) "agent-2" ].

Definition handedOverState : Scheduler :=
  Eval vm_compute in after handedOver.

(** T has failed once and waits for its retry. *)
Definition inBackoff : list Op :=
  [ AssignTask (newTask "T" []) "agent-1";
    FailTask "T" (ExecutionError "boom") ].

Definition inBackoffState : Scheduler := Eval vm_compute in after inBackoff.

(** A and C are active, B is completed; B is registered as a dependent of A
    and C as a dependent of B. *)
Definition orphan : list Op :=
  [ AssignTask (newTask "A" []) "agent-1";
    CompleteTask "A" "ok";
    AssignTask (newTask "B" ["A"]) "agent-1";
    CompleteTask "B" "ok";
    AssignTask (newTask "C" ["B"]) "agent-2";
    AssignTask (newTask "A" []) "agent-1" ].

Definition orphanState : Scheduler := Eval vm_compute in after orphan.




(** What a test would look at in a state. *)
Definition view (s : Scheduler)
  : list (string * TaskStatus * nat) * list Callback :=
  (map (fun p => (fst p, status (task (snd p)), attempts (snd p))) (tasks s),
   map callback (timers s)).

Fixpoint nodupb (l : list string) : bool :=
  match l with
  | [] => true
  | x :: l' => negb (JsSet.has x l') && nodupb l'
  end.

Lemma nodupb_NoDup l : nodupb l = true -> NoDup l.
Proof.
  induction l as [| x l IH]; simpl; [constructor |].
  intros H. apply andb_true_iff in H. destruct H as [H1 H2].
  constructor; [| now apply IH].
  apply negb_true_iff in H1. now apply has_not_In.
Qed.

End Examples.

(** ** The claims on concrete runs *)

Import Examples.

Lemma assignTask_unmet_dependency_witness :
  (exists depId,
      In depId (dependencies (newTask "B" ["A"]))
      /\ JsSet.has depId (completedTasks init) = false)
  /\ assignTask config (newTask "B" ["A"]) "agent-1" init
     = (init, Threw (TaskDependencyError "B" ["A"])).
Proof.
  assert (H : exists depId,
             In depId (dependencies (newTask "B" ["A"]))
             /\ JsSet.has depId (completedTasks init) = false)
    by (exists "A"; split; [left; reflexivity | reflexivity]).
  split; [exact H |].
  destruct (assignTask_unmet_dependency config (newTask "B" ["A"]) "agent-1"
              init H) as (unmet & E & _ & _ & Hf).
  rewrite E, Hf. reflexivity.
Defined.

Lemma assignTask_starts_witness :
  (forall depId,
      In depId (dependencies (newTask "B" ["A"])) ->
      JsSet.has depId (completedTasks onlyADone) = true)
  /\ exists s',
      assignTask config (newTask "B" ["A"]) "agent-1" onlyADone
      = (s', Returned)
      /\ emitted s' = emitted onlyADone ++ [TASK_STARTED "B" "agent-1"]
      /\ listed "A" "B" (taskDependencies s').
Proof.
  assert (H : forall depId,
             In depId (dependencies (newTask "B" ["A"])) ->
             JsSet.has depId (completedTasks onlyADone) = true)
    by (intros d [<- | []]; reflexivity).
  split; [exact H |].
  destruct (assignTask_starts config (newTask "B" ["A"]) "agent-1" onlyADone
              H) as (s' & E & _ & _ & Hd & He & _).
  exists s'. split; [exact E | split; [exact He |]].
  apply Hd. left. reflexivity.
Defined.

Lemma not_found_leaves_state_witness :
  JsMap.get "ghost" (tasks fanState) = None
  /\ completeTask config "ghost" "ok" fanState
     = (fanState, Threw (TaskError "Task not found: ghost"))
  /\ failTask config "ghost" (ExecutionError "boom") fanState
     = Some (fanState, Threw (TaskError "Task not found: ghost")).
Proof.
  split; [reflexivity |].
  exact (not_found_leaves_state config "ghost" "ok" (ExecutionError "boom")
           fanState eq_refl).
Defined.

Lemma completeTask_effects_witness :
  JsMap.get "A" (tasks fanState) = Some fanA
  /\ exists s',
      completeTask config "A" "ok" fanState = (s', Returned)
      /\ inactive "A" s'
      /\ In "A" (completedTasks s').
Proof.
  split; [reflexivity |].
  destruct (completeTask_effects config "A" "ok" fanState fanA eq_refl)
    as (s' & l & new & E & _ & _ & _ & _ & _ & Hi & _ & Hc & _).
  exists s'. split; [exact E | split; [exact Hi |]].
  apply Hc. left. reflexivity.
Defined.


Lemma exclusive_in_fresh_runs_witness :
  (forall k, ~ (active k init /\ In k (completedTasks init)))
  /\ runFresh config orderly init = Some orderlyState
  /\ forall k, ~ (active k orderlyState /\ In k (completedTasks orderlyState)).
Proof.
  assert (H : forall k, ~ (active k init /\ In k (completedTasks init)))
    by (intros k [_ []]).
  assert (E : runFresh config orderly init = Some orderlyState)
    by (vm_compute; reflexivity).
  split; [exact H | split; [exact E |]].
  exact (exclusive_in_fresh_runs config orderly init orderlyState H E).
Defined.

Lemma cancelTask_cascade_witness :
  JsMap.get "A" (tasks fanState) = Some fanA
  /\ exists s' ev,
      cancelTask "A" "operator request" fanState = Some s'
      /\ emitted s'
         = emitted fanState ++ TASK_CANCELLED "A" "operator request" :: ev
      /\ inactive "A" s' /\ inactive "B" s' /\ inactive "C" s'
      /\ In (TASK_CANCELLED "B" PARENT_CANCELLED) ev
      /\ In (TASK_CANCELLED "C" PARENT_CANCELLED) ev.
Proof.
  split; [reflexivity |].
  destruct (cancelTask_cascade "A" "operator request" fanState) as [_ H].
  destruct (H fanA eq_refl)
    as (s' & ev & rel & E & _ & He & _ & _ & _ & _ & Hi & _ & _ & _ & _ & Hex
        & Hc).
  assert (Hroot : cascadesTo fanState "A" "A")
    by (apply cascades_root; vm_compute; discriminate).
  assert (HB : cascadesTo fanState "A" "B").
  { apply (cascades_dependent fanState "A" "A" "B" ["B"; "C"] Hroot);
      [reflexivity | simpl; tauto | vm_compute; discriminate]. }
  assert (HC : cascadesTo fanState "A" "C").
  { apply (cascades_dependent fanState "A" "A" "C" ["B"; "C"] Hroot);
      [reflexivity | simpl; tauto | vm_compute; discriminate]. }
  destruct (Hc "B" fanB HB ltac:(discriminate) eq_refl) as (EB & _).
  destruct (Hc "C" fanC HC ltac:(discriminate) eq_refl) as (EC & _).
  assert (IB : inactive "B" s') by (apply Hex; now right).
  assert (IC : inactive "C" s') by (apply Hex; now right).
  exists s', ev. repeat (split; [assumption |]). assumption.
Defined.

Lemma cleanup_evicts_oldest_witness :
  NoDup (completedTasks crowded)
  /\ 1000 < JsSet.size (completedTasks crowded)
  /\ (forall e,
        In e (firstn (JsSet.size (completedTasks crowded) - 1000)
                (completedTasks crowded)) ->
        e <> "")
  /\ JsSet.size (completedTasks (cleanup crowded)) = 1000
  /\ JsSet.has "0" (completedTasks (cleanup crowded)) = false.
Proof.
  assert (Hnd : NoDup (completedTasks crowded))
    by (apply nodupb_NoDup; vm_compute; reflexivity).
  assert (Hlt : 1000 < JsSet.size (completedTasks crowded))
    by (apply Nat.ltb_lt; vm_compute; reflexivity).
  assert (Hne : forall e,
             In e (firstn (JsSet.size (completedTasks crowded) - 1000)
                     (completedTasks crowded)) ->
             e <> "").
  { replace (firstn (JsSet.size (completedTasks crowded) - 1000)
               (completedTasks crowded)) with ["0"]
      by (vm_compute; reflexivity).
    intros e [<- | []]. discriminate. }
  split; [exact Hnd | split; [exact Hlt | split; [exact Hne |]]].
  destruct (cleanup_evicts_oldest crowded Hnd) as [_ H].
  destruct (H Hlt Hne) as (_ & Hsize & _ & _ & _ & Hev).
  split; [exact Hsize |].
  assert (Hin : In "0"
                  (firstn (JsSet.size (completedTasks crowded) - 1000)
                     (completedTasks crowded))).
  { replace (firstn (JsSet.size (completedTasks crowded) - 1000)
               (completedTasks crowded)) with ["0"]
      by (vm_compute; reflexivity).
    left. reflexivity. }
  destruct (Hev "0" Hin) as (_ & Hh & _). exact Hh.
Defined.

Lemma health_is_constant_witness :
  reachable config fanState
  /\ healthy (getHealthStatus fanState) = true
  /\ exists m,
      metrics (getHealthStatus fanState) = Some m
      /\ m_completed m = JsSet.size (completedTasks fanState).
Proof.
  assert (R : reachable config fanState)
    by (exists fan; vm_compute; reflexivity).
  split; [exact R |].
  destruct (health_is_constant config) as [H1 H2].
  split; [apply H1 |].
  destruct (H2 fanState R) as (m & E & Hc & _).
  exists m. split; assumption.
Defined.

(** The [completed] metric is not a count of completions: an id completed
    twice is one member of the set. *)
Example completed_metric_counts_members :
  option_map (fun s => option_map m_completed (metrics (getHealthStatus s)))
    (run config (reassign ++ [CompleteTask "A" "again"]) init)
  = Some (Some 1).
Proof. vm_compute. reflexivity. Qed.

(** The scenario of C7: A is cancelled with the caller's reason, B and C with
    "Parent task cancelled", in registration order, and all three are
    released as [cancelled]. *)
Example cancel_fan :
  option_map
    (fun s =>
       (skipn (List.length (emitted fanState)) (emitted s),
        map (fun p => (fst p, status (task (snd p))))
          (skipn (List.length (released fanState)) (released s)),
        view s))
    (cancelTask "A" "operator request" fanState)
  = Some
      ([ TASK_CANCELLED "A" "operator request";
         TASK_CANCELLED "B" "Parent task cancelled";
         TASK_CANCELLED "C" "Parent task cancelled" ],
       [ ("A", cancelled); ("B", cancelled); ("C", cancelled) ],
       ([], [])).
Proof. vm_compute. reflexivity. Qed.

(** The scenario of C5: three failures, retries armed with 1000 and 2000
    milliseconds, the third failure terminal. *)
Example three_attempts_two_retries :
  option_map (fun s => map (fun tm => (callback tm, delay tm)) (timers s))
    (run config
       [ AssignTask (newTask "T" []) "agent-1";
         FailTask "T" (ExecutionError "boom") ]
       init)
  = Some [(onRetry "T", 1000%Z)]
  /\ option_map
       (fun s => map (fun tm => (callback tm, delay tm)) (timers s))
       (run config
          [ AssignTask (newTask "T" []) "agent-1";
            FailTask "T" (ExecutionError "boom");
            Advance 1000; Fire 1;
            FailTask "T" (ExecutionError "boom") ]
          init)
     = Some [(onRetry "T", 2000%Z)]
  /\ option_map
       (fun s =>
          (view s,
           map (fun p => (fst p, status (task (snd p)), attempts (snd p)))
             (released s),
           List.length
             (filter
                (fun e =>
                   match e with TASK_STARTED _ _ => true | _ => false end)
                (emitted s))))
       (run config
          [ AssignTask (newTask "T" []) "agent-1";
            FailTask "T" (ExecutionError "boom");
            Advance 1000; Fire 1;
            FailTask "T" (ExecutionError "boom");
            Advance 2000; Fire 3;
            FailTask "T" (ExecutionError "boom") ]
          init)
     = Some (([], []), [("T", failed, 3)], 3).
Proof. repeat split; vm_compute; reflexivity. Qed.

(** C4 as the specification states it fails.  T is assigned to agent-1 and
    then, while it is active, to agent-2: [completeTask] takes T out of the
    set of agent-2, the agent of its record, and the set of agent-1 keeps
    it.  And when T has failed once and waits for its retry,
    [completeTask] leaves the retry timer pending. *)
Lemma completeTask_keeps_a_listing_and_a_timer :
  (reachable config handedOverState
   /\ active "T" handedOverState
   /\ exists s',
       completeTask config "T" "ok" handedOverState = (s', Returned)
       /\ inactive "T" s'
       /\ listed "agent-1" "T" (agentTasks s')
       /\ getAgentTaskCount "agent-1" s' = 1)
  /\ (reachable config inBackoffState
      /\ active "T" inBackoffState
      /\ exists s' tm,
          completeTask config "T" "ok" inBackoffState = (s', Returned)
          /\ In tm (timers inBackoffState)
          /\ callback tm = onRetry "T"
          /\ In tm (timers s')).
Proof.
  split.
  - split; [exists handedOver; vm_compute; reflexivity |].
    split; [vm_compute; discriminate |].
    eexists. split; [vm_compute; reflexivity |].
    split; [reflexivity |]. split; [| reflexivity].
    exists ["T"]. split; [reflexivity | now left].
  - split; [exists inBackoff; vm_compute; reflexivity |].
    split; [vm_compute; discriminate |].
    eexists. exists (mkTimer 1 1000 1000 (onRetry "T") false).
    split; [vm_compute; reflexivity |].
    split; [now left |]. split; [reflexivity | now left].
Qed.


(** C7 as the specification states it fails.  T was assigned to agent-1 and
    then to agent-2: [cancelTask] leaves it in the set of agent-1.  T has
    failed once and waits for its retry: [cancelTask] leaves the retry timer
    pending.  And B is registered as a dependent of A and C as a dependent
    of B, A and C are active and B is not: [cancelTask] on A passes B over
    and does not reach C, which stays [running]. *)
Lemma cancelTask_keeps_a_listing_a_timer_and_a_dependent :
  (reachable config handedOverState
   /\ active "T" handedOverState
   /\ exists s',
       cancelTask "T" "operator request" handedOverState = Some s'
       /\ inactive "T" s'
       /\ listed "agent-1" "T" (agentTasks s'))
  /\ (reachable config inBackoffState
      /\ active "T" inBackoffState
      /\ exists s' tm,
          cancelTask "T" "operator request" inBackoffState = Some s'
          /\ In tm (timers inBackoffState)
          /\ callback tm = onRetry "T"
          /\ In tm (timers s'))
  /\ (reachable config orphanState
      /\ active "A" orphanState
      /\ listed "A" "B" (taskDependencies orphanState)
      /\ listed "B" "C" (taskDependencies orphanState)
      /\ exists s' v,
          cancelTask "A" "operator request" orphanState = Some s'
          /\ inactive "A" s'
          /\ JsMap.get "C" (tasks s') = Some v
          /\ status (task v) = running
          /\ emitted s'
             = emitted orphanState
               ++ [TASK_CANCELLED "A" "operator request"]).
Proof.
  split; [| split].
  - split; [exists handedOver; vm_compute; reflexivity |].
    split; [vm_compute; discriminate |].
    eexists. split; [vm_compute; reflexivity |].
    split; [reflexivity |].
    exists ["T"]. split; [reflexivity | now left].
  - split; [exists inBackoff; vm_compute; reflexivity |].
    split; [vm_compute; discriminate |].
    eexists. exists (mkTimer 1 1000 1000 (onRetry "T") false).
    split; [vm_compute; reflexivity |].
    split; [now left |]. split; [reflexivity | now left].
  - split; [exists orphan; vm_compute; reflexivity |].
    split; [vm_compute; discriminate |].
    split; [exists ["B"]; split; [reflexivity | now left] |].
    split; [exists ["C"]; split; [reflexivity | now left] |].
    eexists. eexists. split; [vm_compute; reflexivity |].
    split; [reflexivity |]. split; [reflexivity |].
    split; reflexivity.
Qed.

(** C6 as the specification states it fails: [assignTask] takes an id that
    is in the completed-id set, and the id is then both active and
    completed. *)
Lemma reassigned_id_is_active_and_completed :
  ~ (forall s,
        reachable config s ->
        forall k, ~ (active k s /\ In k (completedTasks s))).
Proof.
  intros H.
  apply (H (after reassign) ltac:(exists reassign; vm_compute; reflexivity)
           "A").
  split; [vm_compute; discriminate | vm_compute; tauto].
Qed.

(** C8 as the specification states it fails: 1001 completions without a run
    of [cleanup] in between leave 1001 ids in the completed-id set, and
    [getHealthStatus] reports 1001. *)
Lemma history_exceeds_cap_between_cleanups :
  ~ (forall s,
        reachable config s -> JsSet.size (completedTasks s) <= 1000).
Proof.
  intros H.
  assert (R : reachable config crowded)
    by (exists (flood 1001); vm_compute; reflexivity).
  apply H in R. apply Nat.leb_le in R. vm_compute in R. discriminate.
Qed.

(** C9 on the code.  [rescheduleAgentTasks] resets the running task T to
    [queued] and leaves its execution timeout pending; when that timer fires
    it fails the queued task, which arms a retry, and the retry puts T back
    to [running] without any reassignment.  And a retry timer is not held in
    the [timeout] field, so [completeTask] during the backoff leaves it
    pending: once T is assigned again under the same id, the stale retry
    starts it a second time, which arms a second execution timeout while the
    first one stays pending. *)
Theorem stale_timers_still_fire :
  option_map view (run config rescheduled init)
  = Some ([("T", queued, 0)], [onTimeout "T" 60000%Z])
  /\ option_map view
       (run config (rescheduled ++ [Advance 60000; Fire 0]) init)
     = Some ([("T", queued, 1)], [onRetry "T"])
  /\ option_map view
       (run config
          (rescheduled ++ [Advance 60000; Fire 0; Advance 1000; Fire 1])
          init)
     = Some ([("T", running, 1)], [onTimeout "T" 60000%Z])
  /\ option_map view (run config completedInBackoff init)
     = Some ([], [onRetry "T"])
  /\ option_map view
       (run config
          (completedInBackoff
             ++ [ AssignTask (newTask "T" []) "agent-2";
                  Advance 1000; Fire 1 ])
          init)
     = Some
         ([("T", running, 0)],
          [onTimeout "T" 60000%Z; onTimeout "T" 60000%Z]).
Proof. repeat split; vm_compute; reflexivity. Qed.

(** ** The shape the indices keep *)

Lemma keys_set_present {V} k (v v0 : V) m :
  JsMap.get k m = Some v0 -> JsMap.keys (JsMap.set k v m) = JsMap.keys m.
Proof.
  unfold JsMap.keys. induction m as [| [k' v'] m IH]; simpl; [discriminate |].
  destruct (String.eqb_spec k k') as [-> | Hne]; simpl; [reflexivity |].
  intros H. now rewrite IH.
Qed.

Lemma keys_set_absent {V} k (v : V) m :
  JsMap.get k m = None ->
  JsMap.keys (JsMap.set k v m) = JsMap.keys m ++ [k].
Proof.
  unfold JsMap.keys. induction m as [| [k' v'] m IH]; simpl; [reflexivity |].
  destruct (String.eqb_spec k k') as [-> | Hne]; simpl; [discriminate |].
  intros H. now rewrite IH.
Qed.

Lemma keys_delete {V} k (m : JsMap.t V) :
  JsMap.keys (JsMap.delete k m)
  = filter (fun j => negb (String.eqb k j)) (JsMap.keys m).
Proof.
  unfold JsMap.keys, JsMap.delete.
  induction m as [| [k' v'] m IH]; simpl; [reflexivity |].
  destruct (String.eqb k k'); simpl; now rewrite IH.
Qed.

Lemma get_None_keys {V} k (m : JsMap.t V) :
  JsMap.get k m = None <-> ~ In k (JsMap.keys m).
Proof.
  unfold JsMap.keys. induction m as [| [k' v'] m IH]; simpl; [tauto |].
  destruct (String.eqb_spec k k') as [-> | Hne].
  - split; [discriminate | intros H; exfalso; apply H; now left].
  - rewrite IH. split; [intros H [E | E]; [congruence | tauto] | tauto].
Qed.

Lemma NoDup_keys_set {V} k (v : V) m :
  NoDup (JsMap.keys m) -> NoDup (JsMap.keys (JsMap.set k v m)).
Proof.
  intros H. destruct (JsMap.get k m) as [v0 |] eqn:E.
  - now rewrite (keys_set_present k v v0 m E).
  - rewrite (keys_set_absent k v m E).
    apply NoDup_app; [assumption | repeat constructor; simpl; tauto |].
    intros a Ha [<- | []]. now apply get_None_keys in E.
Qed.

Lemma NoDup_keys_delete {V} k (m : JsMap.t V) :
  NoDup (JsMap.keys m) -> NoDup (JsMap.keys (JsMap.delete k m)).
Proof. intros H. rewrite keys_delete. now apply NoDup_filter. Qed.

Lemma NoDup_set_delete x s : NoDup s -> NoDup (JsSet.delete x s).
Proof. intros H. now apply NoDup_filter. Qed.

Lemma listed_deleteFrom_keep k' k x y m :
  listed k y m -> y <> x -> listed k y (deleteFrom k' x m).
Proof.
  intros [st [Hget Hin]] Hne. unfold listed, deleteFrom.
  destruct (JsMap.get k' m) as [st' |] eqn:E; [| eauto].
  rewrite get_set. destruct (String.eqb_spec k k') as [-> | Hk]; [| eauto].
  rewrite Hget in E. injection E as <-.
  eexists. split; [reflexivity |]. apply mem_delete. now split.
Qed.

(** From [s] to [s']: the containers stay duplicate-free, a record that is
    still there is held by the same agent under the same id, and no listing
    of a task that is still active was dropped from the agent index. *)
Record Keeps (s s' : Scheduler) : Prop := {
  k_keys : NoDup (JsMap.keys (tasks s)) -> NoDup (JsMap.keys (tasks s'));
  k_completed : NoDup (completedTasks s) -> NoDup (completedTasks s');
  k_record : forall k v',
      JsMap.get k (tasks s') = Some v' ->
      exists v, JsMap.get k (tasks s) = Some v
                /\ agentId v' = agentId v
                /\ id (task v') = id (task v)
                /\ assignedAgent (task v') = assignedAgent (task v);
  k_listed : forall a k,
      listed a k (agentTasks s) -> active k s' -> listed a k (agentTasks s')
}.

Lemma Keeps_refl s : Keeps s s.
Proof. constructor; eauto. Qed.

Lemma Keeps_trans s s1 s' : Keeps s s1 -> Keeps s1 s' -> Keeps s s'.
Proof.
  intros [K1 C1 R1 L1] [K2 C2 R2 L2]. constructor; auto.
  - intros k v' H. destruct (R2 k v' H) as (v1 & H1 & E1 & E2 & E3).
    destruct (R1 k v1 H1) as (v & H0 & F1 & F2 & F3).
    exists v. repeat split; congruence.
  - intros a k Hl Ha. apply L2; [| exact Ha]. apply L1; [exact Hl |].
    unfold active in *. destruct (JsMap.get k (tasks s')) as [v' |] eqn:E;
      [| tauto].
    destruct (R2 k v' E) as (v1 & H1 & _). congruence.
Qed.

Lemma Keeps_fold {A} (f : A -> Scheduler -> Scheduler) :
  (forall x s, Keeps s (f x s)) ->
  forall l s, Keeps s (fold_left (fun acc x => f x acc) l s).
Proof.
  intros Hf. induction l as [| x l IH]; intros s; simpl.
  - apply Keeps_refl.
  - eapply Keeps_trans; [apply Hf | apply IH].
Qed.

Lemma Keeps_forEach {A} (f : A -> Scheduler -> option Scheduler) :
  (forall x s s', f x s = Some s' -> Keeps s s') ->
  forall l s s', forEach f l s = Some s' -> Keeps s s'.
Proof.
  intros Hf. induction l as [| x l IH]; intros s s'; simpl.
  - intros [= <-]. apply Keeps_refl.
  - destruct (f x s) as [s1 |] eqn:E; [| discriminate].
    intros H. eapply Keeps_trans; [eapply Hf; eassumption | now apply IH].
Qed.

(** A step that touches neither [tasks] nor the agent index. *)
Lemma Keeps_aside s s' :
  tasks s' = tasks s -> agentTasks s' = agentTasks s ->
  (NoDup (completedTasks s) -> NoDup (completedTasks s')) ->
  Keeps s s'.
Proof.
  intros Ht Ha Hc. constructor; auto.
  - now rewrite Ht.
  - intros k v' H. rewrite Ht in H. eauto.
  - intros a k H _. now rewrite Ha.
Qed.

(** A step that rewrites the record under an active key and keeps its
    holder and id. *)
Lemma Keeps_rewrite s s' k x x' :
  JsMap.get k (tasks s) = Some x ->
  tasks s' = JsMap.set k x' (tasks s) ->
  agentTasks s' = agentTasks s -> completedTasks s' = completedTasks s ->
  agentId x' = agentId x -> id (task x') = id (task x) ->
  assignedAgent (task x') = assignedAgent (task x) ->
  Keeps s s'.
Proof.
  intros Hx Ht Ha Hc E1 E2 E3. constructor.
  - rewrite Ht, (keys_set_present k x' x _ Hx). auto.
  - now rewrite Hc.
  - intros j v' H. rewrite Ht, get_set in H.
    destruct (String.eqb_spec j k) as [-> | Hne]; [| eauto].
    injection H as <-. eauto.
  - intros a j H _. now rewrite Ha.
Qed.

(** A step that deletes a key and drops it from one agent's set. *)
Lemma Keeps_remove s s' k a' :
  tasks s' = JsMap.delete k (tasks s) ->
  agentTasks s' = deleteFrom a' k (agentTasks s) ->
  completedTasks s' = completedTasks s ->
  Keeps s s'.
Proof.
  intros Ht Ha Hc. constructor.
  - rewrite Ht. apply NoDup_keys_delete.
  - now rewrite Hc.
  - intros j v' H. rewrite Ht, get_delete in H.
    destruct (String.eqb j k); [discriminate | eauto].
  - intros a j Hl Hact. rewrite Ha. apply listed_deleteFrom_keep; [exact Hl |].
    intros ->. apply Hact. rewrite Ht. apply get_delete_same.
Qed.

Section Shape.

Variable config : CoordinationConfig.

Lemma Keeps_startTask taskId s : Keeps s (startTask config taskId s).
Proof.
  destruct (JsMap.get taskId (tasks s)) as [x |] eqn:E.
  - rewrite (startTask_active config taskId x s E).
    eapply (Keeps_rewrite _ _ taskId x (started s x)); eauto.
  - rewrite startTask_inactive by assumption. apply Keeps_refl.
Qed.

Lemma Keeps_startDependents ds s : Keeps s (startDependents config ds s).
Proof.
  unfold startDependents.
  apply (Keeps_fold
           (fun dependentId acc =>
              match JsMap.get dependentId (tasks acc) with
              | Some dependent =>
                  if canStartTask (task dependent) acc
                  then startTask config dependentId acc
                  else acc
              | None => acc
              end)).
  intros d st. destruct (JsMap.get d (tasks st)) as [y |];
    [| apply Keeps_refl].
  destruct (canStartTask (task y) st);
    [apply Keeps_startTask | apply Keeps_refl].
Qed.

Lemma Keeps_cancelOne taskId reason x s :
  Keeps s (cancelOne taskId reason x s).
Proof.
  destruct (cancelOne_fields taskId reason x s)
    as (Ht & Hag & _ & Hc & _).
  eapply Keeps_remove; eassumption.
Qed.

Lemma Keeps_cancelTaskFuel fuel :
  forall taskId reason s s',
    cancelTaskFuel fuel taskId reason s = Some s' -> Keeps s s'.
Proof.
  induction fuel as [| fuel IH]; intros taskId reason s s'; simpl;
    destruct (JsMap.get taskId (tasks s)) as [x |];
    try discriminate; try (intros [= <-]; apply Keeps_refl).
  unfold cancelDependentTasksWith.
  destruct (JsMap.get taskId
              (taskDependencies (cancelOne taskId reason x s)));
    [| intros [= <-]; apply Keeps_cancelOne].
  intros H. eapply Keeps_trans; [apply Keeps_cancelOne |].
  eapply (Keeps_forEach
            (fun d => cancelTaskFuel fuel d "Parent task cancelled"));
    [| exact H].
  intros d st st'. apply IH.
Qed.

Lemma Keeps_cancelTask taskId reason s s' :
  cancelTask taskId reason s = Some s' -> Keeps s s'.
Proof. apply Keeps_cancelTaskFuel. Qed.

Lemma Keeps_cancelAll reason l s s' :
  forEach (fun taskId => cancelTask taskId reason) l s = Some s' ->
  Keeps s s'.
Proof.
  apply (Keeps_forEach (fun taskId => cancelTask taskId reason)).
  intros d st st'. apply Keeps_cancelTask.
Qed.

Lemma Keeps_CancelSteps s s' : CancelSteps s s' -> Keeps s s'.
Proof.
  induction 1 as [s | s k r x s' Hx _ IH]; [apply Keeps_refl |].
  eapply Keeps_trans; [apply Keeps_cancelOne | exact IH].
Qed.

Lemma Keeps_failTask taskId err s s' o :
  failTask config taskId err s = Some (s', o) -> Keeps s s'.
Proof.
  destruct (JsMap.get taskId (tasks s)) as [x |] eqn:E.
  - destruct (Z.ltb_spec (Z.of_nat (S (attempts x))) (maxRetries config))
      as [Hlt | Hge].
    + rewrite (failTask_retries config _ err _ _ E Hlt). intros [= <- <-].
      eapply (Keeps_rewrite _ _ taskId x (tried s x)); eauto.
    + rewrite (failTask_gives_up config _ err _ _ E Hge).
      unfold cancelDependentTasks, cancelDependentTasksWith.
      destruct (JsMap.get taskId
                  (taskDependencies (buried taskId err x s))) as [ds |].
      * destruct (forEach _ ds _) as [s4 |] eqn:E4; [| discriminate].
        intros [= <- <-].
        eapply Keeps_trans; [| eapply Keeps_cancelAll; exact E4].
        eapply (Keeps_remove _ _ taskId (agentId x)); reflexivity.
      * intros [= <- <-].
        eapply (Keeps_remove _ _ taskId (agentId x)); reflexivity.
  - unfold failTask. rewrite E. intros [= <- <-]. apply Keeps_refl.
Qed.

Lemma NoDup_cleanup s :
  NoDup (completedTasks s) -> NoDup (completedTasks (cleanup s)).
Proof.
  rewrite cleanup_evict.
  destruct (Nat.ltb 1000 (JsSet.size (completedTasks s))); [| auto].
  generalize (firstn (JsSet.size (completedTasks s) - 1000)
                (completedTasks s)).
  intros l. revert s. unfold evict.
  induction l as [| d l IH]; intros s H; simpl; [assumption |].
  destruct (evictable d); [| now apply IH].
  apply IH. simpl. now apply NoDup_set_delete.
Qed.

Lemma Keeps_cleanup s : Keeps s (cleanup s).
Proof.
  destruct (cleanup_fields s) as (H1 & H2 & _).
  apply Keeps_aside; auto. apply NoDup_cleanup.
Qed.

Lemma Keeps_reschedule agent s : Keeps s (rescheduleAgentTasks agent s).
Proof.
  unfold rescheduleAgentTasks.
  destruct (JsMap.get agent (agentTasks s)) as [taskIds |];
    [| apply Keeps_refl].
  apply (Keeps_fold
           (fun taskId acc =>
              match JsMap.get taskId (tasks acc) with
              | Some scheduled =>
                  match status (task scheduled) with
                  | running =>
                      emit
                        (TASK_CREATED
                           (task
                              (withAttempts 0
                                 (withTask (withStatus queued) scheduled))))
                        (setTasks
                           (JsMap.set taskId
                              (withAttempts 0
                                 (withTask (withStatus queued) scheduled))
                              (tasks acc))
                           acc)
                  | _ => acc
                  end
              | None => acc
              end)).
  intros k st. destruct (JsMap.get k (tasks st)) as [y |] eqn:E;
    [| apply Keeps_refl].
  destruct (status (task y)); try apply Keeps_refl.
  apply (Keeps_rewrite _ _ k y
           (withAttempts 0 (withTask (withStatus queued) y)));
    [exact E | reflexivity ..].
Qed.

Lemma Keeps_runCallback cb s s' :
  runCallback config cb s = Some s' -> Keeps s s'.
Proof.
  destruct cb as [taskId ms | taskId |]; simpl.
  - destruct (failTask config taskId (TaskTimeoutError taskId ms) s)
      as [[s1 o] |] eqn:E; [| discriminate].
    simpl. intros [= <-]. eapply Keeps_failTask; exact E.
  - intros [= <-]. apply Keeps_startTask.
  - intros [= <-]. apply Keeps_cleanup.
Qed.

Lemma Keeps_performMaintenance s s' :
  performMaintenance config s = Some s' -> Keeps s s'.
Proof.
  unfold performMaintenance. intros H.
  eapply Keeps_trans; [apply Keeps_cleanup |].
  revert H. apply Keeps_forEach.
  intros k st st'. destruct (JsMap.get k (tasks st)) as [y |];
    [| intros [= <-]; apply Keeps_refl].
  destruct (status (task y)); try (intros [= <-]; apply Keeps_refl).
  destruct (startedAt (task y)) as [t0 |];
    [| intros [= <-]; apply Keeps_refl].
  destruct (resourceTimeout config * 2 <? clock (cleanup s) - t0)%Z;
    [| intros [= <-]; apply Keeps_refl].
  destruct (failTask config k _ st) as [[s1 o] |] eqn:E; [| discriminate].
  simpl. intros [= <-]. eapply Keeps_failTask; exact E.
Qed.

Lemma Keeps_fireTimer h s s' : fireTimer config h s = Some s' -> Keeps s s'.
Proof.
  unfold fireTimer.
  destruct (find (fun tm => Nat.eqb (handle tm) h) (timers s)) as [tm |];
    [| intros [= <-]; apply Keeps_refl].
  destruct (clock s <? due tm)%Z; [intros [= <-]; apply Keeps_refl |].
  intros H. apply Keeps_runCallback in H.
  eapply Keeps_trans; [| exact H].
  destruct (repeats tm); apply Keeps_aside; auto.
Qed.

End Shape.

(** ** Well-formed schedulers *)

(** [tasks] and the completed-id set have no duplicates, as a [Map] and a
    [Set] have none, and every active record is stored under the id of its
    task, names its holder in [assignedAgent], and is listed in the agent
    index under that holder. *)
Record WellFormed (s : Scheduler) : Prop := {
  w_keys : NoDup (JsMap.keys (tasks s));
  w_completed : NoDup (completedTasks s);
  w_held : forall k v,
      JsMap.get k (tasks s) = Some v ->
      listed (agentId v) k (agentTasks s)
      /\ id (task v) = k
      /\ assignedAgent (task v) = Some (agentId v)
}.

Lemma Keeps_WellFormed s s' : Keeps s s' -> WellFormed s -> WellFormed s'.
Proof.
  intros [K C R L] [Wk Wc Wh]. constructor; auto.
  intros k v' H. destruct (R k v' H) as (v & Hv & E1 & E2 & E3).
  destruct (Wh k v Hv) as (Hl & Hid & Hag).
  rewrite E1, E2, E3. repeat split; auto.
  apply L; [exact Hl |]. unfold active. congruence.
Qed.

Lemma WellFormed_init : WellFormed init.
Proof. constructor; simpl; [constructor | constructor | discriminate]. Qed.

Section WellFormedRuns.

Variable config : CoordinationConfig.

(** The record and the scheduler [assignTask] leaves when it accepts. *)
Definition assignedRecord (t : Task) (agent : string) (s : Scheduler)
  : ScheduledTask :=
  mkScheduled
    (mkTask (id t) (dependencies t) running (Some agent) (output t) (error t)
       (Some (clock s)) (completedAt t))
    agent 0 None (Some (nextHandle s)).

Definition assignedState (t : Task) (agent : string) (s : Scheduler)
  : Scheduler :=
  mkScheduler (JsMap.set (id t) (assignedRecord t agent s) (tasks s))
    (addTo agent (id t) (agentTasks s))
    (registerAll (id t) (dependencies t) (taskDependencies s))
    (completedTasks s) (clock s)
    (timers s ++ [executionTimer config s (id t)]) (S (nextHandle s))
    (emitted s ++ [TASK_STARTED (id t) agent]) (released s).

Lemma assignTask_cases t agent s :
  (unmetDependencies t s <> []
   /\ assignTask config t agent s
      = (s, Threw (TaskDependencyError (id t) (unmetDependencies t s))))
  \/ (unmetDependencies t s = []
      /\ assignTask config t agent s = (assignedState t agent s, Returned)).
Proof.
  unfold assignTask.
  destruct (unmetDependencies t s) as [| u us] eqn:Eu.
  - right. split; [reflexivity |]. simpl List.length.
    rewrite andb_false_r, register_loop.
    set (x := mkScheduled _ _ _ _ _).
    set (s3 := setTaskDependencies _ _).
    assert (Hx : JsMap.get (id t) (tasks s3) = Some x)
      by (subst s3; simpl; apply get_set_same).
    rewrite (startTask_active _ _ _ _ Hx). simpl.
    rewrite set_set. reflexivity.
  - left. split; [discriminate |].
    destruct (dependencies t) as [| d l] eqn:Ed.
    + unfold unmetDependencies in Eu. rewrite Ed in Eu. discriminate.
    + reflexivity.
Qed.

Lemma assignTask_WellFormed t agent s :
  WellFormed s -> WellFormed (fst (assignTask config t agent s)).
Proof.
  intros [Wk Wc Wh].
  destruct (assignTask_cases t agent s) as [[_ E] | [_ E]]; rewrite E; simpl.
  - now constructor.
  - constructor; simpl; auto.
    + now apply NoDup_keys_set.
    + intros k v. rewrite get_set.
      destruct (String.eqb_spec k (id t)) as [-> | Hne].
      * intros [= <-]. simpl. repeat split. apply listed_addTo_same.
      * intros H. destruct (Wh k v H) as (Hl & Hid & Hag).
        repeat split; auto. now apply listed_addTo_keep.
Qed.

Lemma completeTask_WellFormed taskId result s :
  WellFormed s -> WellFormed (fst (completeTask config taskId result s)).
Proof.
  intros [Wk Wc Wh].
  destruct (JsMap.get taskId (tasks s)) as [x |] eqn:E.
  - rewrite (completeTask_active config _ _ _ _ E). simpl.
    apply (Keeps_WellFormed (finished taskId result x s));
      [apply Keeps_startDependents |].
    constructor; simpl.
    + now apply NoDup_keys_delete.
    + now apply NoDup_add.
    + intros k v. rewrite get_delete.
      destruct (String.eqb_spec k taskId) as [-> | Hne]; [discriminate |].
      intros H. destruct (Wh k v H) as (Hl & Hid & Hag).
      repeat split; auto. now apply listed_deleteFrom_keep.
  - unfold completeTask. rewrite E. simpl. now constructor.
Qed.

(** [cancelAgentTasks] on an agent that has an entry: the cancellations,
    then the entry goes. *)
Lemma cancelAgentTasks_spec agent taskIds s :
  JsMap.get agent (agentTasks s) = Some taskIds ->
  exists s1,
    cancelAll "Agent terminated" taskIds s = Some s1
    /\ cancelAgentTasks agent s
       = Some (setAgentTasks (JsMap.delete agent (agentTasks s1)) s1)
    /\ Cascade (reasonsUnder taskIds "Agent terminated") s s1
    /\ CancelSteps s s1
    /\ (forall k, In k taskIds -> inactive k s1).
Proof.
  intros E.
  destruct (cancelAll_spec "Agent terminated" taskIds s)
    as (s1 & E1 & C1 & St1 & I1).
  exists s1. split; [exact E1 |].
  split; [| split; [assumption | split; assumption]].
  unfold cancelAgentTasks. now rewrite E, E1.
Qed.

Lemma cancelAgentTasks_WellFormed agent s s' :
  cancelAgentTasks agent s = Some s' -> WellFormed s -> WellFormed s'.
Proof.
  intros H W.
  destruct (JsMap.get agent (agentTasks s)) as [taskIds |] eqn:E.
  - destruct (cancelAgentTasks_spec agent taskIds s E)
      as (s1 & E1 & E2 & C1 & St1 & I1).
    rewrite E2 in H. injection H as <-.
    assert (W1 : WellFormed s1)
      by (eapply Keeps_WellFormed; [eapply Keeps_CancelSteps; exact St1
                                   | exact W]).
    destruct W1 as [Wk Wc Wh]. constructor; simpl; auto.
    intros k v Hv. destruct (Wh k v Hv) as (Hl & Hid & Hag).
    repeat split; auto.
    destruct (String.eqb_spec (agentId v) agent) as [Ea | Hne].
    + exfalso. rewrite Ea in Hl. apply (c_agents _ _ _ C1) in Hl.
      destruct Hl as [st [Hst Hin]]. rewrite E in Hst. injection Hst as <-.
      specialize (I1 k Hin). unfold inactive in I1. congruence.
    + destruct Hl as [st [Hst Hin]]. exists st. split; [| exact Hin].
      rewrite get_delete. apply String.eqb_neq in Hne. now rewrite Hne.
  - unfold cancelAgentTasks in H. rewrite E in H. now injection H as <-.
Qed.

Lemma shutdown_WellFormed s s' : shutdown s = Some s' -> WellFormed s'.
Proof.
  unfold shutdown.
  destruct (cancelAll _ (JsMap.keys (tasks s)) s) as [s1 |]; [| discriminate].
  intros [= <-]. constructor; simpl; [constructor | constructor | discriminate].
Qed.

Lemma runOp_WellFormed op s s' :
  runOp config op s = Some s' -> WellFormed s -> WellFormed s'.
Proof.
  destruct op; simpl; intros H W.
  - injection H as <-. eapply Keeps_WellFormed; [| exact W].
    apply Keeps_aside; auto.
  - eapply shutdown_WellFormed; exact H.
  - injection H as <-. now apply assignTask_WellFormed.
  - injection H as <-. now apply completeTask_WellFormed.
  - destruct (failTask config taskId err s) as [[s1 o] |] eqn:E;
      [| discriminate].
    injection H as <-. eapply Keeps_WellFormed; [| exact W].
    eapply Keeps_failTask; exact E.
  - eapply Keeps_WellFormed; [| exact W]. eapply Keeps_cancelTask; exact H.
  - eapply cancelAgentTasks_WellFormed; eassumption.
  - injection H as <-. eapply Keeps_WellFormed; [| exact W].
    apply Keeps_reschedule.
  - eapply Keeps_WellFormed; [| exact W].
    eapply Keeps_performMaintenance; exact H.
  - injection H as <-. eapply Keeps_WellFormed; [| exact W].
    apply Keeps_aside; auto.
  - eapply Keeps_WellFormed; [| exact W]. eapply Keeps_fireTimer; exact H.
Qed.

Lemma run_WellFormed ops :
  forall s s', run config ops s = Some s' -> WellFormed s -> WellFormed s'.
Proof.
  unfold run. induction ops as [| op ops IH]; intros s s'; simpl.
  - now intros [= <-].
  - destruct (runOp config op s) as [s1 |] eqn:E; [| discriminate].
    intros Hrun W. eapply IH; [exact Hrun |].
    eapply runOp_WellFormed; eassumption.
Qed.

(** In every state a run reaches, [tasks] and the completed-id set are
    duplicate-free and every active task is stored under its own id, carries
    its holder in [assignedAgent], is listed in the agent index under that
    holder, and is [running] or [queued].  The agent index therefore never
    misses a task an agent holds. *)
Theorem reachable_well_formed (s : Scheduler) :
  reachable config s ->
  NoDup (JsMap.keys (tasks s))
  /\ NoDup (completedTasks s)
  /\ forall k v,
      JsMap.get k (tasks s) = Some v ->
      listed (agentId v) k (agentTasks s)
      /\ id (task v) = k
      /\ assignedAgent (task v) = Some (agentId v)
      /\ (status (task v) = running \/ status (task v) = queued).
Proof.
  intros [ops Hrun].
  destruct (run_WellFormed ops init s Hrun WellFormed_init) as [Wk Wc Wh].
  assert (Hst : activeStatuses s).
  { eapply run_activeStatuses; [exact Hrun |]. intros k v []. }
  split; [exact Wk | split; [exact Wc |]].
  intros k v Hv. destruct (Wh k v Hv) as (Hl & Hid & Hag).
  repeat split; auto. eapply Hst. apply get_In. exact Hv.
Qed.

End WellFormedRuns.

(** ** Agents *)

Section Agents.

Variable config : CoordinationConfig.

Lemma getAgentTasks_In a s t :
  In t (getAgentTasks a s)
  <-> exists k v,
      listed a k (agentTasks s) /\ JsMap.get k (tasks s) = Some v
      /\ task v = t.
Proof.
  unfold getAgentTasks, listed.
  destruct (JsMap.get a (agentTasks s)) as [taskIds |].
  - rewrite in_flat_map. split.
    + intros [k [Hk Ht]].
      destruct (JsMap.get k (tasks s)) as [v |] eqn:E; [| destruct Ht].
      destruct Ht as [<- | []]. exists k, v. eauto.
    + intros (k & v & [st [[= <-] Hin]] & Hv & <-).
      exists k. split; [exact Hin |]. rewrite Hv. now left.
  - split; [intros [] |]. intros (k & v & [st [Hst _]] & _). discriminate.
Qed.

(** [getAgentTasks] answers with the tasks of the active records whose id is
    in the agent's set, and with nothing else: an id in the set that is no
    longer active is passed over, so the answer is never longer than
    [getAgentTaskCount], which counts the set; an agent without an entry has
    count 0 and no tasks. *)
Theorem getAgentTasks_within_count (a : string) (s : Scheduler) :
  List.length (getAgentTasks a s) <= getAgentTaskCount a s
  /\ (forall t,
        In t (getAgentTasks a s)
        <-> exists k v,
            listed a k (agentTasks s) /\ JsMap.get k (tasks s) = Some v
            /\ task v = t)
  /\ (JsMap.get a (agentTasks s) = None ->
      getAgentTasks a s = [] /\ getAgentTaskCount a s = 0).
Proof.
  split; [| split].
  - unfold getAgentTasks, getAgentTaskCount, JsSet.size.
    destruct (JsMap.get a (agentTasks s)) as [taskIds |]; [| simpl; lia].
    induction taskIds as [| k l IH]; simpl; [lia |].
    rewrite length_app.
    destruct (JsMap.get k (tasks s)); simpl; lia.
  - intros t. apply getAgentTasks_In.
  - intros E. unfold getAgentTasks, getAgentTaskCount. now rewrite E.
Qed.

(** In every state a run reaches, the two agent queries cover every task an
    agent holds: the task of each active record is in the answer of
    [getAgentTasks] for the record's agent, and that agent's count is at
    least 1. *)
Theorem agent_queries_cover_held_tasks (s : Scheduler) (k : string)
  (v : ScheduledTask) :
  reachable config s ->
  JsMap.get k (tasks s) = Some v ->
  In (task v) (getAgentTasks (agentId v) s)
  /\ 1 <= getAgentTaskCount (agentId v) s.
Proof.
  intros [ops Hrun] Hv.
  destruct (run_WellFormed config ops init s Hrun WellFormed_init)
    as [_ _ Wh].
  destruct (Wh k v Hv) as (Hl & _).
  split.
  - apply getAgentTasks_In. exists k, v. auto.
  - destruct Hl as [st [Hst Hin]]. unfold getAgentTaskCount, JsSet.size.
    rewrite Hst. destruct st; [destruct Hin | simpl; lia].
Qed.

(** [cancelAgentTasks] always returns.  Afterwards the agent has no entry in
    the agent index, so its count is 0 and it has no tasks; every id that was
    in its set is out of [tasks]; each event emitted is a TASK_CANCELLED of a
    task the call cancelled, with reason "Agent terminated" if the id was in
    the agent's set, or with "Parent task cancelled" if the id is a
    registered dependent of a task the call cancelled, and every task of
    the set that was active got one, with "Agent terminated" if the id is
    not the first registered dependent of any task: the call made on it
    comes before any cascade goes beyond a first dependent.  The
    completed-id set and the reverse-dependency index are untouched; no
    timer was armed, and a timer is still pending exactly when its handle is
    in the [timeout] field of no task the call cancelled.  For an agent
    without an entry nothing changes. *)
Theorem cancelAgentTasks_empties_agent (agent : string) (s : Scheduler) :
  exists s' ev,
    cancelAgentTasks agent s = Some s'
    /\ JsMap.get agent (agentTasks s') = None
    /\ getAgentTaskCount agent s' = 0
    /\ getAgentTasks agent s' = []
    /\ (forall k, listed agent k (agentTasks s) -> inactive k s')
    /\ emitted s' = emitted s ++ ev
    /\ (forall e, In e ev ->
          exists k r,
            e = TASK_CANCELLED k r
            /\ active k s /\ inactive k s'
            /\ ((r = "Agent terminated" /\ listed agent k (agentTasks s))
                \/ (r = PARENT_CANCELLED
                    /\ exists b, active b s /\ inactive b s'
                                 /\ listed b k (taskDependencies s))))
    /\ (forall k, listed agent k (agentTasks s) -> active k s ->
          exists r, In (TASK_CANCELLED k r) ev)
    /\ (forall k, listed agent k (agentTasks s) -> active k s ->
          (forall b rest,
              JsMap.get b (taskDependencies s) <> Some (k :: rest)) ->
          In (TASK_CANCELLED k "Agent terminated") ev)
    /\ completedTasks s' = completedTasks s
    /\ taskDependencies s' = taskDependencies s
    /\ (forall tm,
          In tm (timers s')
          <-> In tm (timers s)
              /\ forall k v,
                  JsMap.get k (tasks s) = Some v -> inactive k s' ->
                  timeout v <> Some (handle tm))
    /\ (JsMap.get agent (agentTasks s) = None -> s' = s).
Proof.
  destruct (JsMap.get agent (agentTasks s)) as [taskIds |] eqn:E.
  - destruct (cancelAgentTasks_spec agent taskIds s E)
      as (s1 & E1 & E2 & C1 & St1 & I1).
    destruct (c_events _ _ _ C1) as [ev [Hev [F G]]].
    destruct (cancelled_exactly _ s s1 C1 St1) as [HT _].
    set (s' := setAgentTasks (JsMap.delete agent (agentTasks s1)) s1) in *.
    assert (Hsame : forall k, inactive k s' <-> inactive k s1)
      by (intros k; reflexivity).
    exists s', ev. split; [exact E2 |].
    assert (Hnone : JsMap.get agent (agentTasks s') = None)
      by apply get_delete_same.
    split; [exact Hnone |].
    split; [unfold getAgentTaskCount; now rewrite Hnone |].
    split; [unfold getAgentTasks; now rewrite Hnone |].
    split.
    { intros k [st [Hst Hin]]. rewrite E in Hst. injection Hst as <-.
      apply Hsame. now apply I1. }
    split; [exact Hev |].
    split.
    { intros e He.
      destruct (F e He) as (k & r & -> & Ha & Hi & [[Hin ->] | [-> Hb]]);
        exists k; eexists; (split; [reflexivity |]);
        (split; [exact Ha |]); (split; [apply Hsame; exact Hi |]).
      - left. split; [reflexivity |]. exists taskIds. auto.
      - right. split; [reflexivity |].
        destruct Hb as (b & Hb1 & Hb2 & Hb3). exists b.
        split; [exact Hb1 |]. split; [apply Hsame; exact Hb2 | exact Hb3]. }
    split.
    { intros k [st [Hst Hin]] Ha. rewrite E in Hst. injection Hst as <-.
      apply G; [exact Ha | now apply I1]. }
    split.
    { intros k [st [Hst Hin]] Ha Hnf. rewrite E in Hst. injection Hst as <-.
      destruct (cancelAll_first _ _ _ _ E1 k Hin Ha) as (ev' & Hev' & Hin').
      - intros (b & rest & Hb). exact (Hnf b rest Hb).
      - rewrite Hev in Hev'. apply app_inv_head in Hev'. now subst ev'. }
    split; [apply (c_completed _ _ _ C1) |].
    split; [apply (c_deps _ _ _ C1) |].
    split; [exact HT | discriminate].
  - exists s, []. unfold cancelAgentTasks, getAgentTaskCount, getAgentTasks.
    rewrite E, app_nil_r.
    split; [reflexivity |]. split; [reflexivity |]. split; [reflexivity |].
    split; [reflexivity |].
    split; [intros k [st [Hst _]]; congruence |].
    split; [reflexivity |].
    split; [intros e [] |].
    split; [intros k [st [Hst _]]; congruence |].
    split; [intros k [st [Hst _]]; congruence |].
    split; [reflexivity |]. split; [reflexivity |].
    split; [| reflexivity].
    intros tm. split; [| tauto].
    intros Hin. split; [exact Hin |].
    intros k v Hv Hi. unfold inactive in Hi. congruence.
Qed.

(** In a state a run reaches, [cancelAgentTasks] leaves no active task held
    by the agent. *)
Theorem cancelAgentTasks_leaves_no_task_of_agent (agent : string)
  (s s' : Scheduler) :
  reachable config s ->
  cancelAgentTasks agent s = Some s' ->
  forall k v, JsMap.get k (tasks s') = Some v -> agentId v <> agent.
Proof.
  intros [ops Hrun] H k v Hv Ea.
  pose proof (run_WellFormed config ops init s Hrun WellFormed_init) as W.
  pose proof (cancelAgentTasks_WellFormed agent s s' H W) as [_ _ Wh].
  destruct (Wh k v Hv) as ([st [Hst _]] & _). rewrite Ea in Hst.
  unfold cancelAgentTasks in H.
  destruct (JsMap.get agent (agentTasks s)) as [taskIds |] eqn:E.
  - destruct (cancelAll _ taskIds s) as [s1 |]; [| discriminate].
    injection H as <-. simpl in Hst. rewrite get_delete_same in Hst.
    discriminate.
  - injection H as <-. congruence.
Qed.

(** On an agent whose set holds one id, [cancelAgentTasks] is [cancelTask]
    on that id with the reason "Agent terminated", followed by the removal
    of the agent's entry: [Promise.all] over one call is that call, events
    and their order included. *)
Theorem cancelAgentTasks_of_one_task (agent taskId : string)
  (s : Scheduler) :
  JsMap.get agent (agentTasks s) = Some [taskId] ->
  cancelAgentTasks agent s
  = option_map
      (fun s' => setAgentTasks (JsMap.delete agent (agentTasks s')) s')
      (cancelTask taskId "Agent terminated" s).
Proof.
  intros E. unfold cancelAgentTasks. rewrite E, cancelAll_single.
  now destruct (cancelTask taskId "Agent terminated" s).
Qed.

(** [shutdown] always returns.  Afterwards the four indices are empty; every
    task that was active was announced with TASK_CANCELLED and released as
    [cancelled], and nothing else was announced; the reason is
    "Scheduler shutdown", or "Parent task cancelled" for a registered
    dependent of an active task, and it is "Scheduler shutdown" for every
    task that is not the first registered dependent of any task: the call
    made on it comes before any cascade goes beyond a first dependent.  No
    timer was armed, and a timer is still
    pending exactly when its handle is in the [timeout] field of no task
    that was active.  A second [shutdown] changes nothing. *)
Theorem shutdown_clears_everything (s : Scheduler) :
  exists s' ev rel,
    shutdown s = Some s'
    /\ tasks s' = [] /\ agentTasks s' = []
    /\ taskDependencies s' = [] /\ completedTasks s' = []
    /\ emitted s' = emitted s ++ ev
    /\ (forall e, In e ev ->
          exists k r,
            e = TASK_CANCELLED k r
            /\ active k s
            /\ (r = "Scheduler shutdown"
                \/ (r = PARENT_CANCELLED
                    /\ exists b, active b s
                                 /\ listed b k (taskDependencies s))))
    /\ released s' = released s ++ rel
    /\ (forall k v,
          JsMap.get k (tasks s) = Some v ->
          (exists r, In (TASK_CANCELLED k r) ev)
          /\ In (k, gone s v) rel
          /\ status (task (gone s v)) = cancelled
          /\ forall tm, In tm (timers s') -> Some (handle tm) <> timeout v)
    /\ (forall k, active k s ->
          (forall b rest,
              JsMap.get b (taskDependencies s) <> Some (k :: rest)) ->
          In (TASK_CANCELLED k "Scheduler shutdown") ev)
    /\ (forall tm,
          In tm (timers s')
          <-> In tm (timers s)
              /\ forall k v, JsMap.get k (tasks s) = Some v ->
                             timeout v <> Some (handle tm))
    /\ shutdown s' = Some s'.
Proof.
  destruct (cancelAll_spec "Scheduler shutdown" (JsMap.keys (tasks s)) s)
    as (s1 & E1 & C1 & St1 & I1).
  destruct (c_events _ _ _ C1) as [ev [Hev [F G]]].
  destruct (c_released _ _ _ C1) as [rel [Hrel M]].
  destruct (cancelled_exactly _ s s1 C1 St1) as [HT _].
  assert (Hall : forall k v, JsMap.get k (tasks s) = Some v -> inactive k s1).
  { intros k v Hv. apply I1. apply get_In in Hv. unfold JsMap.keys.
    apply in_map_iff. exists (k, v). auto. }
  eexists. exists ev, rel. split; [unfold shutdown; rewrite E1; reflexivity |].
  simpl. do 4 (split; [reflexivity |]).
  split; [exact Hev |].
  split.
  { intros e He.
    destruct (F e He) as (k & r & -> & Ha & _ & [[_ ->] | [-> Hb]]);
      exists k; eexists; (split; [reflexivity |]); (split; [exact Ha |]).
    - now left.
    - right. split; [reflexivity |].
      destruct Hb as (b & Hb1 & _ & Hb3). eauto. }
  split; [exact Hrel |].
  split.
  { intros k v Hv.
    pose proof (Hall k v Hv) as Hi.
    split; [apply G; [unfold active; congruence | exact Hi] |].
    split; [now apply M |]. split; [reflexivity |].
    intros tm Hin Heq. symmetry in Heq.
    exact (c_disarmed _ _ _ C1 k v (handle tm) Hv Hi Heq tm Hin eq_refl). }
  split.
  { intros k Ha Hnf.
    assert (Hk : In k (JsMap.keys (tasks s))).
    { unfold active in Ha.
      destruct (JsMap.get k (tasks s)) as [v |] eqn:Ev; [| contradiction].
      apply get_In in Ev. unfold JsMap.keys. apply in_map_iff.
      exists (k, v). auto. }
    destruct (cancelAll_first _ _ _ _ E1 k Hk Ha) as (ev' & Hev' & Hin').
    - intros (b & rest & Hb). exact (Hnf b rest Hb).
    - rewrite Hev in Hev'. apply app_inv_head in Hev'. now subst ev'. }
  split; [| reflexivity].
  intros tm. rewrite HT. split; intros [Hin Hfree]; (split; [exact Hin |]).
  - intros k v Hv. apply (Hfree k v Hv). eapply Hall. exact Hv.
  - intros k v Hv _. now apply (Hfree k v).
Qed.

End Agents.

(** ** The counters of [getHealthStatus] *)

Section Counters.

Variable config : CoordinationConfig.

Definition byStatusTotal (m : Metrics) : nat :=
  m_pending m + m_queued m + m_assigned m + m_running m + m_completed m
  + m_failed m + m_cancelled m.

Lemma bump_total l :
  forall m,
    byStatusTotal (fold_left (fun acc st => bump st acc) l m)
    = byStatusTotal m + List.length l
    /\ m_agentsWithTasks (fold_left (fun acc st => bump st acc) l m)
       = m_agentsWithTasks m.
Proof.
  induction l as [| st l IH]; intros m; simpl.
  - split; [lia | reflexivity].
  - destruct (IH (bump st m)) as [H1 H2]. rewrite H1, H2.
    unfold byStatusTotal. destruct st; simpl; split; lia.
Qed.

Lemma bump_live l :
  forall m,
    Forall okStatus l ->
    m_running (fold_left (fun acc st => bump st acc) l m)
    + m_queued (fold_left (fun acc st => bump st acc) l m)
    = m_running m + m_queued m + List.length l
    /\ m_pending (fold_left (fun acc st => bump st acc) l m) = m_pending m
    /\ m_assigned (fold_left (fun acc st => bump st acc) l m) = m_assigned m.
Proof.
  induction l as [| st l IH]; intros m H; simpl.
  - repeat split; lia.
  - inversion H as [| ? ? Hst Hl]; subst.
    destruct (IH (bump st m) Hl) as (H1 & H2 & H3). rewrite H1, H2, H3.
    destruct Hst as [-> | ->]; simpl; repeat split; lia.
Qed.

(** The per-status counters of [getHealthStatus] always add up to the
    number of active tasks plus the size of the completed-id set, and
    [agentsWithTasks] is the number of entries of the agent index.  In every
    state a run reaches,
    [running] and [queued] add up to the number of active tasks and
    [pending] and [assigned] are 0. *)
Theorem health_counts_add_up :
  (forall s,
      exists m,
        metrics (getHealthStatus s) = Some m
        /\ byStatusTotal m
           = JsMap.size (tasks s) + JsSet.size (completedTasks s)
        /\ m_agentsWithTasks m = JsMap.size (agentTasks s))
  /\ (forall s,
        reachable config s ->
        exists m,
          metrics (getHealthStatus s) = Some m
          /\ m_running m + m_queued m = JsMap.size (tasks s)
          /\ m_pending m = 0
          /\ m_assigned m = 0).
Proof.
  split.
  - intros s. unfold getHealthStatus. simpl. eexists.
    split; [reflexivity |]. rewrite tasksByStatus_fold.
    match goal with
    | |- context [fold_left _ ?l ?m0] =>
        destruct (bump_total l m0) as [H1 H2]
    end.
    rewrite H1, H2. unfold byStatusTotal, JsMap.size. simpl.
    rewrite length_map. split; [lia | reflexivity].
  - intros s [ops Hrun].
    assert (Hst : activeStatuses s).
    { eapply run_activeStatuses; [exact Hrun |]. intros k v []. }
    unfold getHealthStatus. simpl. eexists. split; [reflexivity |].
    rewrite tasksByStatus_fold.
    match goal with
    | |- context [fold_left _ ?l ?m0] =>
        destruct (bump_live l m0) as (H1 & H2 & H3)
    end.
    { apply Forall_forall. intros st Hin. apply in_map_iff in Hin.
      destruct Hin as [[k v] [<- Hin]]. eapply Hst. exact Hin. }
    rewrite H1, H2, H3. unfold JsMap.size. simpl. rewrite length_map.
    repeat split; lia.
Qed.

End Counters.

(** ** Reassignment *)

Section Requeue.

Definition isRunning (x : ScheduledTask) : bool :=
  match status (task x) with
  | running => true
  | _ => false
  end.

(** The record [rescheduleAgentTasks] leaves of a running task. *)
Definition requeued (x : ScheduledTask) : ScheduledTask :=
  withAttempts 0 (withTask (withStatus queued) x).

(** The body of the loop of [rescheduleAgentTasks]. *)
Definition requeue (taskId : string) (acc : Scheduler) : Scheduler :=
  match JsMap.get taskId (tasks acc) with
  | Some scheduled =>
      match status (task scheduled) with
      | running =>
          emit (TASK_CREATED (task (requeued scheduled)))
            (setTasks (JsMap.set taskId (requeued scheduled) (tasks acc)) acc)
      | _ => acc
      end
  | None => acc
  end.

Definition requeueAll (l : list string) (s : Scheduler) : Scheduler :=
  fold_left (fun acc taskId => requeue taskId acc) l s.

Lemma rescheduleAgentTasks_requeueAll agent s :
  rescheduleAgentTasks agent s
  = match JsMap.get agent (agentTasks s) with
    | Some taskIds => requeueAll taskIds s
    | None => s
    end.
Proof. reflexivity. Qed.

Lemma requeue_cases k s :
  (exists v, JsMap.get k (tasks s) = Some v /\ isRunning v = true
             /\ requeue k s
                = emit (TASK_CREATED (task (requeued v)))
                    (setTasks (JsMap.set k (requeued v) (tasks s)) s))
  \/ ((forall v, JsMap.get k (tasks s) = Some v -> isRunning v = false)
      /\ requeue k s = s).
Proof.
  unfold requeue, isRunning.
  destruct (JsMap.get k (tasks s)) as [v |] eqn:E;
    [| right; split; [discriminate | reflexivity]].
  destruct (status (task v)) eqn:Es;
    try (right; split; [intros v' [= <-]; now rewrite Es | reflexivity]).
  left. exists v. rewrite Es. auto.
Qed.

Lemma requeueAll_frame l :
  forall s,
    agentTasks (requeueAll l s) = agentTasks s
    /\ taskDependencies (requeueAll l s) = taskDependencies s
    /\ completedTasks (requeueAll l s) = completedTasks s
    /\ timers (requeueAll l s) = timers s
    /\ released (requeueAll l s) = released s
    /\ clock (requeueAll l s) = clock s
    /\ JsMap.keys (tasks (requeueAll l s)) = JsMap.keys (tasks s).
Proof.
  unfold requeueAll.
  induction l as [| d l IH]; intros s; simpl; [repeat split |].
  destruct (IH (requeue d s)) as (H1 & H2 & H3 & H4 & H5 & H6 & H7).
  rewrite H1, H2, H3, H4, H5, H6, H7.
  destruct (requeue_cases d s) as [(v & Hv & _ & ->) | [_ ->]];
    simpl; repeat split.
  eapply keys_set_present. exact Hv.
Qed.

Lemma requeueAll_get l :
  forall s k,
    JsMap.get k (tasks (requeueAll l s))
    = match JsMap.get k (tasks s) with
      | Some v =>
          if existsb (String.eqb k) l && isRunning v
          then Some (requeued v)
          else Some v
      | None => None
      end.
Proof.
  unfold requeueAll.
  induction l as [| d l IH]; intros s k; simpl.
  - now destruct (JsMap.get k (tasks s)).
  - rewrite IH.
    destruct (requeue_cases d s) as [(v & Hv & Hr & ->) | [Hn ->]]; simpl.
    + rewrite get_set. destruct (String.eqb_spec k d) as [-> | Hne].
      * rewrite Hv, Hr. simpl. now rewrite andb_false_r.
      * reflexivity.
    + destruct (JsMap.get k (tasks s)) as [v |] eqn:E; [| reflexivity].
      destruct (String.eqb_spec k d) as [-> | Hne]; [| reflexivity].
      rewrite (Hn v E). simpl. now rewrite andb_false_r.
Qed.

Lemma requeueAll_settled l :
  forall s,
    (forall k v, In k l -> JsMap.get k (tasks s) = Some v ->
                 isRunning v = false) ->
    requeueAll l s = s.
Proof.
  unfold requeueAll.
  induction l as [| d l IH]; intros s H; simpl; [reflexivity |].
  destruct (requeue_cases d s) as [(v & Hv & Hr & _) | [_ ->]].
  - rewrite (H d v (or_introl eq_refl) Hv) in Hr. discriminate.
  - apply IH. intros k v Hk. apply H. now right.
Qed.

Lemma requeueAll_events l :
  forall s,
    exists ev,
      emitted (requeueAll l s) = emitted s ++ ev
      /\ forall e,
          In e ev
          <-> exists k v,
              In k l /\ JsMap.get k (tasks s) = Some v
              /\ isRunning v = true
              /\ e = TASK_CREATED (task (requeued v)).
Proof.
  unfold requeueAll.
  induction l as [| d l IH]; intros s; simpl.
  - exists []. rewrite app_nil_r. split; [reflexivity |].
    intros e. split; [intros [] | intros (k & v & [] & _)].
  - destruct (IH (requeue d s)) as [ev [Hev Hin]].
    destruct (requeue_cases d s) as [(v & Hv & Hr & E) | [Hn E]].
    + assert (Hem : emitted (requeue d s)
                    = emitted s ++ [TASK_CREATED (task (requeued v))])
        by (rewrite E; reflexivity).
      assert (Htk : tasks (requeue d s)
                    = JsMap.set d (requeued v) (tasks s))
        by (rewrite E; reflexivity).
      exists (TASK_CREATED (task (requeued v)) :: ev).
      rewrite Hev, Hem, <- app_assoc. split; [reflexivity |].
      intros e. simpl. rewrite Hin. split.
      * intros [<- | (k & v1 & Hk & Hg & Hr1 & ->)].
        -- exists d, v. auto.
        -- rewrite Htk, get_set in Hg.
           destruct (String.eqb_spec k d) as [-> | Hne].
           ++ injection Hg as <-. discriminate.
           ++ exists k, v1. auto.
      * intros (k & v1 & [<- | Hk] & Hg & Hr1 & ->).
        -- rewrite Hv in Hg. injection Hg as <-. now left.
        -- destruct (String.eqb_spec k d) as [-> | Hne].
           ++ rewrite Hv in Hg. injection Hg as <-. now left.
           ++ right. exists k, v1. rewrite Htk, get_set_other by assumption.
              auto.
    + rewrite E in Hev, Hin. rewrite E. exists ev. split; [exact Hev |].
      intros e. rewrite Hin. split.
      * intros (k & v1 & Hk & Hg & Hr1 & ->). exists k, v1. auto.
      * intros (k & v1 & [<- | Hk] & Hg & Hr1 & ->).
        -- rewrite (Hn v1 Hg) in Hr1. discriminate.
        -- exists k, v1. auto.
Qed.

(** [rescheduleAgentTasks] rewrites exactly the records that are active,
    [running], and whose id is in the agent's set: each becomes [queued] with
    [attempts = 0] and is announced with one TASK_CREATED carrying the
    requeued task.  Every other record, the keys of [tasks], the four other
    indices and the pending timers are as before, and a second call right
    after changes nothing. *)
Theorem reschedule_requeues_running (agent : string) (s : Scheduler) :
  let s' := rescheduleAgentTasks agent s in
  (forall k,
      JsMap.get k (tasks s')
      = match JsMap.get k (tasks s) with
        | Some v =>
            if isRunning v then
              match JsMap.get agent (agentTasks s) with
              | Some taskIds =>
                  if JsSet.has k taskIds then Some (requeued v) else Some v
              | None => Some v
              end
            else Some v
        | None => None
        end)
  /\ (forall v, status (task (requeued v)) = queued
                /\ attempts (requeued v) = 0
                /\ agentId (requeued v) = agentId v
                /\ timeout (requeued v) = timeout v)
  /\ (exists ev,
        emitted s' = emitted s ++ ev
        /\ forall e,
            In e ev
            <-> exists k v,
                listed agent k (agentTasks s)
                /\ JsMap.get k (tasks s) = Some v
                /\ status (task v) = running
                /\ e = TASK_CREATED (task (requeued v)))
  /\ JsMap.keys (tasks s') = JsMap.keys (tasks s)
  /\ agentTasks s' = agentTasks s
  /\ taskDependencies s' = taskDependencies s
  /\ completedTasks s' = completedTasks s
  /\ timers s' = timers s
  /\ rescheduleAgentTasks agent s' = s'.
Proof.
  intros s'. subst s'. rewrite rescheduleAgentTasks_requeueAll.
  assert (Hrun : forall v, isRunning v = true <-> status (task v) = running).
  { intros v. unfold isRunning. destruct (status (task v));
      split; congruence. }
  destruct (JsMap.get agent (agentTasks s)) as [taskIds |] eqn:E.
  - destruct (requeueAll_frame taskIds s)
      as (H1 & H2 & H3 & H4 & H5 & H6 & H7).
    split.
    { intros k. rewrite requeueAll_get.
      destruct (JsMap.get k (tasks s)) as [v |]; [| reflexivity].
      unfold JsSet.has. destruct (isRunning v);
        [rewrite andb_true_r | rewrite andb_false_r]; reflexivity. }
    split; [intros v; repeat split |].
    split.
    { destruct (requeueAll_events taskIds s) as [ev [Hev Hin]].
      exists ev. split; [exact Hev |]. intros e. rewrite Hin.
      split; intros (k & v & Hk & Hg & Hr & ->); exists k, v.
      - repeat split; auto; [exists taskIds; auto | now apply Hrun].
      - destruct Hk as [st [Hst Hk]]. rewrite E in Hst. injection Hst as <-.
        repeat split; auto. now apply Hrun. }
    do 5 (split; [assumption |]).
    rewrite rescheduleAgentTasks_requeueAll, H1, E.
    apply requeueAll_settled. intros k v Hk. rewrite requeueAll_get.
    assert (Hmem : existsb (String.eqb k) taskIds = true) by now apply has_In.
    rewrite Hmem. simpl.
    destruct (JsMap.get k (tasks s)) as [v0 |]; [| discriminate].
    destruct (isRunning v0) eqn:Er; intros [= <-]; [reflexivity | exact Er].
  - split.
    { intros k. destruct (JsMap.get k (tasks s)) as [v |]; [| reflexivity].
      now destruct (isRunning v). }
    split; [intros v; repeat split |].
    split.
    { exists []. rewrite app_nil_r. split; [reflexivity |].
      intros e. split; [intros [] |].
      intros (k & v & [st [Hst _]] & _). congruence. }
    do 5 (split; [reflexivity |]).
    rewrite rescheduleAgentTasks_requeueAll. now rewrite E.
Qed.

End Requeue.

(** ** What [cleanup] keeps *)

Section Eviction.

Lemma set_delete_middle e a b :
  NoDup (a ++ e :: b) -> JsSet.delete e (a ++ e :: b) = a ++ b.
Proof.
  intros H. apply NoDup_remove_2 in H.
  unfold JsSet.delete. rewrite filter_app. simpl.
  rewrite String.eqb_refl. simpl.
  fold (JsSet.delete e a). fold (JsSet.delete e b).
  rewrite !set_delete_absent; [reflexivity | |];
    intros Hin; apply H; apply in_app_iff; auto.
Qed.

Lemma evict_keeps l :
  forall kept rest s,
    completedTasks s = kept ++ l ++ rest ->
    NoDup (kept ++ l ++ rest) ->
    completedTasks (evict l s)
    = kept ++ filter (fun e => negb (evictable e)) l ++ rest.
Proof.
  unfold evict.
  induction l as [| e l IH]; intros kept rest s Hc Hnd; simpl;
    [assumption |].
  destruct (evictable e) eqn:Ee; simpl.
  - apply IH.
    + simpl. rewrite Hc. now apply set_delete_middle.
    + simpl in Hnd. now apply NoDup_remove_1 in Hnd.
  - rewrite (IH (kept ++ [e]) rest s).
    + now rewrite <- app_assoc.
    + now rewrite <- app_assoc.
    + now rewrite <- app_assoc.
Qed.

Lemma empty_ids_once l :
  NoDup l -> List.length (filter (fun e => negb (evictable e)) l) <= 1.
Proof.
  intros H.
  assert (Hnd : NoDup (filter (fun e => negb (evictable e)) l))
    by now apply NoDup_filter.
  assert (Hall : forall e, In e (filter (fun e => negb (evictable e)) l) ->
                           e = "").
  { intros e He. apply filter_In in He. destruct He as [_ He].
    unfold evictable in He. rewrite negb_involutive in He.
    now apply String.eqb_eq in He. }
  destruct (filter (fun e => negb (evictable e)) l) as [| a [| b r]];
    simpl; try lia.
  exfalso. inversion Hnd as [| ? ? Hn _]; subst. apply Hn.
  rewrite (Hall a), (Hall b); simpl; auto.
Qed.

Lemma cleanup_shape (s : Scheduler) :
  NoDup (completedTasks s) ->
  completedTasks (cleanup s)
  = filter (fun e => negb (evictable e))
      (firstn (JsSet.size (completedTasks s) - 1000) (completedTasks s))
    ++ skipn (JsSet.size (completedTasks s) - 1000) (completedTasks s).
Proof.
  intros Hnd. rewrite cleanup_evict.
  destruct (Nat.ltb_spec 1000 (JsSet.size (completedTasks s))) as [Hlt | Hle].
  - set (n := JsSet.size (completedTasks s) - 1000) in *.
    assert (Hsplit : completedTasks s
                     = [] ++ firstn n (completedTasks s)
                          ++ skipn n (completedTasks s))
      by (simpl; symmetry; apply firstn_skipn).
    assert (Hnd' : NoDup ([] ++ firstn n (completedTasks s)
                             ++ skipn n (completedTasks s)))
      by now rewrite <- Hsplit.
    now rewrite (evict_keeps _ [] _ s Hsplit Hnd').
  - assert (Hn : JsSet.size (completedTasks s) - 1000 = 0) by lia.
    rewrite Hn. reflexivity.
Qed.

Lemma kept_empty_id l e :
  In e (filter (fun e => negb (evictable e)) l) -> e = "".
Proof.
  intros He. apply filter_In in He. destruct He as [_ He].
  unfold evictable in He. rewrite negb_involutive in He.
  now apply String.eqb_eq in He.
Qed.

Lemma cleanup_size (s : Scheduler) :
  NoDup (completedTasks s) ->
  JsSet.size (completedTasks (cleanup s)) <= 1001
  /\ (~ In "" (firstn (JsSet.size (completedTasks s) - 1000)
                 (completedTasks s)) ->
      JsSet.size (completedTasks (cleanup s)) <= 1000).
Proof.
  intros Hnd. rewrite (cleanup_shape s Hnd).
  set (n := JsSet.size (completedTasks s) - 1000).
  assert (Hlen : List.length (skipn n (completedTasks s)) <= 1000).
  { rewrite length_skipn. subst n. unfold JsSet.size. lia. }
  assert (Hold : NoDup (firstn n (completedTasks s))).
  { rewrite <- (firstn_skipn n (completedTasks s)) in Hnd.
    now apply NoDup_app_remove_r in Hnd. }
  unfold JsSet.size. rewrite length_app. split.
  - pose proof (empty_ids_once _ Hold). lia.
  - intros Hno.
    destruct (filter (fun e => negb (evictable e))
                (firstn n (completedTasks s))) as [| a r] eqn:E;
      [simpl; lia |].
    exfalso. apply Hno.
    assert (Ha : In a (filter (fun e => negb (evictable e))
                         (firstn n (completedTasks s))))
      by (rewrite E; now left).
    rewrite <- (kept_empty_id _ _ Ha).
    apply filter_In in Ha. tauto.
Qed.

(** Whatever the ids are, [cleanup] never adds an id, keeps the 1000 newest
    ids, never evicts the empty-string id, evicts every other id among the
    oldest surplus, and leaves at most 1001 ids: exactly the 1000 newest
    plus, when it is among the oldest surplus, the empty-string id. *)
Theorem cleanup_keeps_the_newest (s : Scheduler) :
  NoDup (completedTasks s) ->
  (forall k, In k (completedTasks (cleanup s)) -> In k (completedTasks s))
  /\ (forall k,
        In k (skipn (JsSet.size (completedTasks s) - 1000) (completedTasks s))
        -> In k (completedTasks (cleanup s)))
  /\ (In "" (completedTasks s) -> In "" (completedTasks (cleanup s)))
  /\ (forall k,
        In k (firstn (JsSet.size (completedTasks s) - 1000)
                (completedTasks s)) ->
        k <> "" -> ~ In k (completedTasks (cleanup s)))
  /\ JsSet.size (completedTasks (cleanup s)) <= 1001
  /\ (~ In "" (firstn (JsSet.size (completedTasks s) - 1000)
                 (completedTasks s)) ->
      JsSet.size (completedTasks (cleanup s)) <= 1000).
Proof.
  intros Hnd.
  pose proof (cleanup_size s Hnd) as [Hcap Hcap'].
  rewrite (cleanup_shape s Hnd) in *.
  set (n := JsSet.size (completedTasks s) - 1000) in *.
  pose proof (firstn_skipn n (completedTasks s)) as Hsplit.
  split.
  { intros k Hk. rewrite <- Hsplit. apply in_app_iff.
    apply in_app_iff in Hk. destruct Hk as [Hk | Hk]; [left | now right].
    apply filter_In in Hk. tauto. }
  split; [intros k Hk; apply in_app_iff; now right |].
  split.
  { rewrite <- Hsplit at 1. rewrite !in_app_iff. intros [H | H]; [| auto].
    left. apply filter_In. split; [exact H | reflexivity]. }
  split; [| split; assumption].
  intros k Hk Hne Hin. apply in_app_iff in Hin.
  destruct Hin as [Hin | Hin].
  - now apply kept_empty_id in Hin.
  - rewrite <- Hsplit in Hnd. revert Hnd Hk Hin.
    generalize (firstn n (completedTasks s)) as old.
    generalize (skipn n (completedTasks s)) as new.
    clear. intros new old. induction old as [| y old IH]; simpl; [tauto |].
    intros Hd [-> | Hk] Hin; inversion Hd; subst.
    + match goal with H : ~ In _ _ |- _ => apply H end.
      apply in_app_iff. now right.
    + now apply IH.
Qed.

End Eviction.

(** ** The maintenance sweep *)

Lemma forEach_app {A} (f : A -> Scheduler -> option Scheduler) l1 l2 s s' :
  forEach f (l1 ++ l2) s = Some s' ->
  exists s1, forEach f l1 s = Some s1 /\ forEach f l2 s1 = Some s'.
Proof.
  revert s. induction l1 as [| x l1 IH]; intros s; simpl; [eauto |].
  destruct (f x s) as [s1 |]; [apply IH | discriminate].
Qed.

Lemma forEach_within {A} (P : Scheduler -> Scheduler -> Prop)
  (f : A -> Scheduler -> option Scheduler) l :
  (forall s, P s s) ->
  (forall s s1 s2, P s s1 -> P s1 s2 -> P s s2) ->
  (forall x s s', In x l -> f x s = Some s' -> P s s') ->
  forall s s', forEach f l s = Some s' -> P s s'.
Proof.
  intros Hrefl Htrans. induction l as [| x l IH]; intros Hf s s'; simpl.
  - intros [= <-]. apply Hrefl.
  - destruct (f x s) as [s1 |] eqn:E; [| discriminate].
    intros H. eapply Htrans.
    + eapply Hf; [now left | exact E].
    + apply IH; [| exact H]. intros y st st' Hy. apply Hf. now right.
Qed.

Lemma forEach_idle {A} (f : A -> Scheduler -> option Scheduler) l s :
  (forall x, In x l -> f x s = Some s) -> forEach f l s = Some s.
Proof.
  induction l as [| x l IH]; intros H; simpl; [reflexivity |].
  rewrite (H x (or_introl eq_refl)). apply IH.
  intros y Hy. apply H. now right.
Qed.

Section Maintenance.

Variable config : CoordinationConfig.

(** The body of the loop of [performMaintenance], with [now] read before the
    loop. *)
Definition sweep (now : Z) (taskId : string) (acc : Scheduler)
  : option Scheduler :=
  match JsMap.get taskId (tasks acc) with
  | Some scheduled =>
      match status (task scheduled), startedAt (task scheduled) with
      | running, Some started' =>
          let runtime := (now - started')%Z in
          if (resourceTimeout config * 2 <? runtime)%Z
          then
            option_map fst
              (failTask config taskId (TaskTimeoutError taskId runtime) acc)
          else Some acc
      | _, _ => Some acc
      end
  | None => Some acc
  end.

Lemma performMaintenance_sweep s :
  performMaintenance config s
  = forEach (sweep (clock s)) (JsMap.keys (tasks s)) (cleanup s).
Proof.
  destruct (cleanup_fields s) as (Ht & _ & Hc & _).
  unfold performMaintenance. rewrite Ht, Hc. reflexivity.
Qed.

(** From [s] to [s'] the clock, the completed-id set and the
    reverse-dependency index are the same, and the record under [k], if
    there still is one, is the one there was. *)
Definition Untouched (k : string) (s s' : Scheduler) : Prop :=
  clock s' = clock s
  /\ completedTasks s' = completedTasks s
  /\ taskDependencies s' = taskDependencies s
  /\ forall v', JsMap.get k (tasks s') = Some v' ->
                JsMap.get k (tasks s) = Some v'.

Lemma Untouched_refl k s : Untouched k s s.
Proof. repeat split; auto. Qed.

Lemma Untouched_trans k s s1 s2 :
  Untouched k s s1 -> Untouched k s1 s2 -> Untouched k s s2.
Proof.
  intros (A1 & B1 & C1 & D1) (A2 & B2 & C2 & D2).
  repeat split; try congruence. auto.
Qed.

Lemma failTask_terminal_spec taskId err s x :
  JsMap.get taskId (tasks s) = Some x ->
  (maxRetries config <= Z.of_nat (S (attempts x)))%Z ->
  exists s',
    failTask config taskId err s = Some (s', Returned)
    /\ Cascade (fun k r => listed taskId k (taskDependencies s)
                           /\ r = PARENT_FAILED)
         (buried taskId err x s) s'
    /\ inactive taskId s'.
Proof.
  intros E Hge. rewrite (failTask_gives_up config _ err _ _ E Hge).
  set (s3 := buried taskId err x s).
  destruct (cancelDependents_spec (JsMap.size (tasks s3)) cancelTask taskId
              PARENT_FAILED s3 (cancelTask_spec _) (Nat.le_refl _))
    as (s' & E' & C' & _).
  unfold cancelDependentTasks. rewrite E'. exists s'.
  split; [reflexivity | split; [exact C' |]].
  eapply Cascade_stays_inactive; [exact C' |].
  unfold inactive, s3. simpl. apply get_delete_same.
Qed.

Lemma failTask_Untouched k taskId err s s' o :
  k <> taskId ->
  failTask config taskId err s = Some (s', o) -> Untouched k s s'.
Proof.
  intros Hne. destruct (JsMap.get taskId (tasks s)) as [x |] eqn:E.
  - destruct (Z.ltb_spec (Z.of_nat (S (attempts x))) (maxRetries config))
      as [Hlt | Hge].
    + rewrite (failTask_retries config _ err _ _ E Hlt). intros [= <- <-].
      repeat split; simpl. intros v'. now rewrite get_set_other.
    + destruct (failTask_terminal_spec taskId err s x E Hge)
        as (s2 & E2 & C2 & _).
      rewrite E2. intros [= <- <-].
      repeat split.
      * apply (c_clock _ _ _ C2).
      * apply (c_completed _ _ _ C2).
      * apply (c_deps _ _ _ C2).
      * intros v' Hv. apply (c_get _ _ _ C2) in Hv. simpl in Hv.
        rewrite get_delete in Hv. apply String.eqb_neq in Hne.
        now rewrite Hne in Hv.
  - unfold failTask. rewrite E. intros [= <- <-]. apply Untouched_refl.
Qed.

Lemma failTask_frame taskId err s s' o :
  failTask config taskId err s = Some (s', o) ->
  clock s' = clock s /\ completedTasks s' = completedTasks s
  /\ taskDependencies s' = taskDependencies s.
Proof.
  destruct (JsMap.get taskId (tasks s)) as [x |] eqn:E.
  - destruct (Z.ltb_spec (Z.of_nat (S (attempts x))) (maxRetries config))
      as [Hlt | Hge].
    + rewrite (failTask_retries config _ err _ _ E Hlt). intros [= <- <-].
      repeat split.
    + destruct (failTask_terminal_spec taskId err s x E Hge)
        as (s2 & E2 & C2 & _).
      rewrite E2. intros [= <- <-].
      repeat split;
        [apply (c_clock _ _ _ C2) | apply (c_completed _ _ _ C2)
         | apply (c_deps _ _ _ C2)].
  - unfold failTask. rewrite E. intros [= <- <-]. repeat split.
Qed.

Lemma sweep_Untouched now k j s s' :
  k <> j -> sweep now j s = Some s' -> Untouched k s s'.
Proof.
  intros Hne. unfold sweep.
  destruct (JsMap.get j (tasks s)) as [y |];
    [| intros [= <-]; apply Untouched_refl].
  destruct (status (task y)); try (intros [= <-]; apply Untouched_refl).
  destruct (startedAt (task y)) as [t0 |];
    [| intros [= <-]; apply Untouched_refl].
  destruct (resourceTimeout config * 2 <? now - t0)%Z;
    [| intros [= <-]; apply Untouched_refl].
  destruct (failTask config j _ s) as [[s1 o] |] eqn:E; [| discriminate].
  simpl. intros [= <-]. eapply failTask_Untouched; eassumption.
Qed.

Lemma sweep_completed now j s s' :
  sweep now j s = Some s' -> completedTasks s' = completedTasks s.
Proof.
  unfold sweep.
  destruct (JsMap.get j (tasks s)) as [y |]; [| now intros [= <-]].
  destruct (status (task y)); try now intros [= <-].
  destruct (startedAt (task y)) as [t0 |]; [| now intros [= <-]].
  destruct (resourceTimeout config * 2 <? now - t0)%Z; [| now intros [= <-]].
  destruct (failTask config j _ s) as [[s1 o] |] eqn:E; [| discriminate].
  simpl. intros [= <-]. now apply failTask_frame in E.
Qed.

Lemma performMaintenance_completed s s' :
  performMaintenance config s = Some s' ->
  completedTasks s' = completedTasks (cleanup s).
Proof.
  rewrite performMaintenance_sweep.
  apply (forEach_within
           (fun a b => completedTasks b = completedTasks a)
           (sweep (clock s))); [reflexivity | congruence |].
  intros j st st' _. apply sweep_completed.
Qed.

(** When no running task has been running for more than twice
    [resourceTimeout] (exactly twice is not more), [performMaintenance] is
    [cleanup] and nothing else: no task is failed, no event is emitted and
    no timer is armed or cancelled. *)
Theorem maintenance_without_stuck_tasks (s : Scheduler) :
  (forall k v t0,
      JsMap.get k (tasks s) = Some v ->
      status (task v) = running -> startedAt (task v) = Some t0 ->
      (clock s - t0 <= resourceTimeout config * 2)%Z) ->
  performMaintenance config s = Some (cleanup s)
  /\ tasks (cleanup s) = tasks s
  /\ timers (cleanup s) = timers s
  /\ emitted (cleanup s) = emitted s.
Proof.
  intros H. destruct (cleanup_fields s) as (Ht & _ & Hc & Htm & He & _).
  split; [| auto]. rewrite performMaintenance_sweep.
  apply forEach_idle. intros k _. unfold sweep. rewrite Ht.
  destruct (JsMap.get k (tasks s)) as [v |] eqn:E; [| reflexivity].
  destruct (status (task v)) eqn:Es; try reflexivity.
  destruct (startedAt (task v)) as [t0 |] eqn:Et; [| reflexivity].
  specialize (H k v t0 E Es Et). apply Z.ltb_ge in H. now rewrite H.
Qed.

(** A task that is [running] and was started more than twice
    [resourceTimeout] ago does not survive [performMaintenance] untouched:
    afterwards it is out of [tasks], or its record has one more attempt and
    [lastAttempt] at the time of the sweep.  When that attempt exhausts the
    retries it is out of [tasks]. *)
Theorem maintenance_fails_stuck_task (s : Scheduler) (k : string)
  (v : ScheduledTask) (t0 : Z) :
  NoDup (JsMap.keys (tasks s)) ->
  JsMap.get k (tasks s) = Some v ->
  status (task v) = running -> startedAt (task v) = Some t0 ->
  (resourceTimeout config * 2 < clock s - t0)%Z ->
  exists s',
    performMaintenance config s = Some s'
    /\ (inactive k s' \/ JsMap.get k (tasks s') = Some (tried s v))
    /\ attempts (tried s v) = S (attempts v)
    /\ lastAttempt (tried s v) = Some (clock s)
    /\ ((maxRetries config <= Z.of_nat (S (attempts v)))%Z -> inactive k s').
Proof.
  intros Hnd Hv Hs Ht Hstuck.
  destruct (runOp_total config PerformMaintenance s) as [s' Hrun].
  simpl in Hrun. exists s'. split; [exact Hrun |].
  rewrite performMaintenance_sweep in Hrun.
  assert (Hk : In k (JsMap.keys (tasks s))).
  { apply get_In in Hv. unfold JsMap.keys. apply in_map_iff.
    exists (k, v). auto. }
  apply in_split in Hk. destruct Hk as (l1 & l2 & Hkeys).
  rewrite Hkeys in Hrun, Hnd.
  pose proof (NoDup_remove_2 _ _ _ Hnd) as Hnot.
  apply forEach_app in Hrun. destruct Hrun as (a & Ha & Hrest).
  simpl in Hrest.
  destruct (sweep (clock s) k a) as [b |] eqn:Eb; [| discriminate].
  assert (U1 : Untouched k (cleanup s) a).
  { revert Ha. apply forEach_within;
      [apply Untouched_refl | apply Untouched_trans |].
    intros j st st' Hj. apply sweep_Untouched. intros <-.
    apply Hnot. apply in_app_iff. now left. }
  assert (U2 : Untouched k b s').
  { revert Hrest. apply forEach_within;
      [apply Untouched_refl | apply Untouched_trans |].
    intros j st st' Hj. apply sweep_Untouched. intros <-.
    apply Hnot. apply in_app_iff. now right. }
  destruct (cleanup_fields s) as (Htk & _ & Hck & _).
  destruct U1 as (Hc1 & _ & _ & G1). destruct U2 as (_ & _ & _ & G2).
  assert (Hgone : inactive k b -> inactive k s').
  { unfold inactive. intros Hi.
    destruct (JsMap.get k (tasks s')) as [v' |] eqn:E; [| reflexivity].
    specialize (G2 v' eq_refl). congruence. }
  assert (Hres : (inactive k b
                  /\ ((maxRetries config <= Z.of_nat (S (attempts v)))%Z ->
                      inactive k b))
                 \/ ((Z.of_nat (S (attempts v)) < maxRetries config)%Z
                     /\ JsMap.get k (tasks b) = Some (tried s v))).
  { unfold sweep in Eb.
    destruct (JsMap.get k (tasks a)) as [y |] eqn:Ey.
    - pose proof (G1 y eq_refl) as Hy. rewrite Htk, Hv in Hy.
      injection Hy as <-.
      rewrite Hs, Ht in Eb. apply Z.ltb_lt in Hstuck. rewrite Hstuck in Eb.
      destruct (Z.ltb_spec (Z.of_nat (S (attempts v))) (maxRetries config))
        as [Hlt | Hge].
      + rewrite (failTask_retries config _ _ _ _ Ey Hlt) in Eb.
        simpl in Eb. injection Eb as <-. right. split; [exact Hlt |].
        simpl. rewrite get_set_same. unfold tried.
        now rewrite Hc1, Hck.
      + destruct (failTask_terminal_spec k
                    (TaskTimeoutError k (clock s - t0)) a v Ey Hge)
          as (s2 & E2 & _ & I2).
        rewrite E2 in Eb. simpl in Eb. injection Eb as <-. left. auto.
    - injection Eb as <-. left. split; [exact Ey | intros _; exact Ey]. }
  split.
  - destruct Hres as [[Hi _] | [_ Hb]]; [left; auto |].
    destruct (JsMap.get k (tasks s')) as [v' |] eqn:E.
    + right. specialize (G2 v' eq_refl). congruence.
    + now left.
  - do 2 (split; [reflexivity |]). intros Hge.
    destruct Hres as [[Hi _] | [Hlt _]]; [auto | lia].
Qed.

(** In every state a run reaches, [performMaintenance] returns a scheduler
    whose completed-id set is the one [cleanup] leaves: at most 1001 ids, and
    at most 1000 unless the empty-string id is among the oldest surplus. *)
Theorem maintenance_restores_cap (s s' : Scheduler) :
  reachable config s ->
  performMaintenance config s = Some s' ->
  completedTasks s' = completedTasks (cleanup s)
  /\ JsSet.size (completedTasks s') <= 1001
  /\ (~ In "" (completedTasks s) -> JsSet.size (completedTasks s') <= 1000).
Proof.
  intros [ops Hrun] H.
  destruct (run_WellFormed config ops init s Hrun WellFormed_init)
    as [_ Wc _].
  rewrite (performMaintenance_completed s s' H).
  destruct (cleanup_size s Wc) as (H1 & H2).
  split; [reflexivity | split; [exact H1 |]].
  intros Hno. apply H2. intros Hin. apply Hno.
  rewrite <- (firstn_skipn (JsSet.size (completedTasks s) - 1000)
                (completedTasks s)).
  apply in_app_iff. now left.
Qed.

End Maintenance.

(** ** How the calls compose *)

Section Composition.

Variable config : CoordinationConfig.

(** [assignTask] only adds: whether it accepts or refuses, every pending
    timer stays pending, every listing of the agent index and of the
    reverse-dependency index stays, the completed-id set and the released
    records are as before, and no record under another id changes.  So when
    the id is already active the call overwrites its record with a fresh one
    ([attempts = 0]) without disarming the execution timer of the old record,
    without releasing it, and without dropping the id from the set of the
    agent that held it. *)
Theorem assignTask_only_adds (t : Task) (agent : string) (s : Scheduler) :
  let s' := fst (assignTask config t agent s) in
  (forall tm, In tm (timers s) -> In tm (timers s'))
  /\ (forall a k, listed a k (agentTasks s) -> listed a k (agentTasks s'))
  /\ (forall d k,
        listed d k (taskDependencies s) -> listed d k (taskDependencies s'))
  /\ completedTasks s' = completedTasks s
  /\ released s' = released s
  /\ (forall k, k <> id t -> JsMap.get k (tasks s') = JsMap.get k (tasks s))
  /\ (forall x,
        JsMap.get (id t) (tasks s) = Some x ->
        snd (assignTask config t agent s) = Returned ->
        JsMap.get (id t) (tasks s') = Some (assignedRecord t agent s)
        /\ attempts (assignedRecord t agent s) = 0
        /\ JsMap.size (tasks s') = JsMap.size (tasks s)
        /\ forall tm, In tm (timers s) -> Some (handle tm) = timeout x ->
                      In tm (timers s')).
Proof.
  intros s'. subst s'.
  destruct (assignTask_cases config t agent s) as [[_ E] | [_ E]];
    rewrite E; simpl.
  - do 6 (split; [auto |]). intros x0 Hx Hret. discriminate.
  - split; [intros tm H; apply in_app_iff; now left |].
    split; [intros a k H; now apply listed_addTo_keep |].
    split; [intros d k H; now apply registerAll_keep |].
    do 2 (split; [reflexivity |]).
    split; [intros k Hne; now apply get_set_other |].
    intros x Hx _. split; [apply get_set_same |].
    split; [reflexivity |].
    split; [eapply size_set_present; exact Hx |].
    intros tm H _. apply in_app_iff. now left.
Qed.

(** Only [completeTask] of an id puts that id in the completed-id set.
    After any other call or timer firing, an id that was not completed is
    still not completed, so [assignTask] still refuses every task that lists
    it, naming it among the unmet dependencies: a dependency that failed or
    was cancelled stays unmet. *)
Theorem only_completion_satisfies (op : Op) (s s' : Scheduler) (k : string) :
  (forall result, op <> CompleteTask k result) ->
  runOp config op s = Some s' ->
  ~ In k (completedTasks s) ->
  ~ In k (completedTasks s')
  /\ forall t agent,
      In k (dependencies t) ->
      exists unmet,
        assignTask config t agent s'
        = (s', Threw (TaskDependencyError (id t) unmet))
        /\ In k unmet.
Proof.
  intros Hop Hrun Hk.
  assert (Hsub : In k (completedTasks s') -> In k (completedTasks s)).
  { destruct op;
      try (match type of Hrun with
           | runOp _ ?o _ = _ =>
               destruct (runOp_returns config o s)
                 as (s2 & E2 & Ev); [intros; discriminate .. |]
           end;
           rewrite Hrun in E2; injection E2 as <-;
           apply (e_completed _ _ Ev)).
    - simpl in Hrun. injection Hrun as <-.
      destruct (assignTask_cases config t agent s) as [[_ E] | [_ E]];
        rewrite E; simpl; auto.
    - simpl in Hrun. injection Hrun as <-.
      destruct (JsMap.get taskId (tasks s)) as [x |] eqn:E.
      + rewrite (completeTask_active config _ _ _ _ E). simpl.
        intros H.
        apply (e_completed _ _ (Evolves_startDependents config _ _)) in H.
        simpl in H. apply mem_add in H. destruct H as [-> | H]; [| exact H].
        exfalso. eapply Hop. reflexivity.
      + unfold completeTask. rewrite E. simpl. auto. }
  split; [tauto |].
  intros t agent Ht. eexists.
  apply (assignTask_refuses config t agent s' k Ht).
  apply has_not_In. tauto.
Qed.

Lemma startDependents_completed ds s :
  completedTasks (startDependents config ds s) = completedTasks s.
Proof.
  rewrite startDependents_ready.
  assert (Hl : forall k, In k (filter (ready s) ds) -> active k s).
  { intros k Hk. apply filter_In in Hk. apply ready_active. tauto. }
  pose proof (startAll_spec config s _ [] s (Restarted_nil config s) Hl) as R.
  apply (rs_completed _ _ _ _ R).
Qed.

(** Completing an active task satisfies the dependency at once: right after
    [completeTask] of A returns, [assignTask] accepts and starts any task
    each of whose dependencies is A or was completed before. *)
Theorem completion_unblocks (taskId result : string) (t : Task)
  (agent : string) (s : Scheduler) (x : ScheduledTask) :
  JsMap.get taskId (tasks s) = Some x ->
  (forall depId,
      In depId (dependencies t) ->
      depId = taskId \/ In depId (completedTasks s)) ->
  let s1 := fst (completeTask config taskId result s) in
  snd (completeTask config taskId result s) = Returned
  /\ assignTask config t agent s1 = (assignedState config t agent s1, Returned)
  /\ JsMap.get (id t) (tasks (assignedState config t agent s1))
     = Some (assignedRecord t agent s1)
  /\ status (task (assignedRecord t agent s1)) = running.
Proof.
  intros E Hdeps s1. subst s1.
  rewrite (completeTask_active config _ _ _ _ E). simpl.
  split; [reflexivity |].
  set (s1 := startDependents config _ _).
  assert (Hc : completedTasks s1 = JsSet.add taskId (completedTasks s))
    by (subst s1; now rewrite startDependents_completed).
  assert (Hmet : unmetDependencies t s1 = []).
  { apply unmet_nil. intros d Hd. apply has_In. rewrite Hc. apply mem_add.
    destruct (Hdeps d Hd); auto. }
  split.
  - destruct (assignTask_cases config t agent s1) as [[Hn _] | [_ Ha]];
      [contradiction | exact Ha].
  - split; [simpl; apply get_set_same | reflexivity].
Qed.

Lemma completeTask_removes taskId result s s' :
  completeTask config taskId result s = (s', Returned) -> inactive taskId s'.
Proof.
  destruct (JsMap.get taskId (tasks s)) as [x |] eqn:E.
  - rewrite (completeTask_active config _ _ _ _ E). intros [= <-].
    unfold inactive.
    destruct (JsMap.get taskId (tasks (startDependents config _ _)))
      as [v |] eqn:Ev; [| reflexivity].
    apply get_In in Ev.
    apply (e_tasks _ _ (Evolves_startDependents config _ _)) in Ev.
    destruct Ev as [v0 [Hin _]]. simpl in Hin. apply In_delete in Hin.
    tauto.
  - unfold completeTask. rewrite E. discriminate.
Qed.

(** A task that left [tasks] is final.  Once [completeTask] returned for an
    id, or [cancelTask] returned for it, or [failTask] exhausted its retries,
    the id is not active, and until it is assigned again every call on it is
    inert: [completeTask] and [failTask] throw the not-found error and change
    nothing, [cancelTask] and a late [startTask] (a retry that fires) do
    nothing. *)
Theorem terminal_is_final (k : string) (s s' : Scheduler) :
  (exists result, completeTask config k result s = (s', Returned))
  \/ (exists reason, cancelTask k reason s = Some s')
  \/ (exists err x,
        JsMap.get k (tasks s) = Some x
        /\ (maxRetries config <= Z.of_nat (S (attempts x)))%Z
        /\ failTask config k err s = Some (s', Returned)) ->
  inactive k s'
  /\ forall result err reason,
      completeTask config k result s'
      = (s', Threw (TaskError (String.append "Task not found: " k)))
      /\ failTask config k err s'
         = Some (s', Threw (TaskError (String.append "Task not found: " k)))
      /\ cancelTask k reason s' = Some s'
      /\ startTask config k s' = s'.
Proof.
  intros H.
  assert (Hi : inactive k s').
  { destruct H as [[r H] | [[r H] | (err & x & Hx & Hge & H)]].
    - eapply completeTask_removes; exact H.
    - destruct (cancelTask_spec (JsMap.size (tasks s)) k r s (Nat.le_refl _))
        as (s2 & E2 & _ & I2 & _).
      congruence.
    - destruct (failTask_terminal_spec config k err s x Hx Hge)
        as (s2 & E2 & _ & I2).
      congruence. }
  split; [exact Hi |]. intros result err reason.
  unfold inactive in Hi.
  split; [unfold completeTask; now rewrite Hi |].
  split; [unfold failTask; now rewrite Hi |].
  split; [now apply cancelTask_inactive | now apply startTask_inactive].
Qed.

(** A timer that outlives its task is harmless while the id stays inactive:
    when an execution timeout or a retry fires for an id that is not in
    [tasks], the timer is consumed and nothing else changes (the not-found
    error of [failTask] is caught inside the callback, and [startTask]
    returns at once). *)
Theorem stale_timer_is_harmless (h : nat) (tm : Timer) (k : string)
  (s : Scheduler) :
  find (fun x => Nat.eqb (handle x) h) (timers s) = Some tm ->
  repeats tm = false ->
  (due tm <= clock s)%Z ->
  (callback tm = onRetry k \/ exists ms, callback tm = onTimeout k ms) ->
  inactive k s ->
  fireTimer config h s = Some (clearTimeout h s)
  /\ tasks (clearTimeout h s) = tasks s
  /\ emitted (clearTimeout h s) = emitted s
  /\ forall x, In x (timers (clearTimeout h s)) -> handle x <> h.
Proof.
  intros Hf Hr Hd Hcb Hi. unfold fireTimer. rewrite Hf, Hr.
  apply Z.ltb_ge in Hd. rewrite Hd.
  split.
  - unfold inactive in Hi.
    destruct Hcb as [-> | [ms ->]]; simpl.
    + unfold startTask. simpl. now rewrite Hi.
    + unfold failTask. simpl. now rewrite Hi.
  - split; [reflexivity | split; [reflexivity |]].
    intros x Hx. simpl in Hx. now apply In_dropTimer in Hx.
Qed.

End Composition.

(** ** Further runs under the default configuration *)

Module MoreExamples.

(** T was started 120001 ms ago, one more than twice the timeout. *)
Definition stuckState : Scheduler :=
  Eval vm_compute in
    after [ AssignTask (newTask "T" []) "agent-1"; Advance 120001 ].

Definition stuckT : ScheduledTask := Eval vm_compute in recordOf "T" stuckState.

(** T was started exactly twice the timeout ago. *)
Definition dueState : Scheduler :=
  Eval vm_compute in
    after [ AssignTask (newTask "T" []) "agent-1"; Advance 120000 ].

(** A is running and not completed. *)
Definition onlyARunning : Scheduler :=
  Eval vm_compute in after [ AssignTask (newTask "A" []) "agent-1" ].

Definition runningA : ScheduledTask :=
  Eval vm_compute in recordOf "A" onlyARunning.

(** T is complete and the retry armed by its one failure is due. *)
Definition backoffOver : Scheduler :=
  Eval vm_compute in after (completedInBackoff ++ [Advance 1000]).

Definition staleRetry : Timer :=
  Eval vm_compute in
    match timers backoffOver with
    | tm :: _ => tm
    | [] => mkTimer 0 0 0 onInterval false
    end.

(** The empty-string id is the oldest of 1002 completed ids. *)
Definition crowdedWithEmpty : Scheduler :=
  Eval vm_compute in
    after
      ([ AssignTask (newTask "" []) "agent-1"; CompleteTask "" "ok" ]
         ++ flood 1001).

Definition fanWithoutAgent1 : Scheduler :=
  Eval vm_compute in
    match cancelAgentTasks "agent-1" fanState with
    | Some s => s
    | None => fanState
    end.

Definition fanWithoutB : Scheduler :=
  Eval vm_compute in
    match cancelTask "B" "no longer needed" fanState with
    | Some s => s
    | None => fanState
    end.

Definition crowdedSwept : Scheduler :=
  Eval vm_compute in
    match performMaintenance config crowded with
    | Some s => s
    | None => crowded
    end.

(** P is active with the registered dependents D1 and D2, in that order,
    and agent-1 holds all three, P first. *)
Definition siblings : list Op :=
  [ AssignTask (newTask "P" []) "agent-1";
    CompleteTask "P" "ok";
    AssignTask (newTask "P" []) "agent-1";
    AssignTask (newTask "D1" ["P"]) "agent-1";
    AssignTask (newTask "D2" ["P"]) "agent-1" ].

Definition siblingsState : Scheduler := Eval vm_compute in after siblings.

(** agent-1 holds P and Q; P has the registered dependents P1, P2 and P3, Q
    has Q1 and Q2, all active and held by agent-2. *)
Definition twoFamilies : list Op :=
  [ AssignTask (newTask "P" []) "agent-1";
    CompleteTask "P" "ok";
    AssignTask (newTask "Q" []) "agent-1";
    CompleteTask "Q" "ok";
    AssignTask (newTask "P1" ["P"]) "agent-2";
    AssignTask (newTask "P2" ["P"]) "agent-2";
    AssignTask (newTask "P3" ["P"]) "agent-2";
    AssignTask (newTask "Q1" ["Q"]) "agent-2";
    AssignTask (newTask "Q2" ["Q"]) "agent-2";
    AssignTask (newTask "P" []) "agent-1";
    AssignTask (newTask "Q" []) "agent-1" ].

Definition twoFamiliesState : Scheduler :=
  Eval vm_compute in after twoFamilies.

End MoreExamples.

Import MoreExamples.

Lemma reachable_well_formed_witness :
  reachable config fanState
  /\ NoDup (JsMap.keys (tasks fanState))
  /\ listed (agentId fanB) "B" (agentTasks fanState).
Proof.
  assert (R : reachable config fanState)
    by (exists fan; vm_compute; reflexivity).
  split; [exact R |].
  destruct (reachable_well_formed config fanState R) as (Hk & _ & Hh).
  split; [exact Hk |].
  destruct (Hh "B" fanB eq_refl) as (Hl & _). exact Hl.
Defined.

Lemma agent_queries_cover_held_tasks_witness :
  reachable config fanState
  /\ JsMap.get "C" (tasks fanState) = Some fanC
  /\ In (task fanC) (getAgentTasks (agentId fanC) fanState).
Proof.
  assert (R : reachable config fanState)
    by (exists fan; vm_compute; reflexivity).
  split; [exact R | split; [reflexivity |]].
  exact (proj1 (agent_queries_cover_held_tasks config fanState "C" fanC R
                  eq_refl)).
Defined.

Lemma cancelAgentTasks_leaves_no_task_of_agent_witness :
  reachable config fanState
  /\ cancelAgentTasks "agent-1" fanState = Some fanWithoutAgent1
  /\ forall k v,
      JsMap.get k (tasks fanWithoutAgent1) = Some v -> agentId v <> "agent-1".
Proof.
  assert (R : reachable config fanState)
    by (exists fan; vm_compute; reflexivity).
  assert (E : cancelAgentTasks "agent-1" fanState = Some fanWithoutAgent1)
    by (vm_compute; reflexivity).
  split; [exact R | split; [exact E |]].
  exact (cancelAgentTasks_leaves_no_task_of_agent config "agent-1" fanState
           fanWithoutAgent1 R E).
Defined.

Lemma cleanup_keeps_the_newest_witness :
  NoDup (completedTasks crowdedWithEmpty)
  /\ JsSet.size (completedTasks (cleanup crowdedWithEmpty)) <= 1001.
Proof.
  assert (Hnd : NoDup (completedTasks crowdedWithEmpty))
    by (apply nodupb_NoDup; vm_compute; reflexivity).
  split; [exact Hnd |].
  destruct (cleanup_keeps_the_newest crowdedWithEmpty Hnd)
    as (_ & _ & _ & _ & H & _).
  exact H.
Defined.

(** With the empty-string id the oldest of 1002 completed ids, a sweep
    evicts the second-oldest only, and no later sweep brings the set down
    to 1000. *)
Lemma cancelAgentTasks_of_one_task_witness :
  JsMap.get "agent-2" (agentTasks fanState) = Some ["C"]
  /\ cancelAgentTasks "agent-2" fanState
     = option_map
         (fun s' =>
            setAgentTasks (JsMap.delete "agent-2" (agentTasks s')) s')
         (cancelTask "C" "Agent terminated" fanState).
Proof.
  split; [reflexivity |].
  exact (cancelAgentTasks_of_one_task "agent-2" "C" fanState eq_refl).
Defined.

(** The calls collected in [Promise.all] are all made before any of them
    resumes.  [cancelAgentTasks] and [shutdown] call [cancelTask] on P, which
    cancels P and, on its way into the dependents, D1; the call on D1 finds
    it gone; the call on D2 is made while the call on P is suspended at D1,
    so D2 is cancelled with the caller's reason and not as a dependent of P.
    [cancelTask] on P alone cancels D2 as a dependent. *)
Example collected_calls_start_before_any_resumes :
  option_map
    (fun s => skipn (List.length (emitted siblingsState)) (emitted s))
    (cancelAgentTasks "agent-1" siblingsState)
  = Some [ TASK_CANCELLED "P" "Agent terminated";
           TASK_CANCELLED "D1" "Parent task cancelled";
           TASK_CANCELLED "D2" "Agent terminated" ]
  /\ option_map
       (fun s => skipn (List.length (emitted siblingsState)) (emitted s))
       (shutdown siblingsState)
     = Some [ TASK_CANCELLED "P" "Scheduler shutdown";
              TASK_CANCELLED "D1" "Parent task cancelled";
              TASK_CANCELLED "D2" "Scheduler shutdown" ]
  /\ option_map
       (fun s => skipn (List.length (emitted siblingsState)) (emitted s))
       (cancelTask "P" "Agent terminated" siblingsState)
     = Some [ TASK_CANCELLED "P" "Agent terminated";
              TASK_CANCELLED "D1" "Parent task cancelled";
              TASK_CANCELLED "D2" "Parent task cancelled" ].
Proof. repeat split; vm_compute; reflexivity. Qed.

(** Once all the calls are made, the suspended ones take turns, a job each:
    the call on P has cancelled P and P1 and the call on Q has cancelled Q
    and Q1 when the first job runs; the loops over the dependents of P and
    of Q then go on alternately. *)
Example suspended_calls_take_turns :
  option_map
    (fun s => skipn (List.length (emitted twoFamiliesState)) (emitted s))
    (cancelAgentTasks "agent-1" twoFamiliesState)
  = Some [ TASK_CANCELLED "P" "Agent terminated";
           TASK_CANCELLED "P1" "Parent task cancelled";
           TASK_CANCELLED "Q" "Agent terminated";
           TASK_CANCELLED "Q1" "Parent task cancelled";
           TASK_CANCELLED "P2" "Parent task cancelled";
           TASK_CANCELLED "Q2" "Parent task cancelled";
           TASK_CANCELLED "P3" "Parent task cancelled" ].
Proof. vm_compute. reflexivity. Qed.

Example cleanup_skips_empty_id :
  option_map
    (fun s => (JsSet.size (completedTasks s), firstn 2 (completedTasks s)))
    (run config [PerformMaintenance; PerformMaintenance] crowdedWithEmpty)
  = Some (1001, [""; "1"]).
Proof. vm_compute. reflexivity. Qed.

Lemma maintenance_without_stuck_tasks_witness :
  (forall k v t0,
      JsMap.get k (tasks dueState) = Some v ->
      status (task v) = running -> startedAt (task v) = Some t0 ->
      (clock dueState - t0 <= resourceTimeout config * 2)%Z)
  /\ performMaintenance config dueState = Some (cleanup dueState).
Proof.
  assert (H : forall k v t0,
             JsMap.get k (tasks dueState) = Some v ->
             status (task v) = running -> startedAt (task v) = Some t0 ->
             (clock dueState - t0 <= resourceTimeout config * 2)%Z).
  { intros k v t0 Hv _ Ht. apply get_In in Hv.
    destruct Hv as [[= <- <-] | []]. injection Ht as <-.
    vm_compute. discriminate. }
  split; [exact H |].
  exact (proj1 (maintenance_without_stuck_tasks config dueState H)).
Defined.

Lemma maintenance_fails_stuck_task_witness :
  NoDup (JsMap.keys (tasks stuckState))
  /\ JsMap.get "T" (tasks stuckState) = Some stuckT
  /\ (resourceTimeout config * 2 < clock stuckState - 0)%Z
  /\ exists s',
      performMaintenance config stuckState = Some s'
      /\ (inactive "T" s'
          \/ JsMap.get "T" (tasks s') = Some (tried stuckState stuckT)).
Proof.
  assert (Hnd : NoDup (JsMap.keys (tasks stuckState)))
    by (repeat constructor; simpl; tauto).
  assert (Hlt : (resourceTimeout config * 2 < clock stuckState - 0)%Z)
    by reflexivity.
  split; [exact Hnd | split; [reflexivity | split; [exact Hlt |]]].
  destruct (maintenance_fails_stuck_task config stuckState "T" stuckT 0%Z
              Hnd eq_refl eq_refl eq_refl Hlt) as (s' & E & H & _).
  exists s'. split; assumption.
Defined.

(** The sweep of the stuck task T: one attempt recorded, a retry of 1000 ms
    armed, and T still [running] with its old [startedAt]. *)
Example sweep_counts_an_attempt :
  option_map
    (fun s =>
       (view s, map delay (timers s),
        map (fun p => startedAt (task (snd p))) (tasks s)))
    (performMaintenance config stuckState)
  = Some (([("T", running, 1)], [onRetry "T"]), [1000%Z], [Some 0%Z]).
Proof. vm_compute. reflexivity. Qed.

Lemma maintenance_restores_cap_witness :
  reachable config crowded
  /\ performMaintenance config crowded = Some crowdedSwept
  /\ JsSet.size (completedTasks crowdedSwept) <= 1001.
Proof.
  assert (R : reachable config crowded)
    by (exists (flood 1001); vm_compute; reflexivity).
  assert (E : performMaintenance config crowded = Some crowdedSwept)
    by (vm_compute; reflexivity).
  split; [exact R | split; [exact E |]].
  destruct (maintenance_restores_cap config crowded crowdedSwept R E)
    as (_ & H & _).
  exact H.
Defined.

Lemma only_completion_satisfies_witness :
  (forall result, CancelTask "B" "no longer needed" <> CompleteTask "B" result)
  /\ runOp config (CancelTask "B" "no longer needed") fanState
     = Some fanWithoutB
  /\ ~ In "B" (completedTasks fanState)
  /\ ~ In "B" (completedTasks fanWithoutB).
Proof.
  assert (H1 : forall result,
             CancelTask "B" "no longer needed" <> CompleteTask "B" result)
    by (intros result; discriminate).
  assert (H2 : runOp config (CancelTask "B" "no longer needed") fanState
               = Some fanWithoutB) by (vm_compute; reflexivity).
  assert (H3 : ~ In "B" (completedTasks fanState))
    by (intros [H | []]; discriminate).
  split; [exact H1 | split; [exact H2 | split; [exact H3 |]]].
  exact (proj1 (only_completion_satisfies config _ fanState fanWithoutB "B"
                  H1 H2 H3)).
Defined.

Lemma completion_unblocks_witness :
  JsMap.get "A" (tasks onlyARunning) = Some runningA
  /\ (forall depId,
        In depId (dependencies (newTask "B" ["A"])) ->
        depId = "A" \/ In depId (completedTasks onlyARunning))
  /\ snd (completeTask config "A" "ok" onlyARunning) = Returned.
Proof.
  assert (H : forall depId,
             In depId (dependencies (newTask "B" ["A"])) ->
             depId = "A" \/ In depId (completedTasks onlyARunning))
    by (intros d [<- | []]; now left).
  split; [reflexivity | split; [exact H |]].
  exact (proj1 (completion_unblocks config "A" "ok" (newTask "B" ["A"])
                  "agent-2" onlyARunning runningA eq_refl H)).
Defined.

Lemma terminal_is_final_witness :
  cancelTask "B" "no longer needed" fanState = Some fanWithoutB
  /\ inactive "B" fanWithoutB
  /\ cancelTask "B" "again" fanWithoutB = Some fanWithoutB.
Proof.
  assert (E : cancelTask "B" "no longer needed" fanState = Some fanWithoutB)
    by (vm_compute; reflexivity).
  split; [exact E |].
  destruct (terminal_is_final config "B" fanState fanWithoutB
              (or_intror (or_introl (ex_intro _ "no longer needed" E))))
    as [Hi H].
  split; [exact Hi |].
  exact (proj1 (proj2 (proj2 (H "ok" (ExecutionError "boom") "again")))).
Defined.

Lemma stale_timer_is_harmless_witness :
  find (fun x => Nat.eqb (handle x) 1) (timers backoffOver) = Some staleRetry
  /\ (due staleRetry <= clock backoffOver)%Z
  /\ inactive "T" backoffOver
  /\ fireTimer config 1 backoffOver = Some (clearTimeout 1 backoffOver).
Proof.
  assert (Hd : (due staleRetry <= clock backoffOver)%Z)
    by (vm_compute; discriminate).
  split; [reflexivity | split; [exact Hd | split; [reflexivity |]]].
  exact (proj1 (stale_timer_is_harmless config 1 staleRetry "T" backoffOver
                  eq_refl eq_refl Hd (or_introl eq_refl) eq_refl)).
Defined.
